(** * Security engine of console-code: PII detection, sanitization,
      consent and risk scoring

    A shallow embedding of [src/security/PIIDetector.ts],
    [src/security/DataSanitizer.ts], [src/security/ConsentManager.ts] and
    [src/security/SecurityEngine.ts], followed by the properties proved
    about them.

    Conventions of the embedding:
    - JavaScript numbers that hold scores (confidence, risk, thresholds,
      durations) are rationals [Q]; NaN and infinities are not
      represented.  A rational stands for the double nearest to it, as a
      numeric literal does in the source.  The confidence of a match is
      computed, and compared with thresholds, in binary64 arithmetic
      ([JS.add], [JS.mul], [JS.geq]); risk scores, durations and averages
      are computed without rounding.  Indices and counters are [Z].
    - JavaScript strings are [string]s of 8-bit code units; on them
      [toLowerCase] is the ASCII one.
    - A JavaScript [Map] or object whose iteration order is observable is an
      association list in insertion order ([JS.jsmap]); where only lookups
      matter it is a [gmap].
    - Clock readings and generated identifiers ([Date.now], [Math.random],
      [performance.now]) are inputs of the operation that reads them.
    - A thrown exception is the [Throw] outcome of [JS.Result]; state
      mutated before the throw is kept, as in the source. *)

From Stdlib Require Import ZArith QArith Qminmax Lqa Lia List Sorted Permutation.
From Stdlib Require Import Ascii String Bool HexadecimalString.
From stdpp Require Import gmap strings pretty.
Import ListNotations.
Open Scope Z_scope.

(** ** JavaScript built-ins used by the source *)

Module JS.

(** Outcome of a call that may throw; the payload of [Throw] is the
    error's [message]. *)
Inductive Result (A : Type) : Type :=
| Ok (a : A)
| Throw (message : string).
Arguments Ok {A} a.
Arguments Throw {A} message.

Definition bind {A B} (r : Result A) (k : A -> Result B) : Result B :=
  match r with
  | Ok a => k a
  | Throw m => Throw m
  end.

Section Sort.
Context {A : Type}.
(** The comparator's sign: [Lt] for a negative number, [Eq] for zero,
    [Gt] for a positive one. *)
Variable cmp : A -> A -> comparison.

Fixpoint insert (x : A) (l : list A) : list A :=
  match l with
  | [] => [x]
  | y :: l' =>
      match cmp x y with
      | Gt => y :: insert x l'
      | _ => x :: y :: l'
      end
  end.

(** [Array.prototype.sort(cmp)]: a stable sort.  An element is inserted
    in front of the first element it does not have to follow, so equal
    elements keep their order. *)
Definition sort (l : list A) : list A := fold_right insert [] l.
End Sort.

(** [a < b] on numbers. *)
Definition Qltb (a b : Q) : bool := negb (Qle_bool b a).

(** *** Binary64 arithmetic

    A finite double is the rational it denotes.  No operation of the
    source that is computed in this arithmetic here (a sum with 0.1, a
    minimum with 1.0, products with factors of at most 1.0) leaves the
    range of the finite doubles. *)

(** [floor (log2 (n / d))] for positive [n] and [d]. *)
Definition floorLog2 (n d : Z) : Z :=
  let k := Z.log2 n - Z.log2 d in
  if d * 2 ^ Z.max k 0 <=? n * 2 ^ Z.max (- k) 0 then k else k - 1.

(** The integer nearest to [n / d], the even one of two that are equally
    near; [n] is not negative and [d] is positive. *)
Definition roundHalfEven (n d : Z) : Z :=
  let q := n / d in
  let r := n mod d in
  if 2 * r <? d then q
  else if d <? 2 * r then q + 1
  else if Z.even q then q else q + 1.

(** [m * 2 ^ e]. *)
Definition scale (m e : Z) : Q :=
  if 0 <=? e then inject_Z (m * 2 ^ e) else Qmake m (Z.to_pos (2 ^ (- e))).

(** The double nearest to [n / d], for positive [n] and [d]: a number
    with 53 significant bits, or a multiple of [2 ^ -1074] below
    [2 ^ -1022]; of two doubles that are equally near, the one whose last
    bit is 0. *)
Definition nearestDouble (n d : Z) : Q :=
  let e := Z.max (floorLog2 n d - 52) (-1074) in
  scale (roundHalfEven (n * 2 ^ Z.max (- e) 0) (d * 2 ^ Z.max e 0)) e.

(** The double a rational stands for: a double stands for itself, a
    decimal literal for the double the source text denotes. *)
Definition double (x : Q) : Q :=
  match Qnum x with
  | Z0 => 0
  | Zpos n => nearestDouble (Zpos n) (Zpos (Qden x))
  | Zneg n => - nearestDouble (Zpos n) (Zpos (Qden x))
  end.

(** [a + b], [a * b], [Math.min(a, b)], [a >= b] and [a < b] on doubles. *)
Definition add (a b : Q) : Q := double (double a + double b).
Definition mul (a b : Q) : Q := double (double a * double b).
Definition min (a b : Q) : Q := Qmin (double a) (double b).
Definition geq (a b : Q) : bool := Qle_bool (double b) (double a).
Definition less (a b : Q) : bool := negb (Qle_bool (double b) (double a)).

(** *** Dates

    A [Date] is its time value, in milliseconds since the epoch. *)

Definition msPerDay : Z := 86400000.

(** The time zone of the host: the offset of local time from UTC at a
    time value ([LocalTZA(t, true)]) and at a local time
    ([LocalTZA(t, false)]). *)
Record TimeZone := {
  offsetAt : Z -> Z;
  offsetAtLocal : Z -> Z
}.

Definition utc : TimeZone :=
  {| offsetAt := fun _ => 0; offsetAtLocal := fun _ => 0 |}.

(** [date.setDate(date.getDate() + days)]: the same local time of day
    [days] calendar days later. *)
Definition addDays (zone : TimeZone) (date days : Z) : Z :=
  let local := date + offsetAt zone date + days * msPerDay in
  local - offsetAtLocal zone local.

(** [Array.prototype.some] and [every]. *)
Definition some {A} (f : A -> bool) (l : list A) : bool := existsb f l.
Definition every {A} (f : A -> bool) (l : list A) : bool := forallb f l.

(** *** Strings *)

Definition len (s : string) : Z := Z.of_nat (String.length s).

Definition clampIndex (s : string) (i : Z) : Z := Z.max 0 (Z.min i (len s)).

(** [s.substring(a, b)]: both indices are clamped to [0, length] and
    swapped when [a > b]. *)
Definition substring (s : string) (a b : Z) : string :=
  let a' := clampIndex s a in
  let b' := clampIndex s b in
  let from := Z.min a' b' in
  let to := Z.max a' b' in
  String.substring (Z.to_nat from) (Z.to_nat (to - from)) s.

(** [s.substring(a)]. *)
Definition substringFrom (s : string) (a : Z) : string :=
  substring s a (len s).

Definition isUpper (c : ascii) : bool :=
  let n := nat_of_ascii c in (65 <=? n)%nat && (n <=? 90)%nat.
Definition isLower (c : ascii) : bool :=
  let n := nat_of_ascii c in (97 <=? n)%nat && (n <=? 122)%nat.
Definition isDigit (c : ascii) : bool :=
  let n := nat_of_ascii c in (48 <=? n)%nat && (n <=? 57)%nat.
Definition isAlnum (c : ascii) : bool := isUpper c || isLower c || isDigit c.

Definition lowerChar (c : ascii) : ascii :=
  if isUpper c then ascii_of_nat (nat_of_ascii c + 32) else c.

Fixpoint toLowerCase (s : string) : string :=
  match s with
  | EmptyString => EmptyString
  | String c s' => String (lowerChar c) (toLowerCase s')
  end.

(** [s.includes(sub)]. *)
Definition includes (s sub : string) : bool :=
  match String.index 0 sub s with
  | Some _ => true
  | None => false
  end.

(** [s.repeat(n)]: a negative count is a [RangeError]. *)
Fixpoint repeatNat (s : string) (n : nat) : string :=
  match n with
  | O => EmptyString
  | S n' => s +:+ repeatNat s n'
  end.

Definition repeat (s : string) (n : Z) : Result string :=
  if n <? 0 then Throw ("Invalid count value: " +:+ pretty n)
  else Ok (repeatNat s (Z.to_nat n)).

(** [s.replace(/re/g, f)] for a regular expression [re] that matches one
    character of class [p] at a time; [f] receives the matched character
    and its index in [s]. *)
Fixpoint replaceCharsFrom (p : ascii -> bool) (f : ascii -> Z -> string)
         (i : Z) (s : string) : string :=
  match s with
  | EmptyString => EmptyString
  | String c s' =>
      (if p c then f c i else String c EmptyString)
        +:+ replaceCharsFrom p f (i + 1) s'
  end.

Definition replaceChars (p : ascii -> bool) (f : ascii -> Z -> string)
           (s : string) : string :=
  replaceCharsFrom p f 0 s.

(** [s.replace(/\D/g, '')]: the digits of [s]. *)
Fixpoint digitsOf (s : string) : string :=
  match s with
  | EmptyString => EmptyString
  | String c s' => if isDigit c then String c (digitsOf s') else digitsOf s'
  end.

(** [s.split(sep)] for a one-character separator. *)
Fixpoint split (sep : ascii) (s : string) : list string :=
  match s with
  | EmptyString => [EmptyString]
  | String c s' =>
      if Ascii.eqb c sep then EmptyString :: split sep s'
      else match split sep s' with
           | [] => [String c EmptyString]
           | h :: t => String c h :: t
           end
  end.

(** [s[i]], [undefined] out of range. *)
Definition charAt (s : string) (i : Z) : option ascii :=
  if i <? 0 then None else String.get (Z.to_nat i) s.

(** A possibly-undefined string inside a template literal. *)
Definition show (o : option string) : string :=
  match o with
  | Some s => s
  | None => "undefined"
  end.

Definition showChar (o : option ascii) : string :=
  show (option_map (fun c => String c EmptyString) o).

(** [l.slice(0, n)]: a negative [n] counts from the end. *)
Definition sliceTo {A} (n : Z) (l : list A) : list A :=
  if n <? 0 then firstn (Z.to_nat (Z.of_nat (length l) + n)) l
  else firstn (Z.to_nat n) l.

(** [l.findIndex(f)]: [-1] when no element passes. *)
Fixpoint findIndex {A} (f : A -> bool) (l : list A) : Z :=
  match l with
  | [] => -1
  | x :: l' =>
      if f x then 0
      else let i := findIndex f l' in if i =? -1 then -1 else i + 1
  end.

(** [l.splice(i, 1)] for [0 <= i]: the list without its element [i]. *)
Definition removeAt {A} (i : Z) (l : list A) : list A :=
  firstn (Z.to_nat i) l ++ skipn (Z.to_nat i + 1) l.

(** *** Insertion-ordered maps ([Map], plain objects) *)

Definition jsmap (K V : Type) : Type := list (K * V).

Section JsMap.
Context {K V : Type} (eqb : K -> K -> bool).

Fixpoint get (k : K) (m : jsmap K V) : option V :=
  match m with
  | [] => None
  | (k', v) :: m' => if eqb k k' then Some v else get k m'
  end.

Definition has (k : K) (m : jsmap K V) : bool :=
  match get k m with Some _ => true | None => false end.

(** An existing key keeps its position, a new key goes last. *)
Fixpoint set (k : K) (v : V) (m : jsmap K V) : jsmap K V :=
  match m with
  | [] => [(k, v)]
  | (k', v') :: m' =>
      if eqb k k' then (k, v) :: m' else (k', v') :: set k v m'
  end.

Fixpoint delete (k : K) (m : jsmap K V) : jsmap K V :=
  match m with
  | [] => []
  | (k', v') :: m' =>
      if eqb k k' then m' else (k', v') :: delete k m'
  end.

Definition values (m : jsmap K V) : list V := map snd m.
Definition keys (m : jsmap K V) : list K := map fst m.
End JsMap.

End JS.

Import JS (Result, Ok, Throw).

(** ** Shared types ([src/types/index.ts]) *)

Inductive LogLevel := log | info | warn | error | debug.

Inductive SensitivityLevel := public | internal | confidential | restricted.

Inductive PIIType :=
| creditCard | ssn | email | ipAddress | jwt | apiKey | password | phone | custom.

Definition PIIType_eqb (a b : PIIType) : bool :=
  match a, b with
  | creditCard, creditCard | ssn, ssn | email, email | ipAddress, ipAddress
  | jwt, jwt | apiKey, apiKey | password, password | phone, phone
  | custom, custom => true
  | _, _ => false
  end.

Record PIIDetectionResult := {
  type : PIIType;
  value : string;
  startIndex : Z;
  endIndex : Z;
  confidence : Q;
  patternName : string;
  highConfidence : bool
}.

(** The regular expression of a pattern is represented by the matches
    that successive calls of [exec] find in a text when [lastIndex] is
    moved past every empty match (the matches [String.prototype.matchAll]
    lists), each with its index and matched substring. *)
Record PIIPattern := {
  name : string;
  ptype : PIIType;
  pattern : string -> list (Z * string);
  validator : option (string -> bool);
  baseConfidence : Q;
  requiresContext : bool
}.

(** ** The 32-bit string hash

    The loop written out in both [DataSanitizer.hashValue] and
    [ConsentManager.hashUserId]. *)

Module Hash32.

(** [ToInt32]. *)
Definition toInt32 (z : Z) : Z := (z + 2^31) mod 2^32 - 2^31.

(** One turn of the loop:
    [hash = ((hash << 5) - hash) + char; hash = hash & hash]. *)
Definition hashStep (h : Z) (c : ascii) : Z :=
  toInt32 (toInt32 (h * 32) - h + Z.of_nat (nat_of_ascii c)).

Definition hashOf (s : string) : Z :=
  fold_left hashStep (list_ascii_of_string s) 0.

(** [n.toString(16)] for a non-negative integer. *)
Definition toHex (n : Z) : string :=
  NilZero.string_of_uint (N.to_hex_uint (Z.to_N n)).

End Hash32.

(** ** PIIDetector ([src/security/PIIDetector.ts]) *)

Module PIIDetector.

Record PerformanceMetrics := {
  totalScans : Z;
  totalScanTimeMs : Q;
  averageScanTimeMs : Q;
  lastScanTimeMs : Q
}.

(** The detector object: the built-in patterns by type, in the order the
    constructor registered them, the custom patterns, and the counters. *)
Record t := {
  patterns : JS.jsmap PIIType (list PIIPattern);
  customPatterns : list PIIPattern;
  performanceMetrics : PerformanceMetrics
}.

(** *** Validators *)

Definition digitValue (c : ascii) : Z := Z.of_nat (nat_of_ascii c) - 48.

(** The body of the Luhn loop, run from the last digit to the first. *)
Fixpoint luhnLoop (digits : list ascii) (alternate : bool) (sum : Z) : Z :=
  match digits with
  | [] => sum
  | c :: rest =>
      let n := digitValue c in
      let n := if alternate
               then (let n2 := n * 2 in if n2 >? 9 then n2 mod 10 + 1 else n2)
               else n in
      luhnLoop rest (negb alternate) (sum + n)
  end.

Definition validateCreditCard (cardNumber : string) : bool :=
  let digits := JS.digitsOf cardNumber in
  if (JS.len digits <? 13) || (JS.len digits >? 19) then false
  else luhnLoop (rev (list_ascii_of_string digits)) false 0 mod 10 =? 0.

(** Characters of the class [\s] among 8-bit code units. *)
Definition isSpace (c : ascii) : bool :=
  let n := nat_of_ascii c in
  ((9 <=? n)%nat && (n <=? 13)%nat) || (n =? 32)%nat || (n =? 160)%nat.

Definition noSpace (s : string) : bool :=
  forallb (fun c => negb (isSpace c)) (list_ascii_of_string s).

(** A ["."] with at least one character before it and one after it. *)
Definition hasInnerDot (s : string) : bool :=
  match list_ascii_of_string s with
  | [] => false
  | _ :: r => existsb (fun c => Ascii.eqb c ".") (removelast r)
  end.

(** [/^[^\s@]+@[^\s@]+\.[^\s@]+$/.test(email)]. *)
Definition emailRegex (email : string) : bool :=
  noSpace email &&
  match JS.split "@" email with
  | [local; domain] => negb (String.eqb local "") && hasInnerDot domain
  | _ => false
  end.

Definition validateEmail (email : string) : bool :=
  emailRegex email && negb (JS.includes email "..").

Definition invalidPatterns : list string :=
  ["000"; "666"; "900"; "999"; "0000"; "00"]%string.

Definition arrayIncludes (l : list string) (s : string) : bool :=
  existsb (String.eqb s) l.

Definition validateSSN (ssn : string) : bool :=
  let digits := JS.digitsOf ssn in
  if negb (JS.len digits =? 9) then false
  else
    let area := JS.substring digits 0 3 in
    let group := JS.substring digits 3 5 in
    let serial := JS.substring digits 5 9 in
    negb (arrayIncludes invalidPatterns area) &&
    negb (arrayIncludes invalidPatterns group) &&
    negb (arrayIncludes invalidPatterns serial).

Definition validatePhone (phone : string) : bool :=
  let digits := JS.digitsOf phone in
  (JS.len digits >=? 10) && (JS.len digits <=? 15).

(** *** Confidence of one match *)

Definition contextRadius : Z := 20.

Definition validateContext (text : string) (matchIndex : Z)
           (matchValue : string) (piiType : PIIType) : Q :=
  let contextStart := Z.max 0 (matchIndex - contextRadius) in
  let contextEnd :=
    Z.min (JS.len text) (matchIndex + JS.len matchValue + contextRadius) in
  let context := JS.toLowerCase (JS.substring text contextStart contextEnd) in
  let has := JS.includes context in
  match piiType with
  | email =>
      if has "email" || has "mail" || has "@" then 1.0
      else if has "user" || has "login" || has "account" then 0.9
      else 0.8
  | creditCard =>
      if has "card" || has "payment" || has "visa" || has "mastercard"
         || has "amex" then 1.0
      else if has "number" || has "cc" || has "credit" then 0.9
      else 0.7
  | ssn =>
      if has "ssn" || has "social" || has "security" then 1.0
      else if has "tax" || has "id" || has "number" then 0.8
      else 0.6
  | phone =>
      if has "phone" || has "tel" || has "call" || has "mobile"
         || has "contact" then 1.0
      else 0.8
  | apiKey | jwt =>
      if has "key" || has "token" || has "auth" || has "api"
         || has "bearer" then 1.0
      else 0.8
  | _ => 0.8
  end%Q.

Definition applyTypeSpecificValidation (value : string) (piiType : PIIType)
           (currentConfidence : Q) : Q :=
  match piiType with
  | creditCard =>
      if validateCreditCard value then currentConfidence
      else JS.mul currentConfidence 0.5
  | email =>
      if validateEmail value then currentConfidence
      else JS.mul currentConfidence 0.3
  | ssn =>
      if validateSSN value then currentConfidence
      else JS.mul currentConfidence 0.2
  | phone =>
      if validatePhone value then currentConfidence
      else JS.mul currentConfidence 0.6
  | _ => currentConfidence
  end%Q.

(** One turn of the [while] loop of [findPatternMatches]: [None] when the
    validator makes the loop [continue].  The confidence is computed on
    doubles, from the double that [pattern.baseConfidence] holds. *)
Definition matchDetection (text : string) (p : PIIPattern)
           (m : Z * string) : option PIIDetectionResult :=
  let '(index, matchedValue) := m in
  let confidence := JS.double (baseConfidence p) in
  let afterValidator :=
    match validator p with
    | Some v =>
        if negb (v matchedValue) then None
        else Some (JS.min 1.0 (JS.add confidence 0.1))%Q
    | None => Some confidence
    end in
  match afterValidator with
  | None => None
  | Some confidence =>
      let confidence :=
        if requiresContext p
        then JS.mul confidence
                    (validateContext text index matchedValue (ptype p))
        else confidence in
      let confidence :=
        applyTypeSpecificValidation matchedValue (ptype p) confidence in
      Some {| type := ptype p;
              value := matchedValue;
              startIndex := index;
              endIndex := index + JS.len matchedValue;
              confidence := confidence;
              patternName := name p;
              highConfidence := JS.geq confidence 0.8 |}
  end.

Fixpoint collect {A B} (f : A -> option B) (l : list A) : list B :=
  match l with
  | [] => []
  | a :: l' =>
      match f a with
      | Some b => b :: collect f l'
      | None => collect f l'
      end
  end.

(** [findPatternMatches(text, pattern)] when its loop ends: the
    detections it has pushed. *)
Definition findPatternMatches (text : string) (p : PIIPattern)
  : list PIIDetectionResult :=
  collect (matchDetection text p) (pattern p text).

(** The [while] loop of [findPatternMatches] turn by turn.  [exec] puts
    [lastIndex] behind the match it returns, and the last statement of
    the body moves it past an empty match, so the next call finds the
    next of the [remaining] matches.  [continue] skips that statement:
    after an empty match that the validator rejects, [exec] finds the
    same match again.  [fuel] bounds the number of turns; the result is
    [None] when it runs out. *)
Fixpoint findPatternMatchesLoop (fuel : nat) (text : string) (p : PIIPattern)
         (remaining : list (Z * string)) (matches : list PIIDetectionResult)
  : option (list PIIDetectionResult) :=
  match fuel with
  | O => None
  | S fuel =>
      match remaining with
      | [] => Some matches
      | m :: rest =>
          match matchDetection text p m with
          | Some detection =>
              findPatternMatchesLoop fuel text p rest (matches ++ [detection])
          | None =>
              if String.eqb (snd m) ""
              then findPatternMatchesLoop fuel text p remaining matches
              else findPatternMatchesLoop fuel text p rest matches
          end
      end
  end.

(** *** Overlap resolution *)

(** The comparator of the first sort: confidence descending, then start
    index ascending. *)
Definition byConfidence (a b : PIIDetectionResult) : comparison :=
  if negb (Qeq_bool (confidence a) (confidence b))
  then (confidence b ?= confidence a)%Q
  else startIndex a ?= startIndex b.

Definition byStartIndex (a b : PIIDetectionResult) : comparison :=
  startIndex a ?= startIndex b.

(** [!(detection.endIndex <= existing.startIndex ||
       detection.startIndex >= existing.endIndex)]. *)
Definition overlaps (detection existing : PIIDetectionResult) : bool :=
  negb ((endIndex detection <=? startIndex existing)
        || (startIndex detection >=? endIndex existing)).

Definition accept (filtered : list PIIDetectionResult)
           (detection : PIIDetectionResult) : list PIIDetectionResult :=
  let hasOverlap := JS.some (overlaps detection) filtered in
  if negb hasOverlap then filtered ++ [detection] else filtered.

Definition removeOverlappingDetections (detections : list PIIDetectionResult)
  : list PIIDetectionResult :=
  if (length detections <=? 1)%nat then detections
  else
    let sorted := JS.sort byConfidence detections in
    let filtered := fold_left accept sorted [] in
    JS.sort byStartIndex filtered.

(** *** Scanning *)

Definition updatePerformanceMetrics (m : PerformanceMetrics) (scanTimeMs : Q)
  : PerformanceMetrics :=
  let scans := totalScans m + 1 in
  let total := (totalScanTimeMs m + scanTimeMs)%Q in
  {| lastScanTimeMs := scanTimeMs;
     totalScans := scans;
     totalScanTimeMs := total;
     averageScanTimeMs := (total / inject_Z scans)%Q |}.

Definition allPatterns (d : t) : list PIIPattern :=
  concat (JS.values (patterns d)) ++ customPatterns d.

(** The detections pushed by the two loops of [scanText], before overlap
    resolution. *)
Definition candidates (d : t) (text : string) (minConfidence : Q)
  : list PIIDetectionResult :=
  flat_map
    (fun p => List.filter (fun m => JS.geq (confidence m) minConfidence)
                     (findPatternMatches text p))
    (allPatterns d).

(** [scanText(text, minConfidence = 0.7)] when it returns, which it does
    unless the loop of [findPatternMatches] runs forever for one of the
    patterns (see [findPatternMatchesLoop]); [scanTime] is the duration
    measured by the [finally] block. *)
Definition scanText (d : t) (text : string) (minConfidence : option Q)
           (scanTime : Q) : list PIIDetectionResult * t :=
  let minConfidence := default 0.7%Q minConfidence in
  let filteredDetections :=
    removeOverlappingDetections (candidates d text minConfidence) in
  (filteredDetections,
   {| patterns := patterns d;
      customPatterns := customPatterns d;
      performanceMetrics :=
        updatePerformanceMetrics (performanceMetrics d) scanTime |}).

(** *** Built-in patterns *)

Definition hasChar (p : ascii -> bool) (s : string) : bool :=
  existsb p (list_ascii_of_string s).

Definition genericApiKeyValidator (value : string) : bool :=
  (JS.len value >=? 32) && hasChar JS.isUpper value
  && hasChar JS.isLower value && hasChar JS.isDigit value.

Definition jwtValidator (value : string) : bool :=
  let parts := JS.split "." value in
  (length parts =? 3)%nat
  && JS.every (fun part => JS.len part >? 0) parts.

Section Defaults.
(** The regular-expression engine: what the pattern registered under
    a name matches on a text. *)
Variable regex : string -> string -> list (Z * string).

Definition mk (n : string) (ty : PIIType) (base : Q)
           (v : option (string -> bool)) (ctx : bool) : PIIPattern :=
  {| name := n; ptype := ty; pattern := regex n; validator := v;
     baseConfidence := base; requiresContext := ctx |}.

Definition defaultPatterns : JS.jsmap PIIType (list PIIPattern) :=
  [ (creditCard, [ mk "visa" creditCard 0.9 None true;
                   mk "mastercard" creditCard 0.9 None true;
                   mk "amex" creditCard 0.9 None true;
                   mk "discover" creditCard 0.9 None true ]);
    (ssn, [ mk "ssn_standard" ssn 0.8 None true ]);
    (email, [ mk "email_standard" email 0.95 None false ]);
    (phone, [ mk "us_phone" phone 0.85 None true;
              mk "international_phone" phone 0.8 None true ]);
    (ipAddress, [ mk "ipv4" ipAddress 0.9 None false;
                  mk "ipv6" ipAddress 0.9 None false ]);
    (apiKey, [ mk "generic_api_key" apiKey 0.7
                  (Some genericApiKeyValidator) true;
               mk "aws_access_key" apiKey 0.95 None false;
               mk "github_token" apiKey 0.95 None false ]);
    (jwt, [ mk "jwt_token" jwt 0.9 (Some jwtValidator) false ]);
    (password, [ mk "password_in_url" password 0.9 None false;
                 mk "password_assignment" password 0.8 None false ]) ]%Q.

(** [new PIIDetector()]. *)
Definition create : t :=
  {| patterns := defaultPatterns;
     customPatterns := [];
     performanceMetrics :=
       {| totalScans := 0; totalScanTimeMs := 0; averageScanTimeMs := 0;
          lastScanTimeMs := 0 |} |}.
End Defaults.

(** [addCustomPattern]: of the required fields only [name] can be falsy
    (the empty string) at this record type. *)
Definition addCustomPattern (d : t) (p : PIIPattern) : Result t :=
  if String.eqb (name p) "" then
    Throw "Invalid PII pattern: missing required fields"
  else
    Ok {| patterns := patterns d;
          customPatterns := customPatterns d ++ [p];
          performanceMetrics := performanceMetrics d |}.

(** [removeCustomPattern(patternName)]: whether a pattern was removed, and
    the detector after the call. *)
Definition removeCustomPattern (d : t) (patternName : string) : bool * t :=
  let index :=
    JS.findIndex (fun p => String.eqb (name p) patternName) (customPatterns d) in
  if negb (index =? -1) then
    (true,
     {| patterns := patterns d;
        customPatterns := JS.removeAt index (customPatterns d);
        performanceMetrics := performanceMetrics d |})
  else (false, d).

Definition getPerformanceMetrics (d : t) : PerformanceMetrics :=
  performanceMetrics d.

Definition resetPerformanceMetrics (d : t) : t :=
  {| patterns := patterns d;
     customPatterns := customPatterns d;
     performanceMetrics :=
       {| totalScans := 0; totalScanTimeMs := 0; averageScanTimeMs := 0;
          lastScanTimeMs := 0 |} |}.

End PIIDetector.

(** ** DataSanitizer ([src/security/DataSanitizer.ts]) *)

Inductive SanitizationStrategy := mask | hash | remove | partial.

Record SanitizationAction := {
  piiType : PIIType;
  strategy : SanitizationStrategy;
  originalValueHash : string;
  sanitizedValue : string;
  position : Z * Z;
  timestamp : Z
}.

Record SanitizationResult := {
  originalText : string;
  sanitizedText : string;
  sanitizedDetections : list PIIDetectionResult;
  actions : list SanitizationAction;
  wasModified : bool
}.

Module DataSanitizer.

Record SanitizationConfig := {
  defaultStrategy : SanitizationStrategy;
  typeStrategies : PIIType -> option SanitizationStrategy;
  (** Inserted as it is: it is taken to contain no [$], which
      [String.prototype.replace] would expand. *)
  maskCharacter : string;
  partialPreserveLength : Z;
  preserveFormat : bool;
  hashSalt : string
}.

Record t := {
  config : SanitizationConfig;
  auditTrail : list SanitizationAction;
  hashCache : gmap string string
}.

Definition defaultTypeStrategies (ty : PIIType) : option SanitizationStrategy :=
  match ty with
  | creditCard => Some mask
  | ssn => Some mask
  | email => Some partial
  | phone => Some partial
  | apiKey => Some remove
  | jwt => Some remove
  | password => Some remove
  | ipAddress => Some hash
  | custom => Some mask
  end.

(** [new DataSanitizer()] with the salt the constructor generated. *)
Definition create (salt : string) : t :=
  {| config := {| defaultStrategy := mask;
                  typeStrategies := defaultTypeStrategies;
                  maskCharacter := "*";
                  partialPreserveLength := 4;
                  preserveFormat := true;
                  hashSalt := salt |};
     auditTrail := [];
     hashCache := ∅ |}.

Definition getStrategyForPIIType (s : t) (ty : PIIType) : SanitizationStrategy :=
  default (defaultStrategy (config s)) (typeStrategies (config s) ty).

(** *** Hashing *)

Definition padStart (width : Z) (fill : ascii) (s : string) : string :=
  JS.repeatNat (String fill EmptyString) (Z.to_nat (width - JS.len s)) +:+ s.

(** The text computed by [hashValue] on a cache miss. *)
Definition hashString (salt value : string) : string :=
  let saltedValue := value +:+ salt in
  let h := Hash32.hashOf saltedValue in
  "[HASH:" +:+ padStart 8 "0" (Hash32.toHex (Z.abs h)) +:+ "]".

Definition withCache (s : t) (c : gmap string string) : t :=
  {| config := config s; auditTrail := auditTrail s; hashCache := c |}.

Definition hashValue (s : t) (value : string) : string * t :=
  match hashCache s !! value with
  | Some cached => (cached, s)
  | None =>
      let hashString := hashString (hashSalt (config s)) value in
      (hashString, withCache s (<[value := hashString]> (hashCache s)))
  end.

(** *** Masking *)

#[local] Instance Result_bind : MBind Result :=
  fun A B f r => JS.bind r f.

Definition firstTwo {A} (l : list A) : option A * option A :=
  (nth_error l 0, nth_error l 1).

Definition maskValue (s : t) (value : string) (piiType : PIIType)
  : Result string :=
  let maskCharacter := maskCharacter (config s) in
  if negb (preserveFormat (config s)) then
    JS.repeat maskCharacter (JS.len value)
  else
    match piiType with
    | creditCard | ssn | phone =>
        Ok (JS.replaceChars JS.isDigit (fun _ _ => maskCharacter) value)
    | email =>
        let '(local, domain) := firstTwo (JS.split "@" value) in
        let local := default EmptyString local in
        maskedLocal ←
          (if JS.len local >? 2 then
             middle ← JS.repeat maskCharacter (JS.len local - 2);
             Ok (JS.showChar (JS.charAt local 0) +:+ middle
                   +:+ JS.showChar (JS.charAt local (JS.len local - 1)))
           else JS.repeat maskCharacter (JS.len local));
        Ok (maskedLocal +:+ "@" +:+ JS.show domain)
    | _ =>
        Ok (JS.replaceChars JS.isAlnum (fun _ _ => maskCharacter) value)
    end.

(** The replacer of the digit-preserving variants: the digit at [index]
    becomes [masked[digitIndex] || match]. *)
Definition digitReplacer (value masked : string) (c : ascii) (index : Z)
  : string :=
  let digitIndex :=
    JS.len (JS.digitsOf (JS.substring value 0 (index + 1))) - 1 in
  match JS.charAt masked digitIndex with
  | Some m => String m EmptyString
  | None => String c EmptyString
  end.

Definition partialMaskValue (s : t) (value : string) (piiType : PIIType)
  : Result string :=
  let maskCharacter := maskCharacter (config s) in
  let preserveLength :=
    Z.min (partialPreserveLength (config s)) (JS.len value / 3) in
  if JS.len value <=? preserveLength * 2 then maskValue s value piiType
  else
    match piiType with
    | email =>
        let '(local, domain) := firstTwo (JS.split "@" value) in
        let local := default EmptyString local in
        if JS.len local <=? 4 then
          stars ← JS.repeat maskCharacter (JS.len local - 1);
          Ok (JS.showChar (JS.charAt local 0) +:+ stars +:+ "@"
                +:+ JS.show domain)
        else
          stars ← JS.repeat maskCharacter (JS.len local - 4);
          let maskedLocal :=
            JS.substring local 0 2 +:+ stars
              +:+ JS.substringFrom local (JS.len local - 2) in
          Ok (maskedLocal +:+ "@" +:+ JS.show domain)
    | creditCard =>
        let digits := JS.digitsOf value in
        if JS.len digits >=? 8 then
          stars ← JS.repeat maskCharacter (JS.len digits - 8);
          let masked :=
            JS.substring digits 0 4 +:+ stars
              +:+ JS.substringFrom digits (JS.len digits - 4) in
          Ok (JS.replaceChars JS.isDigit (digitReplacer value masked) value)
        else maskValue s value piiType
    | phone =>
        let phoneDigits := JS.digitsOf value in
        if JS.len phoneDigits >=? 7 then
          stars ← JS.repeat maskCharacter (JS.len phoneDigits - 6);
          let maskedDigits :=
            JS.substring phoneDigits 0 3 +:+ stars
              +:+ JS.substringFrom phoneDigits (JS.len phoneDigits - 3) in
          Ok (JS.replaceChars JS.isDigit (digitReplacer value maskedDigits)
                              value)
        else maskValue s value piiType
    | _ =>
        let start := JS.substring value 0 preserveLength in
        let end_ := JS.substringFrom value (JS.len value - preserveLength) in
        middle ← JS.repeat maskCharacter (JS.len value - preserveLength * 2);
        Ok (start +:+ middle +:+ end_)
    end.

Definition applySanitizationStrategy (s : t) (value : string)
           (piiType : PIIType) (strategy : SanitizationStrategy)
  : Result string * t :=
  match strategy with
  | mask => (maskValue s value piiType, s)
  | hash => let '(h, s') := hashValue s value in (Ok h, s')
  | remove => (Ok "[REDACTED]"%string, s)
  | partial => (partialMaskValue s value piiType, s)
  end.

(** *** sanitizeText *)

(** The comparator [(a, b) => b.startIndex - a.startIndex]. *)
Definition byStartDescending (a b : PIIDetectionResult) : comparison :=
  startIndex b ?= startIndex a.

Definition pushAudit (s : t) (a : SanitizationAction) : t :=
  {| config := config s; auditTrail := auditTrail s ++ [a];
     hashCache := hashCache s |}.

(** The loop variables: [sanitizedText], [actions], [sanitizedDetections]. *)
Definition Loop : Type :=
  string * list SanitizationAction * list PIIDetectionResult.

(** One turn of the [for] loop over the sorted detections. *)
Definition sanitizeStep (now : Z) (s : t) (acc : Loop)
           (detection : PIIDetectionResult) : Result Loop * t :=
  let '(sanitizedText, actions, sanitizedDetections) := acc in
  let strategy := getStrategyForPIIType s (type detection) in
  match applySanitizationStrategy s (value detection) (type detection)
                                  strategy with
  | (Throw m, s1) => (Throw m, s1)
  | (Ok sanitizedValue, s1) =>
      let beforeText := JS.substring sanitizedText 0 (startIndex detection) in
      let afterText := JS.substringFrom sanitizedText (endIndex detection) in
      let sanitizedText := beforeText +:+ sanitizedValue +:+ afterText in
      let '(valueHash, s2) := hashValue s1 (value detection) in
      let action :=
        {| piiType := type detection;
           strategy := strategy;
           originalValueHash := valueHash;
           sanitizedValue := sanitizedValue;
           position := (startIndex detection, endIndex detection);
           timestamp := now |} in
      let updatedDetection :=
        {| type := type detection;
           value := value detection;
           startIndex := startIndex detection;
           endIndex := startIndex detection + JS.len sanitizedValue;
           confidence := confidence detection;
           patternName := patternName detection;
           highConfidence := highConfidence detection |} in
      (Ok (sanitizedText, actions ++ [action],
           sanitizedDetections ++ [updatedDetection]),
       pushAudit s2 action)
  end.

Fixpoint sanitizeLoop (now : Z) (s : t) (acc : Loop)
         (sortedDetections : list PIIDetectionResult) : Result Loop * t :=
  match sortedDetections with
  | [] => (Ok acc, s)
  | detection :: rest =>
      match sanitizeStep now s acc detection with
      | (Throw m, s') => (Throw m, s')
      | (Ok acc', s') => sanitizeLoop now s' acc' rest
      end
  end.

(** [sanitizeText(originalText, detections)]; [now] is the clock reading
    stamped on the audit actions. *)
Definition sanitizeText (now : Z) (s : t) (originalText : string)
           (detections : list PIIDetectionResult)
  : Result SanitizationResult * t :=
  match detections with
  | [] =>
      (Ok {| originalText := originalText;
             sanitizedText := originalText;
             sanitizedDetections := [];
             actions := [];
             wasModified := false |}, s)
  | _ =>
      let sortedDetections := JS.sort byStartDescending detections in
      match sanitizeLoop now s (originalText, [], []) sortedDetections with
      | (Throw m, s') => (Throw m, s')
      | (Ok (sanitizedText, actions, sanitizedDetections), s') =>
          (Ok {| originalText := originalText;
                 sanitizedText := sanitizedText;
                 sanitizedDetections := sanitizedDetections;
                 actions := actions;
                 wasModified := true |}, s')
      end
  end.

(** *** Configuration, audit trail, statistics *)

(** A [Partial<SanitizationConfig>]: [None] for a key that is absent. *)
Record ConfigUpdates := {
  newDefaultStrategy : option SanitizationStrategy;
  newTypeStrategies : option (PIIType -> option SanitizationStrategy);
  newMaskCharacter : option string;
  newPartialPreserveLength : option Z;
  newPreserveFormat : option bool;
  newHashSalt : option string
}.

(** [updateConfig(updates)]: [Object.assign] on the configuration. *)
Definition updateConfig (s : t) (updates : ConfigUpdates) : t :=
  {| config :=
       {| defaultStrategy :=
            default (defaultStrategy (config s)) (newDefaultStrategy updates);
          typeStrategies :=
            default (typeStrategies (config s)) (newTypeStrategies updates);
          maskCharacter :=
            default (maskCharacter (config s)) (newMaskCharacter updates);
          partialPreserveLength :=
            default (partialPreserveLength (config s))
                    (newPartialPreserveLength updates);
          preserveFormat :=
            default (preserveFormat (config s)) (newPreserveFormat updates);
          hashSalt := default (hashSalt (config s)) (newHashSalt updates) |};
     auditTrail := auditTrail s;
     hashCache := hashCache s |}.

Definition getAuditTrail (s : t) : list SanitizationAction := auditTrail s.

Definition clearAuditTrail (s : t) : t :=
  {| config := config s; auditTrail := []; hashCache := hashCache s |}.

Definition SanitizationStrategy_eqb (a b : SanitizationStrategy) : bool :=
  match a, b with
  | mask, mask | hash, hash | remove, remove | partial, partial => true
  | _, _ => false
  end.

(** [counts[k] = (counts[k] || 0) + 1]. *)
Definition countUp {K} (eqb : K -> K -> bool) (counts : JS.jsmap K Z) (k : K)
  : JS.jsmap K Z :=
  JS.set eqb k (default 0 (JS.get eqb k counts) + 1) counts.

Record Statistics := {
  totalActions : Z;
  actionsByType : JS.jsmap PIIType Z;
  actionsByStrategy : JS.jsmap SanitizationStrategy Z;
  (** [null] when the trail is empty. *)
  lastActionTime : option Z
}.

Definition getStatistics (s : t) : Statistics :=
  {| totalActions := Z.of_nat (length (auditTrail s));
     actionsByType :=
       fold_left (fun counts action => countUp PIIType_eqb counts (piiType action))
                 (auditTrail s) [];
     actionsByStrategy :=
       fold_left
         (fun counts action =>
            countUp SanitizationStrategy_eqb counts (strategy action))
         (auditTrail s) [];
     lastActionTime :=
       if (0 <? length (auditTrail s))%nat
       then timestamp <$> nth_error (auditTrail s) (length (auditTrail s) - 1)
       else None |}.

(** *** Values under sensitive keys ([sanitizeObject]) *)

(** [/word/i.test(key)]. *)
Definition mentions (key word : string) : bool :=
  JS.includes (JS.toLowerCase key) word.

Definition isSensitiveKey (key : string) : bool :=
  JS.some (mentions key)
    ["password"; "passwd"; "pwd"; "secret"; "token"; "key"; "auth";
     "credential"; "ssn"; "social"; "credit"; "card"; "cvv"; "cvc";
     "pin"]%string.

Record KeyValueResult := {
  keySanitizedValue : string;
  keyWasModified : bool;
  keyActions : list SanitizationAction
}.

(** [sanitizeKeyValue(value, key, path)]; [now] is the clock reading
    stamped on the action.  The value is [inl s] for the string [s]; a
    value that is not a string is [inr] of the outcome of [String(value)],
    which both evaluations of it in the source have: its text, or the
    error it throws (as it does for an object without [toString], such as
    [Object.create(null)]). *)
Definition sanitizeKeyValue (now : Z) (s : t) (value : string + Result string)
           (key : string) : Result KeyValueResult * t :=
  match value with
  | inr (Throw m) => (Throw m, s)
  | inr (Ok text) =>
      let '(valueHash, s1) := hashValue s text in
      (Ok {| keySanitizedValue := "[REDACTED]";
             keyWasModified := true;
             keyActions :=
               [ {| piiType := custom;
                    strategy := remove;
                    originalValueHash := valueHash;
                    sanitizedValue := "[REDACTED]";
                    position := (0, JS.len text);
                    timestamp := now |} ] |},
       s1)
  | inl value =>
      let piiType :=
        if mentions key "password" || mentions key "passwd"
           || mentions key "pwd" then password
        else if mentions key "token" || mentions key "auth" then jwt
        else if mentions key "key" then apiKey
        else if mentions key "ssn" || mentions key "social" then ssn
        else if mentions key "credit" || mentions key "card" then creditCard
        else custom in
      let strategy := getStrategyForPIIType s piiType in
      match applySanitizationStrategy s value piiType strategy with
      | (Throw m, s1) => (Throw m, s1)
      | (Ok sanitizedValue, s1) =>
          let '(valueHash, s2) := hashValue s1 value in
          (Ok {| keySanitizedValue := sanitizedValue;
                 keyWasModified := negb (String.eqb sanitizedValue value);
                 keyActions :=
                   [ {| piiType := piiType;
                        strategy := strategy;
                        originalValueHash := valueHash;
                        sanitizedValue := sanitizedValue;
                        position := (0, JS.len value);
                        timestamp := now |} ] |},
           s2)
      end
  end.

End DataSanitizer.

(** ** ConsentManager ([src/security/ConsentManager.ts]) *)

Inductive ConsentStatus := granted | denied | pending | withdrawn.

Inductive ProcessingPurpose :=
| logging | analytics | debugging | performance_monitoring | error_reporting
| export_functionality.

Definition ConsentStatus_eqb (a b : ConsentStatus) : bool :=
  match a, b with
  | granted, granted | denied, denied | pending, pending
  | withdrawn, withdrawn => true
  | _, _ => false
  end.

Definition ProcessingPurpose_eqb (a b : ProcessingPurpose) : bool :=
  match a, b with
  | logging, logging | analytics, analytics | debugging, debugging
  | performance_monitoring, performance_monitoring
  | error_reporting, error_reporting
  | export_functionality, export_functionality => true
  | _, _ => false
  end.

Module ConsentPreferences.
Record t := {
  id : string;
  userId : string;
  purposes : JS.jsmap ProcessingPurpose ConsentStatus;
  piiProcessing : ConsentStatus;
  dataRetentionHours : Z;
  consentTimestamp : Z;
  lastUpdated : Z;
  ipAddress : string;
  userAgent : string
}.
End ConsentPreferences.

Inductive RequestType :=
| access | rectification | erasure | portability | restriction | objection.

Inductive RequestStatus :=
| request_pending | request_processing | request_completed | request_rejected.

Module DataSubjectRequest.
Record t := {
  id : string;
  userId : string;
  requestType : RequestType;
  status : RequestStatus;
  requestDate : Z;
  description : string
}.
End DataSubjectRequest.

Inductive AuditEventType :=
| pii_detected | data_sanitized | consent_given | consent_withdrawn
| data_exported | data_deleted.

(** The [details] objects the source builds, one shape per call site. *)
Inductive AuditDetails :=
| ConsentDetails (purpose : ProcessingPurpose) (consentStatus oldStatus : ConsentStatus)
                 (ipAddress userAgent consentId : string)
| WithdrawalDetails (purpose : ProcessingPurpose) (oldStatus : option ConsentStatus)
                    (ipAddress userAgent consentId : string)
| RetentionDetails (oldRetentionHours newRetentionHours : Z) (consentId : string)
| RequestDetails (requestType : RequestType) (requestId description : string)
| DeletionDetails (originalUserId : string) (requestCount : Z).

Module AuditLogEntry.
Record t := {
  id : string;
  timestamp : Z;
  eventType : AuditEventType;
  userId : string;
  details : AuditDetails;
  ipAddress : string;
  userAgent : string;
  (** [compliance.gdpr], [compliance.ccpa], [compliance.hipaa]. *)
  compliance : bool * bool * bool
}.
End AuditLogEntry.

Inductive Jurisdiction := GDPR | CCPA | BOTH.

Record ConsentVerificationResult := {
  isValid : bool;
  hasConsent : bool;
  consentStatus : ConsentStatus;
  expiryDate : option Z;
  verifiedLastUpdated : Z;
  requiresRenewal : bool
}.

Module ConsentManager.

(** The manager object, with the time zone of the host it lives on, which
    its [Date] arithmetic consults.  The registered listeners only write
    to the console and their exceptions are caught, so they are left
    out. *)
Record t := {
  timeZone : JS.TimeZone;
  preferences : gmap string ConsentPreferences.t;
  auditLog : list AuditLogEntry.t;
  dataSubjectRequests : JS.jsmap string DataSubjectRequest.t;
  jurisdiction : Jurisdiction;
  consentExpiryDays : Z
}.

(** The clock reading of a call and the identifiers it generates, in the
    order it generates them. *)
Record Env := {
  now : Z;
  freshId : nat -> string
}.

(** [new ConsentManager(privacyNotice, consentExpiryDays = 365)] on a
    host in time zone [zone]. *)
Definition create (zone : JS.TimeZone) (j : Jurisdiction)
           (expiryDays : option Z) : t :=
  {| timeZone := zone;
     preferences := ∅;
     auditLog := [];
     dataSubjectRequests := [];
     jurisdiction := j;
     consentExpiryDays := default 365 expiryDays |}.

Definition maxAuditLog : Z := 10000.

(** [splice(0, n)] on the log. *)
Definition addAuditLogEntry (auditLog : list AuditLogEntry.t)
           (entry : AuditLogEntry.t) : list AuditLogEntry.t :=
  let auditLog := auditLog ++ [entry] in
  let n := Z.of_nat (length auditLog) in
  if n >? maxAuditLog then skipn (Z.to_nat (n - maxAuditLog)) auditLog
  else auditLog.

Definition calculateGlobalPIIConsent
           (purposes : JS.jsmap ProcessingPurpose ConsentStatus)
  : ConsentStatus :=
  let values := JS.values purposes in
  if JS.some (fun status => ConsentStatus_eqb status withdrawn) values
  then withdrawn
  else if JS.some (fun status => ConsentStatus_eqb status denied) values
  then denied
  else if JS.every (fun status => ConsentStatus_eqb status granted) values
  then granted
  else pending.

Definition isGDPR (m : t) : bool :=
  match jurisdiction m with GDPR | BOTH => true | CCPA => false end.
Definition isCCPA (m : t) : bool :=
  match jurisdiction m with CCPA | BOTH => true | GDPR => false end.

Definition getPurpose := JS.get (V := ConsentStatus) ProcessingPurpose_eqb.
Definition setPurpose := JS.set (V := ConsentStatus) ProcessingPurpose_eqb.

Definition withPurposes (p : ConsentPreferences.t)
           (purposes : JS.jsmap ProcessingPurpose ConsentStatus)
  : ConsentPreferences.t :=
  {| ConsentPreferences.id := ConsentPreferences.id p;
     ConsentPreferences.userId := ConsentPreferences.userId p;
     ConsentPreferences.purposes := purposes;
     ConsentPreferences.piiProcessing := ConsentPreferences.piiProcessing p;
     ConsentPreferences.dataRetentionHours :=
       ConsentPreferences.dataRetentionHours p;
     ConsentPreferences.consentTimestamp :=
       ConsentPreferences.consentTimestamp p;
     ConsentPreferences.lastUpdated := ConsentPreferences.lastUpdated p;
     ConsentPreferences.ipAddress := ConsentPreferences.ipAddress p;
     ConsentPreferences.userAgent := ConsentPreferences.userAgent p |}.

(** The audit entry written by one turn of the loop of [recordConsent]. *)
Definition consentEntry (m : t) (env : Env) (i : nat) (user : string)
           (consentId : string) (purpose : ProcessingPurpose)
           (status oldStatus : ConsentStatus) (ip ua : string)
  : AuditLogEntry.t :=
  {| AuditLogEntry.id := freshId env i;
     AuditLogEntry.timestamp := now env;
     AuditLogEntry.eventType := consent_given;
     AuditLogEntry.userId := user;
     AuditLogEntry.details :=
       ConsentDetails purpose status oldStatus ip ua consentId;
     AuditLogEntry.ipAddress := ip;
     AuditLogEntry.userAgent := ua;
     AuditLogEntry.compliance := (isGDPR m, isCCPA m, false) |}.

(** The [for] loop of [recordConsent]; [i] counts the identifiers
    generated so far. *)
Fixpoint recordLoop (m : t) (env : Env) (user : string)
         (status : ConsentStatus) (ip ua : string) (i : nat)
         (p : ConsentPreferences.t) (auditLog : list AuditLogEntry.t)
         (purposes : list ProcessingPurpose)
  : ConsentPreferences.t * list AuditLogEntry.t :=
  match purposes with
  | [] => (p, auditLog)
  | purpose :: rest =>
      let oldStatus :=
        default pending (getPurpose purpose (ConsentPreferences.purposes p)) in
      let p' :=
        withPurposes p (setPurpose purpose status (ConsentPreferences.purposes p)) in
      let entry :=
        consentEntry m env i user (ConsentPreferences.id p) purpose status
                     oldStatus ip ua in
      recordLoop m env user status ip ua (S i) p'
                 (addAuditLogEntry auditLog entry) rest
  end.

Definition withState (m : t) (prefs : gmap string ConsentPreferences.t)
           (auditLog : list AuditLogEntry.t) : t :=
  {| timeZone := timeZone m;
     preferences := prefs;
     auditLog := auditLog;
     dataSubjectRequests := dataSubjectRequests m;
     jurisdiction := jurisdiction m;
     consentExpiryDays := consentExpiryDays m |}.

(** [recordConsent(userId, purposes, consentGiven, ipAddress, userAgent)]:
    identifier 0 is the consent identifier, identifiers 1, 2, ... those of
    the audit entries. *)
Definition recordConsent (m : t) (env : Env) (user : string)
           (purposes : list ProcessingPurpose) (consentGiven : bool)
           (ip ua : string) : ConsentPreferences.t * t :=
  let timestamp := now env in
  let status := if consentGiven then granted else denied in
  let p :=
    match preferences m !! user with
    | Some p => p
    | None =>
        {| ConsentPreferences.id := freshId env 0;
           ConsentPreferences.userId := user;
           ConsentPreferences.purposes := [];
           ConsentPreferences.piiProcessing := pending;
           ConsentPreferences.dataRetentionHours := 24 * consentExpiryDays m;
           ConsentPreferences.consentTimestamp := timestamp;
           ConsentPreferences.lastUpdated := timestamp;
           ConsentPreferences.ipAddress := ip;
           ConsentPreferences.userAgent := ua |}
    end in
  let '(p, auditLog) :=
    recordLoop m env user status ip ua 1 p (auditLog m) purposes in
  let p :=
    {| ConsentPreferences.id := ConsentPreferences.id p;
       ConsentPreferences.userId := ConsentPreferences.userId p;
       ConsentPreferences.purposes := ConsentPreferences.purposes p;
       ConsentPreferences.piiProcessing :=
         calculateGlobalPIIConsent (ConsentPreferences.purposes p);
       ConsentPreferences.dataRetentionHours :=
         ConsentPreferences.dataRetentionHours p;
       ConsentPreferences.consentTimestamp :=
         ConsentPreferences.consentTimestamp p;
       ConsentPreferences.lastUpdated := timestamp;
       ConsentPreferences.ipAddress := ip;
       ConsentPreferences.userAgent := ua |} in
  (p, withState m (<[user := p]> (preferences m)) auditLog).

Definition withdrawalEntry (m : t) (env : Env) (i : nat) (user : string)
           (consentId : string) (purpose : ProcessingPurpose)
           (oldStatus : option ConsentStatus) (ip ua : string)
  : AuditLogEntry.t :=
  {| AuditLogEntry.id := freshId env i;
     AuditLogEntry.timestamp := now env;
     AuditLogEntry.eventType := consent_withdrawn;
     AuditLogEntry.userId := user;
     AuditLogEntry.details :=
       WithdrawalDetails purpose oldStatus ip ua consentId;
     AuditLogEntry.ipAddress := ip;
     AuditLogEntry.userAgent := ua;
     AuditLogEntry.compliance := (isGDPR m, isCCPA m, false) |}.

Fixpoint withdrawLoop (m : t) (env : Env) (user : string) (ip ua : string)
         (i : nat) (p : ConsentPreferences.t)
         (auditLog : list AuditLogEntry.t)
         (purposes : list ProcessingPurpose)
  : ConsentPreferences.t * list AuditLogEntry.t :=
  match purposes with
  | [] => (p, auditLog)
  | purpose :: rest =>
      let oldStatus := getPurpose purpose (ConsentPreferences.purposes p) in
      let p' :=
        withPurposes p
          (setPurpose purpose withdrawn (ConsentPreferences.purposes p)) in
      let entry :=
        withdrawalEntry m env i user (ConsentPreferences.id p) purpose
                        oldStatus ip ua in
      withdrawLoop m env user ip ua (S i) p'
                   (addAuditLogEntry auditLog entry) rest
  end.

(** [withdrawConsent(userId, purposes, ipAddress, userAgent)]; the stored
    [ipAddress] and [userAgent] are not touched. *)
Definition withdrawConsent (m : t) (env : Env) (user : string)
           (purposes : list ProcessingPurpose) (ip ua : string)
  : option ConsentPreferences.t * t :=
  match preferences m !! user with
  | None => (None, m)
  | Some p =>
      let timestamp := now env in
      let '(p, auditLog) :=
        withdrawLoop m env user ip ua 0 p (auditLog m) purposes in
      let p :=
        {| ConsentPreferences.id := ConsentPreferences.id p;
           ConsentPreferences.userId := ConsentPreferences.userId p;
           ConsentPreferences.purposes := ConsentPreferences.purposes p;
           ConsentPreferences.piiProcessing :=
             calculateGlobalPIIConsent (ConsentPreferences.purposes p);
           ConsentPreferences.dataRetentionHours :=
             ConsentPreferences.dataRetentionHours p;
           ConsentPreferences.consentTimestamp :=
             ConsentPreferences.consentTimestamp p;
           ConsentPreferences.lastUpdated := timestamp;
           ConsentPreferences.ipAddress := ConsentPreferences.ipAddress p;
           ConsentPreferences.userAgent := ConsentPreferences.userAgent p |} in
      (Some p, withState m (<[user := p]> (preferences m)) auditLog)
  end.

(** [verifyConsent(userId, purpose)] read at clock [now]. *)
Definition verifyConsent (m : t) (now : Z) (user : string)
           (purpose : ProcessingPurpose) : ConsentVerificationResult :=
  match preferences m !! user with
  | None =>
      {| isValid := false;
         hasConsent := false;
         consentStatus := pending;
         expiryDate := None;
         verifiedLastUpdated := 0;
         requiresRenewal := true |}
  | Some p =>
      let status :=
        default pending (getPurpose purpose (ConsentPreferences.purposes p)) in
      let hasConsent := ConsentStatus_eqb status granted in
      let expiry :=
        JS.addDays (timeZone m) (ConsentPreferences.consentTimestamp p)
                   (consentExpiryDays m) in
      let isExpired := now >? expiry in
      let requiresRenewal := isExpired && hasConsent in
      {| isValid := hasConsent && negb isExpired;
         hasConsent := hasConsent;
         consentStatus := if requiresRenewal then pending else status;
         expiryDate := Some expiry;
         verifiedLastUpdated := ConsentPreferences.lastUpdated p;
         requiresRenewal := requiresRenewal |}
  end.

(** [updateDataRetention(userId, retentionHours)]. *)
Definition updateDataRetention (m : t) (env : Env) (user : string)
           (retentionHours : Z) : option ConsentPreferences.t * t :=
  match preferences m !! user with
  | None => (None, m)
  | Some p =>
      let oldRetention := ConsentPreferences.dataRetentionHours p in
      let p :=
        {| ConsentPreferences.id := ConsentPreferences.id p;
           ConsentPreferences.userId := ConsentPreferences.userId p;
           ConsentPreferences.purposes := ConsentPreferences.purposes p;
           ConsentPreferences.piiProcessing :=
             ConsentPreferences.piiProcessing p;
           ConsentPreferences.dataRetentionHours :=
             Z.min retentionHours (24 * consentExpiryDays m);
           ConsentPreferences.consentTimestamp :=
             ConsentPreferences.consentTimestamp p;
           ConsentPreferences.lastUpdated := now env;
           ConsentPreferences.ipAddress := ConsentPreferences.ipAddress p;
           ConsentPreferences.userAgent := ConsentPreferences.userAgent p |} in
      let entry :=
        {| AuditLogEntry.id := freshId env 0;
           AuditLogEntry.timestamp := now env;
           AuditLogEntry.eventType := consent_given;
           AuditLogEntry.userId := user;
           AuditLogEntry.details :=
             RetentionDetails oldRetention
                              (ConsentPreferences.dataRetentionHours p)
                              (ConsentPreferences.id p);
           AuditLogEntry.ipAddress := ConsentPreferences.ipAddress p;
           AuditLogEntry.userAgent := ConsentPreferences.userAgent p;
           AuditLogEntry.compliance := (isGDPR m, isCCPA m, false) |} in
      (Some p,
       withState m (<[user := p]> (preferences m))
                 (addAuditLogEntry (auditLog m) entry))
  end.

(** [x || 'unknown'] on a possibly missing string. *)
Definition orUnknown (o : option string) : string :=
  match o with
  | Some s => if String.eqb s "" then "unknown" else s
  | None => "unknown"
  end.

(** [submitDataSubjectRequest(userId, requestType, description)]:
    identifier 0 is the request's, identifier 1 the audit entry's. *)
Definition submitDataSubjectRequest (m : t) (env : Env) (user : string)
           (requestType : RequestType) (description : string)
  : DataSubjectRequest.t * t :=
  let request :=
    {| DataSubjectRequest.id := freshId env 0;
       DataSubjectRequest.userId := user;
       DataSubjectRequest.requestType := requestType;
       DataSubjectRequest.status := request_pending;
       DataSubjectRequest.requestDate := now env;
       DataSubjectRequest.description := description |} in
  let entry :=
    {| AuditLogEntry.id := freshId env 1;
       AuditLogEntry.timestamp := now env;
       AuditLogEntry.eventType := data_exported;
       AuditLogEntry.userId := user;
       AuditLogEntry.details :=
         RequestDetails requestType (DataSubjectRequest.id request) description;
       AuditLogEntry.ipAddress :=
         orUnknown (ConsentPreferences.ipAddress <$> preferences m !! user);
       AuditLogEntry.userAgent :=
         orUnknown (ConsentPreferences.userAgent <$> preferences m !! user);
       AuditLogEntry.compliance := (true, true, false) |} in
  (request,
   {| timeZone := timeZone m;
      preferences := preferences m;
      auditLog := addAuditLogEntry (auditLog m) entry;
      dataSubjectRequests :=
        JS.set String.eqb (DataSubjectRequest.id request) request
               (dataSubjectRequests m);
      jurisdiction := jurisdiction m;
      consentExpiryDays := consentExpiryDays m |}).

Definition byRequestDateDescending (a b : DataSubjectRequest.t) : comparison :=
  DataSubjectRequest.requestDate b ?= DataSubjectRequest.requestDate a.

Definition getDataSubjectRequests (m : t) (user : string)
  : list DataSubjectRequest.t :=
  JS.sort byRequestDateDescending
    (List.filter (fun request => String.eqb (DataSubjectRequest.userId request) user)
            (JS.values (dataSubjectRequests m))).

(** [hashUserId]. *)
Definition hashUserId (user : string) : string :=
  "user_" +:+ Hash32.toHex (Z.abs (Hash32.hashOf user)).

Definition anonymize (user : string) (kv : string * DataSubjectRequest.t)
  : string * DataSubjectRequest.t :=
  let request := snd kv in
  if String.eqb (DataSubjectRequest.userId request) user then
    (fst kv,
     {| DataSubjectRequest.id := DataSubjectRequest.id request;
        DataSubjectRequest.userId := "[DELETED]";
        DataSubjectRequest.requestType :=
          DataSubjectRequest.requestType request;
        DataSubjectRequest.status := DataSubjectRequest.status request;
        DataSubjectRequest.requestDate :=
          DataSubjectRequest.requestDate request;
        DataSubjectRequest.description :=
          DataSubjectRequest.description request |})
  else kv.

(** [processDataDeletion(userId)].  The requests returned by
    [getDataSubjectRequests] are the objects held in the map, so renaming
    their user renames it in the map. *)
Definition processDataDeletion (m : t) (env : Env) (user : string)
  : bool * t :=
  let userRequests := getDataSubjectRequests m user in
  let entry :=
    {| AuditLogEntry.id := freshId env 0;
       AuditLogEntry.timestamp := now env;
       AuditLogEntry.eventType := data_deleted;
       AuditLogEntry.userId := "[DELETED]";
       AuditLogEntry.details :=
         DeletionDetails (hashUserId user) (Z.of_nat (length userRequests));
       AuditLogEntry.ipAddress := "unknown";
       AuditLogEntry.userAgent := "system";
       AuditLogEntry.compliance := (true, true, false) |} in
  (true,
   {| timeZone := timeZone m;
      preferences := delete user (preferences m);
      auditLog := addAuditLogEntry (auditLog m) entry;
      dataSubjectRequests := map (anonymize user) (dataSubjectRequests m);
      jurisdiction := jurisdiction m;
      consentExpiryDays := consentExpiryDays m |}).

(** *** Sequences of operations *)

Inductive Op :=
| RecordConsent (user : string) (purposes : list ProcessingPurpose)
                (consentGiven : bool) (ip ua : string)
| WithdrawConsent (user : string) (purposes : list ProcessingPurpose)
                  (ip ua : string)
| UpdateDataRetention (user : string) (retentionHours : Z)
| SubmitDataSubjectRequest (user : string) (requestType : RequestType)
                           (description : string)
| ProcessDataDeletion (user : string).

Definition step (m : t) (call : Env * Op) : t :=
  let '(env, op) := call in
  match op with
  | RecordConsent user purposes given ip ua =>
      snd (recordConsent m env user purposes given ip ua)
  | WithdrawConsent user purposes ip ua =>
      snd (withdrawConsent m env user purposes ip ua)
  | UpdateDataRetention user hours =>
      snd (updateDataRetention m env user hours)
  | SubmitDataSubjectRequest user ty description =>
      snd (submitDataSubjectRequest m env user ty description)
  | ProcessDataDeletion user =>
      snd (processDataDeletion m env user)
  end.

Definition run (m : t) (calls : list (Env * Op)) : t :=
  fold_left step calls m.

(** *** Reading the manager *)

(** [getConsentPreferences(userId)]: [None] is [null]. *)
Definition getConsentPreferences (m : t) (user : string)
  : option ConsentPreferences.t :=
  preferences m !! user.

Definition AuditEventType_eqb (a b : AuditEventType) : bool :=
  match a, b with
  | pii_detected, pii_detected | data_sanitized, data_sanitized
  | consent_given, consent_given | consent_withdrawn, consent_withdrawn
  | data_exported, data_exported | data_deleted, data_deleted => true
  | _, _ => false
  end.

(** [getAuditLog(userId, eventType, fromDate, toDate)]; a filter that is
    missing, and a [userId] that is the empty string, excludes nothing. *)
Definition getAuditLog (m : t) (userId : option string)
           (eventType : option AuditEventType) (fromDate toDate : option Z)
  : list AuditLogEntry.t :=
  List.filter
    (fun entry =>
       if match userId with
          | Some u => negb (String.eqb u "")
                      && negb (String.eqb (AuditLogEntry.userId entry) u)
          | None => false
          end then false
       else if match eventType with
               | Some ty =>
                   negb (AuditEventType_eqb (AuditLogEntry.eventType entry) ty)
               | None => false
               end then false
       else if match fromDate with
               | Some d => AuditLogEntry.timestamp entry <? d
               | None => false
               end then false
       else if match toDate with
               | Some d => AuditLogEntry.timestamp entry >? d
               | None => false
               end then false
       else true)
    (auditLog m).

(** [exportUserConsentData(userId)], without the privacy notice, which
    the call copies from the constructor's argument. *)
Record UserConsentData := {
  exportedPreferences : option ConsentPreferences.t;
  exportedAuditTrail : list AuditLogEntry.t;
  exportedRequests : list DataSubjectRequest.t
}.

Definition exportUserConsentData (m : t) (user : string) : UserConsentData :=
  {| exportedPreferences := getConsentPreferences m user;
     exportedAuditTrail := getAuditLog m (Some user) None None None;
     exportedRequests := getDataSubjectRequests m user |}.

Record StatusCounts := {
  grantedCount : Z;
  deniedCount : Z;
  withdrawnCount : Z;
  pendingCount : Z
}.

Definition noCounts : StatusCounts :=
  {| grantedCount := 0; deniedCount := 0; withdrawnCount := 0;
     pendingCount := 0 |}.

(** [counts[status]++]. *)
Definition countStatus (c : StatusCounts) (status : ConsentStatus)
  : StatusCounts :=
  match status with
  | granted =>
      {| grantedCount := grantedCount c + 1; deniedCount := deniedCount c;
         withdrawnCount := withdrawnCount c; pendingCount := pendingCount c |}
  | denied =>
      {| grantedCount := grantedCount c; deniedCount := deniedCount c + 1;
         withdrawnCount := withdrawnCount c; pendingCount := pendingCount c |}
  | withdrawn =>
      {| grantedCount := grantedCount c; deniedCount := deniedCount c;
         withdrawnCount := withdrawnCount c + 1; pendingCount := pendingCount c |}
  | pending =>
      {| grantedCount := grantedCount c; deniedCount := deniedCount c;
         withdrawnCount := withdrawnCount c; pendingCount := pendingCount c + 1 |}
  end.

(** [consentsByPurpose] has an entry for each of the six purposes from
    the start, so it is a function of the purpose. *)
Record ConsentStatistics := {
  totalUsers : Z;
  consentsByPurpose : ProcessingPurpose -> StatusCounts;
  consentsByStatus : StatusCounts;
  averageRetentionHours : Q;
  expiringSoon : Z
}.

(** The loop variables of [getConsentStatistics]. *)
Record Tally := {
  byPurpose : ProcessingPurpose -> StatusCounts;
  byStatus : StatusCounts;
  totalRetentionHours : Z;
  expiring : Z
}.

Definition tallyPurpose (byPurpose : ProcessingPurpose -> StatusCounts)
           (entry : ProcessingPurpose * ConsentStatus)
  : ProcessingPurpose -> StatusCounts :=
  fun purpose =>
    if ProcessingPurpose_eqb purpose (fst entry)
    then countStatus (byPurpose purpose) (snd entry)
    else byPurpose purpose.

(** One turn of the loop over [this.preferences.values()]. *)
Definition tallyUser (m : t) (now : Z) (acc : Tally) (p : ConsentPreferences.t)
  : Tally :=
  let thirtyDaysFromNow := JS.addDays (timeZone m) now 30 in
  let expiryDate :=
    JS.addDays (timeZone m) (ConsentPreferences.consentTimestamp p)
               (consentExpiryDays m) in
  {| totalRetentionHours :=
       totalRetentionHours acc + ConsentPreferences.dataRetentionHours p;
     expiring :=
       if expiryDate <=? thirtyDaysFromNow then expiring acc + 1
       else expiring acc;
     byPurpose :=
       fold_left tallyPurpose (ConsentPreferences.purposes p) (byPurpose acc);
     byStatus := countStatus (byStatus acc) (ConsentPreferences.piiProcessing p) |}.

(** [getConsentStatistics()] read at clock [now]. *)
Definition getConsentStatistics (m : t) (now : Z) : ConsentStatistics :=
  let users := (map_to_list (preferences m)).*2 in
  let tally :=
    fold_left (tallyUser m now) users
      {| byPurpose := fun _ => noCounts; byStatus := noCounts;
         totalRetentionHours := 0; expiring := 0 |} in
  let totalUsers := Z.of_nat (size (preferences m)) in
  {| totalUsers := totalUsers;
     consentsByPurpose := byPurpose tally;
     consentsByStatus := byStatus tally;
     averageRetentionHours :=
       (inject_Z (totalRetentionHours tally) / inject_Z (Z.max 1 totalUsers))%Q;
     expiringSoon := expiring tally |}.

End ConsentManager.

(** ** SecurityEngine ([src/security/SecurityEngine.ts]) *)

Record DataClassification := {
  sensitivityLevel : SensitivityLevel;
  detectedTypes : list PIIType;
  classConfidence : Q;
  classScanTimestamp : Z;
  sanitized : bool
}.

Module LogEntry.
Record t := {
  id : string;
  timestamp : Z;
  level : LogLevel;
  message : string;
  sanitizedMessage : option string;
  stackTrace : option string;
  classification : option DataClassification
}.
End LogEntry.

Record SecurityScanResult := {
  scanId : string;
  scanTimestamp : Z;
  scannedText : string;
  detections : list PIIDetectionResult;
  riskScore : Q;
  classification : DataClassification;
  scanTimeMs : Q;
  scanSuccessful : bool;
  scanErrors : list string
}.

(** The fields of the policy that the engine reads. *)
Record SecurityPolicy := {
  minConfidenceThreshold : Q;
  requireExplicitConsent : bool;
  autoSanitizationEnabled : bool;
  (** [autoSanitization.thresholds], [None] where a type has no entry. *)
  thresholds : PIIType -> option Q
}.

Record SecurityScanOptions := {
  userId : option string;
  minConfidence : option Q;
  autoSanitize : option bool;
  purpose : option ProcessingPurpose;
  skipConsentCheck : option bool
}.

Inductive Severity := low | medium | high | critical.

Record SecurityAlert := {
  alertId : string;
  severity : Severity;
  alertMessage : string;
  alertScanId : string;
  alertDetectedTypes : list PIIType;
  (** [details.sensitivityLevel] or [details.detectionCount]. *)
  alertSubject : SensitivityLevel + Z;
  alertUserId : string;
  alertTimestamp : Z;
  resolved : bool
}.

Module SecurityEngine.

Record ScanPerformance := {
  averageTimeMs : Q;
  (** [None] is the initial [Infinity]. *)
  minTimeMs : option Q;
  maxTimeMs : Q
}.

Record RiskLevelDistribution := {
  publicCount : Z;
  internalCount : Z;
  confidentialCount : Z;
  restrictedCount : Z
}.

Record ConsentCompliance := {
  totalUsers : Z;
  compliantScans : Z;
  nonCompliantScans : Z
}.

Record SecurityEngineStatistics := {
  totalScans : Z;
  totalPIIDetected : Z;
  totalSanitizations : Z;
  scanPerformance : ScanPerformance;
  detectionStats : JS.jsmap PIIType Z;
  riskLevelDistribution : RiskLevelDistribution;
  consentCompliance : ConsentCompliance
}.

Record t := {
  piiDetector : PIIDetector.t;
  dataSanitizer : DataSanitizer.t;
  consentManager : ConsentManager.t;
  securityPolicy : SecurityPolicy;
  statistics : SecurityEngineStatistics;
  alerts : JS.jsmap string SecurityAlert;
  scanHistory : JS.jsmap string (list SecurityScanResult)
}.

(** What one call of [scanLogEntry] reads from the clock and the random
    generator. *)
Record Env := {
  newScanId : string;
  now : Z;
  (** Identifiers of the "high" and of the "medium" alert. *)
  highAlertId : string;
  mediumAlertId : string;
  (** Duration measured inside [PIIDetector.scanText]. *)
  detectorTimeMs : Q;
  (** [performance.now() - startTime] on the normal path and in the
      [catch] block. *)
  elapsedMs : Q;
  elapsedAtCatchMs : Q
}.

(** *** Construction *)

Fixpoint addType (seen : list PIIType) (ty : PIIType) : list PIIType :=
  match seen with
  | [] => [ty]
  | x :: seen' => if PIIType_eqb x ty then seen else x :: addType seen' ty
  end.

(** [PIIDetector.getSupportedPIITypes]. *)
Definition getSupportedPIITypes (d : PIIDetector.t) : list PIIType :=
  fold_left addType
    (JS.keys (PIIDetector.patterns d) ++ map ptype (PIIDetector.customPatterns d))
    [].

Definition create (policy : SecurityPolicy) (cm : ConsentManager.t)
           (detector : PIIDetector.t) (sanitizer : DataSanitizer.t) : t :=
  {| piiDetector := detector;
     dataSanitizer := sanitizer;
     consentManager := cm;
     securityPolicy := policy;
     statistics :=
       {| totalScans := 0;
          totalPIIDetected := 0;
          totalSanitizations := 0;
          scanPerformance :=
            {| averageTimeMs := 0; minTimeMs := None; maxTimeMs := 0 |};
          detectionStats :=
            map (fun ty => (ty, 0)) (getSupportedPIITypes detector);
          riskLevelDistribution :=
            {| publicCount := 0; internalCount := 0; confidentialCount := 0;
               restrictedCount := 0 |};
          consentCompliance :=
            {| totalUsers := 0; compliantScans := 0; nonCompliantScans := 0 |}
       |};
     alerts := [];
     scanHistory := [] |}.

(** *** Policy filter, risk score, classification *)

Definition applySecurityPolicyFiltering (policy : SecurityPolicy)
           (detections : list PIIDetectionResult) : list PIIDetectionResult :=
  List.filter
    (fun detection =>
       if JS.less (confidence detection) (minConfidenceThreshold policy)
       then false
       else
         match thresholds policy (type detection) with
         | Some threshold =>
             if JS.less (confidence detection) threshold then false
             else true
         | None => true
         end)
    detections.

Definition typeRisk (ty : PIIType) : Q :=
  match ty with
  | creditCard | ssn => 0.9
  | password | apiKey | jwt => 0.8
  | email | phone => 0.6
  | ipAddress => 0.4
  | _ => 0.5
  end%Q.

Definition logLevelMultiplier (logLevel : LogLevel) : Q :=
  match logLevel with
  | error => 1.2
  | warn => 1.1
  | _ => 1.0
  end%Q.

Definition calculateRiskScore (detections : list PIIDetectionResult)
           (logLevel : LogLevel) : Q :=
  match detections with
  | [] => 0
  | _ =>
      let riskScore :=
        fold_left
          (fun riskScore detection =>
             Qmax riskScore (typeRisk (type detection) * confidence detection))
          detections 0 in
      let riskScore := riskScore * logLevelMultiplier logLevel in
      let riskScore :=
        if (1 <? length detections)%nat
        then Qmin 1.0 (riskScore
                       * (1 + (inject_Z (Z.of_nat (length detections)) - 1) * 0.1))
        else riskScore in
      Qmin 1.0 riskScore
  end%Q.

Definition isOneOf (l : list PIIType) (ty : PIIType) : bool :=
  existsb (PIIType_eqb ty) l.

(** [Math.max(...xs)] on a non-empty array. *)
Definition maxOf (xs : list Q) : Q :=
  match xs with
  | [] => 0
  | x :: xs' => fold_left Qmax xs' x
  end.

Definition classifyData (now : Z) (detections : list PIIDetectionResult)
           (riskScore : Q) : DataClassification :=
  let sensitivityLevel :=
    if Qle_bool 0.8 riskScore
       || JS.some (fun d => isOneOf [creditCard; ssn; password] (type d))
                  detections
    then restricted
    else if Qle_bool 0.6 riskScore
            || JS.some (fun d => isOneOf [apiKey; jwt] (type d)) detections
    then confidential
    else if Qle_bool 0.3 riskScore || (0 <? length detections)%nat
    then internal
    else public in
  {| sensitivityLevel := sensitivityLevel;
     detectedTypes := map type detections;
     classConfidence := maxOf (map confidence detections);
     classScanTimestamp := now;
     sanitized := false |}.

Definition shouldAutoSanitize (policy : SecurityPolicy)
           (detections : list PIIDetectionResult) : bool :=
  if negb (autoSanitizationEnabled policy) then false
  else
    JS.some
      (fun detection =>
         match thresholds policy (type detection) with
         | Some threshold => JS.geq (confidence detection) threshold
         | None => false
         end)
      detections.

(** *** Alerts, statistics, history *)

Definition setAlert := JS.set (V := SecurityAlert) String.eqb.

Definition generateSecurityAlerts (env : Env)
           (alerts : JS.jsmap string SecurityAlert)
           (detections : list PIIDetectionResult)
           (classification : DataClassification) (user : option string)
  : JS.jsmap string SecurityAlert :=
  let userId := ConsentManager.orUnknown user in
  let alerts :=
    match sensitivityLevel classification with
    | restricted =>
        setAlert (highAlertId env)
          {| alertId := highAlertId env;
             severity := high;
             alertMessage :=
               "High-risk PII detected in scan " +:+ newScanId env;
             alertScanId := newScanId env;
             alertDetectedTypes := detectedTypes classification;
             alertSubject := inl (sensitivityLevel classification);
             alertUserId := userId;
             alertTimestamp := now env;
             resolved := false |}
          alerts
    | _ => alerts
    end in
  if (3 <=? length detections)%nat then
    setAlert (mediumAlertId env)
      {| alertId := mediumAlertId env;
         severity := medium;
         alertMessage :=
           "Multiple PII types detected in single scan: "
             +:+ pretty (Z.of_nat (length detections)) +:+ " types found";
         alertScanId := newScanId env;
         alertDetectedTypes := detectedTypes classification;
         alertSubject := inr (Z.of_nat (length detections));
         alertUserId := userId;
         alertTimestamp := now env;
         resolved := false |}
      alerts
  else alerts.

Definition bump (d : RiskLevelDistribution) (l : SensitivityLevel)
  : RiskLevelDistribution :=
  match l with
  | public =>
      {| publicCount := publicCount d + 1; internalCount := internalCount d;
         confidentialCount := confidentialCount d;
         restrictedCount := restrictedCount d |}
  | internal =>
      {| publicCount := publicCount d; internalCount := internalCount d + 1;
         confidentialCount := confidentialCount d;
         restrictedCount := restrictedCount d |}
  | confidential =>
      {| publicCount := publicCount d; internalCount := internalCount d;
         confidentialCount := confidentialCount d + 1;
         restrictedCount := restrictedCount d |}
  | restricted =>
      {| publicCount := publicCount d; internalCount := internalCount d;
         confidentialCount := confidentialCount d;
         restrictedCount := restrictedCount d + 1 |}
  end.

Definition countDetection (stats : JS.jsmap PIIType Z)
           (detection : PIIDetectionResult) : JS.jsmap PIIType Z :=
  JS.set PIIType_eqb (type detection)
         (default 0 (JS.get PIIType_eqb (type detection) stats) + 1) stats.

Definition updateStatistics (s : SecurityEngineStatistics)
           (scanResult : SecurityScanResult)
           (detections : list PIIDetectionResult) : SecurityEngineStatistics :=
  let totalScans := totalScans s + 1 in
  let currentAvg := averageTimeMs (scanPerformance s) in
  {| totalScans := totalScans;
     totalPIIDetected := totalPIIDetected s + Z.of_nat (length detections);
     totalSanitizations := totalSanitizations s;
     scanPerformance :=
       {| averageTimeMs :=
            ((currentAvg * (inject_Z totalScans - 1) + scanTimeMs scanResult)
             / inject_Z totalScans)%Q;
          minTimeMs :=
            Some (match minTimeMs (scanPerformance s) with
                  | Some m => Qmin m (scanTimeMs scanResult)
                  | None => scanTimeMs scanResult
                  end);
          maxTimeMs := Qmax (maxTimeMs (scanPerformance s))
                            (scanTimeMs scanResult) |};
     detectionStats := fold_left countDetection detections (detectionStats s);
     riskLevelDistribution :=
       bump (riskLevelDistribution s)
            (sensitivityLevel (classification scanResult));
     consentCompliance := consentCompliance s |}.

Definition updateConsentComplianceStats (s : SecurityEngineStatistics)
           (compliant : bool) : SecurityEngineStatistics :=
  let c := consentCompliance s in
  {| totalScans := totalScans s;
     totalPIIDetected := totalPIIDetected s;
     totalSanitizations := totalSanitizations s;
     scanPerformance := scanPerformance s;
     detectionStats := detectionStats s;
     riskLevelDistribution := riskLevelDistribution s;
     consentCompliance :=
       if compliant
       then {| totalUsers := totalUsers c;
               compliantScans := compliantScans c + 1;
               nonCompliantScans := nonCompliantScans c |}
       else {| totalUsers := totalUsers c;
               compliantScans := compliantScans c;
               nonCompliantScans := nonCompliantScans c + 1 |} |}.

Definition maxHistorySize : Z := 1000.

Definition storeScanResult
           (history : JS.jsmap string (list SecurityScanResult))
           (scanId : string) (scanResult : SecurityScanResult)
  : JS.jsmap string (list SecurityScanResult) :=
  let history :=
    if negb (JS.has String.eqb scanId history)
    then JS.set String.eqb scanId [] history
    else history in
  let history :=
    JS.set String.eqb scanId
           (default [] (JS.get String.eqb scanId history) ++ [scanResult])
           history in
  if Z.of_nat (length history) >? maxHistorySize then
    match JS.keys history with
    | oldestScanId :: _ => JS.delete String.eqb oldestScanId history
    | [] => history
    end
  else history.

Definition createFailedScanResult (now : Z) (scanId scannedText : string)
           (errors : list string) (scanTimeMs : option Q) : SecurityScanResult :=
  {| scanId := scanId;
     scanTimestamp := now;
     scannedText := scannedText;
     detections := [];
     riskScore := 0;
     classification :=
       {| sensitivityLevel := public;
          detectedTypes := [];
          classConfidence := 0;
          classScanTimestamp := now;
          sanitized := false |};
     scanTimeMs := default 0%Q scanTimeMs;
     scanSuccessful := false;
     scanErrors := errors |}.

(** A string in a condition: missing and empty are both falsy. *)
Definition truthy (o : option string) : option string :=
  match o with
  | Some s => if String.eqb s "" then None else Some s
  | None => None
  end.

(** The array [allScans] that [getScanHistory] collects from the map. *)
Definition allScans (e : t) : list SecurityScanResult :=
  concat (JS.values (scanHistory e)).

Definition byTimestampDescending (a b : SecurityScanResult) : comparison :=
  scanTimestamp b ?= scanTimestamp a.

(** [getScanHistory(scanId, limit = 100)]. *)
Definition getScanHistory (e : t) (scanId : option string) (limit : option Z)
  : list SecurityScanResult :=
  match truthy scanId with
  | Some scanId => default [] (JS.get String.eqb scanId (scanHistory e))
  | None =>
      JS.sliceTo (default 100 limit)
                 (JS.sort byTimestampDescending (allScans e))
  end.

(** The recent error rate computed by [healthCheck]. *)
Definition recentErrorRate (e : t) : Q :=
  let recentScans := getScanHistory e None (Some 100) in
  let failedScans :=
    length (List.filter (fun scan => negb (scanSuccessful scan)) recentScans) in
  if (0 <? length recentScans)%nat
  then (inject_Z (Z.of_nat failedScans)
        / inject_Z (Z.of_nat (length recentScans)))%Q
  else 0.

(** *** scanLogEntry *)

Definition withStatistics (e : t) (s : SecurityEngineStatistics) : t :=
  {| piiDetector := piiDetector e;
     dataSanitizer := dataSanitizer e;
     consentManager := consentManager e;
     securityPolicy := securityPolicy e;
     statistics := s;
     alerts := alerts e;
     scanHistory := scanHistory e |}.

(** What the consent block at the head of the [try] leaves behind: an
    early return, or the flag [consentValid]. *)
Inductive Gate :=
| Blocked (e : t)
| Passed (consentValid : bool) (e : t).

Definition consentGate (env : Env) (e : t) (options : SecurityScanOptions)
  : Gate :=
  match truthy (userId options), default false (skipConsentCheck options) with
  | Some user, false =>
      let purpose := default logging (purpose options) in
      let consentVerification :=
        ConsentManager.verifyConsent (consentManager e) (now env) user purpose in
      if negb (isValid consentVerification) then
        let e := withStatistics e (updateConsentComplianceStats (statistics e) false) in
        if requireExplicitConsent (securityPolicy e) then Blocked e
        else Passed false e
      else
        Passed true
               (withStatistics e (updateConsentComplianceStats (statistics e) true))
  | _, _ => Passed true e
  end.

(** [options.minConfidence || this.securityPolicy.minConfidenceThreshold]. *)
Definition effectiveMinConfidence (policy : SecurityPolicy)
           (options : SecurityScanOptions) : Q :=
  match minConfidence options with
  | Some q => if Qeq_bool q 0 then minConfidenceThreshold policy else q
  | None => minConfidenceThreshold policy
  end.

(** The condition guarding the call of [sanitizeText]. *)
Definition sanitizationDue (policy : SecurityPolicy)
           (options : SecurityScanOptions) (consentValid : bool)
           (filteredDetections : list PIIDetectionResult) : bool :=
  negb (match autoSanitize options with Some false => true | _ => false end)
  && autoSanitizationEnabled policy
  && consentValid
  && shouldAutoSanitize policy filteredDetections.

(** [scanLogEntry(logEntry, options)]: the scan result, the caller's log
    entry after the call, and the engine after the call. *)
Definition scanLogEntry (env : Env) (e : t) (logEntry : LogEntry.t)
           (options : SecurityScanOptions)
  : SecurityScanResult * LogEntry.t * t :=
  let scanId := newScanId env in
  match consentGate env e options with
  | Blocked e =>
      (createFailedScanResult (now env) scanId (LogEntry.message logEntry)
                              ["Consent not provided or invalid"%string] None,
       logEntry, e)
  | Passed consentValid e =>
      let policy := securityPolicy e in
      let minConfidence := effectiveMinConfidence policy options in
      let '(detections, detector) :=
        PIIDetector.scanText (piiDetector e) (LogEntry.message logEntry)
                             (Some minConfidence) (detectorTimeMs env) in
      let filteredDetections := applySecurityPolicyFiltering policy detections in
      let riskScore := calculateRiskScore filteredDetections (LogEntry.level logEntry) in
      let classification := classifyData (now env) filteredDetections riskScore in
      let alerts :=
        generateSecurityAlerts env (alerts e) filteredDetections classification
                               (userId options) in
      let '(sanitizationResult, sanitizer) :=
        if sanitizationDue policy options consentValid filteredDetections then
          match DataSanitizer.sanitizeText (now env) (dataSanitizer e)
                  (LogEntry.message logEntry) filteredDetections with
          | (Ok r, sanitizer) => (Ok (Some r), sanitizer)
          | (Throw m, sanitizer) => (Throw m, sanitizer)
          end
        else (Ok None, dataSanitizer e) in
      match sanitizationResult with
      | Throw errorMessage =>
          (createFailedScanResult (now env) scanId (LogEntry.message logEntry)
                                  [errorMessage] (Some (elapsedAtCatchMs env)),
           logEntry,
           {| piiDetector := detector;
              dataSanitizer := sanitizer;
              consentManager := consentManager e;
              securityPolicy := policy;
              statistics := statistics e;
              alerts := alerts;
              scanHistory := scanHistory e |})
      | Ok sanitizationResult =>
          let scanResult :=
            {| scanId := scanId;
               scanTimestamp := now env;
               scannedText := LogEntry.message logEntry;
               detections := filteredDetections;
               riskScore := riskScore;
               classification := classification;
               scanTimeMs := elapsedMs env;
               scanSuccessful := true;
               scanErrors := [] |} in
          let logEntry :=
            {| LogEntry.id := LogEntry.id logEntry;
               LogEntry.timestamp := LogEntry.timestamp logEntry;
               LogEntry.level := LogEntry.level logEntry;
               LogEntry.message := LogEntry.message logEntry;
               LogEntry.sanitizedMessage :=
                 match sanitizationResult with
                 | Some r =>
                     if wasModified r then Some (sanitizedText r)
                     else LogEntry.sanitizedMessage logEntry
                 | None => LogEntry.sanitizedMessage logEntry
                 end;
               LogEntry.stackTrace := LogEntry.stackTrace logEntry;
               LogEntry.classification := Some classification |} in
          (scanResult, logEntry,
           {| piiDetector := detector;
              dataSanitizer := sanitizer;
              consentManager := consentManager e;
              securityPolicy := policy;
              statistics := updateStatistics (statistics e) scanResult filteredDetections;
              alerts := alerts;
              scanHistory := storeScanResult (scanHistory e) scanId scanResult |})
      end
  end.

(** *** Policy updates *)

(** A [Partial<SecurityPolicy>], for the fields the engine reads;
    [autoSanitization] is replaced as a whole. *)
Record PolicyUpdates := {
  newMinConfidenceThreshold : option Q;
  newRequireExplicitConsent : option bool;
  newAutoSanitization : option (bool * (PIIType -> option Q))
}.

(** The body of the loop of [convertPolicyToSanitizerStrategies]. *)
Definition strategyForThreshold (threshold : Q) : SanitizationStrategy :=
  if Qle_bool 0.8 threshold then remove
  else if Qle_bool 0.6 threshold then hash
  else if Qle_bool 0.4 threshold then mask
  else partial.

Definition convertPolicyToSanitizerStrategies (thresholds : PIIType -> option Q)
  : PIIType -> option SanitizationStrategy :=
  fun piiType => strategyForThreshold <$> thresholds piiType.

Definition updateSecurityPolicy (e : t) (policyUpdates : PolicyUpdates) : t :=
  let old := securityPolicy e in
  {| piiDetector := piiDetector e;
     dataSanitizer :=
       match newAutoSanitization policyUpdates with
       | Some (_, newThresholds) =>
           DataSanitizer.updateConfig (dataSanitizer e)
             {| DataSanitizer.newDefaultStrategy := None;
                DataSanitizer.newTypeStrategies :=
                  Some (convertPolicyToSanitizerStrategies newThresholds);
                DataSanitizer.newMaskCharacter := None;
                DataSanitizer.newPartialPreserveLength := None;
                DataSanitizer.newPreserveFormat := None;
                DataSanitizer.newHashSalt := None |}
       | None => dataSanitizer e
       end;
     consentManager := consentManager e;
     securityPolicy :=
       {| minConfidenceThreshold :=
            default (minConfidenceThreshold old)
                    (newMinConfidenceThreshold policyUpdates);
          requireExplicitConsent :=
            default (requireExplicitConsent old)
                    (newRequireExplicitConsent policyUpdates);
          autoSanitizationEnabled :=
            match newAutoSanitization policyUpdates with
            | Some (enabled, _) => enabled
            | None => autoSanitizationEnabled old
            end;
          thresholds :=
            match newAutoSanitization policyUpdates with
            | Some (_, newThresholds) => newThresholds
            | None => thresholds old
            end |};
     statistics := statistics e;
     alerts := alerts e;
     scanHistory := scanHistory e |}.

Definition getStatistics (e : t) : SecurityEngineStatistics := statistics e.

(** *** Alerts *)

Definition Severity_eqb (a b : Severity) : bool :=
  match a, b with
  | low, low | medium, medium | high, high | critical, critical => true
  | _, _ => false
  end.

Definition byAlertTimestampDescending (a b : SecurityAlert) : comparison :=
  alertTimestamp b ?= alertTimestamp a.

(** [getSecurityAlerts(severity, resolved, limit = 50)]. *)
Definition getSecurityAlerts (e : t) (severityFilter : option Severity)
           (resolvedFilter : option bool) (limit : option Z)
  : list SecurityAlert :=
  JS.sliceTo (default 50 limit)
    (JS.sort byAlertTimestampDescending
       (List.filter
          (fun alert =>
             if match severityFilter with
                | Some wanted => negb (Severity_eqb (severity alert) wanted)
                | None => false
                end then false
             else if match resolvedFilter with
                     | Some wanted => negb (Bool.eqb (resolved alert) wanted)
                     | None => false
                     end then false
             else true)
          (JS.values (alerts e)))).

(** [resolveSecurityAlert(alertId)]: the alert is changed where it sits
    in the map. *)
Definition resolveSecurityAlert (e : t) (id : string) : bool * t :=
  match JS.get String.eqb id (alerts e) with
  | Some alert =>
      (true,
       {| piiDetector := piiDetector e;
          dataSanitizer := dataSanitizer e;
          consentManager := consentManager e;
          securityPolicy := securityPolicy e;
          statistics := statistics e;
          alerts :=
            setAlert id
              {| alertId := alertId alert;
                 severity := severity alert;
                 alertMessage := alertMessage alert;
                 alertScanId := alertScanId alert;
                 alertDetectedTypes := alertDetectedTypes alert;
                 alertSubject := alertSubject alert;
                 alertUserId := alertUserId alert;
                 alertTimestamp := alertTimestamp alert;
                 resolved := true |}
              (alerts e);
          scanHistory := scanHistory e |})
  | None => (false, e)
  end.

(** *** Health check and audit report *)

Inductive Health := healthy | degraded | unhealthy.

Record HealthReport := {
  overall : Health;
  piiDetectorHealth : Health;
  dataSanitizerHealth : Health;
  consentManagerHealth : Health;
  reportedAverageScanTimeMs : Q;
  reportedRecentErrorRate : Q;
  criticalAlerts : Z;
  highAlerts : Z;
  unresolvedAlerts : Z
}.

Definition isUnhealthy (h : Health) : bool :=
  match h with unhealthy => true | _ => false end.

(** [healthCheck()]; [now] is the clock reading of
    [getConsentStatistics]. *)
Definition healthCheck (e : t) (now : Z) : HealthReport :=
  let piiMetrics := PIIDetector.getPerformanceMetrics (piiDetector e) in
  let sanitizerStats := DataSanitizer.getStatistics (dataSanitizer e) in
  let consentStats :=
    ConsentManager.getConsentStatistics (consentManager e) now in
  let piiDetectorHealth :=
    if JS.Qltb (PIIDetector.averageScanTimeMs piiMetrics) 10
    then healthy else unhealthy in
  let dataSanitizerHealth :=
    if DataSanitizer.totalActions sanitizerStats >=? 0
    then healthy else unhealthy in
  let consentManagerHealth :=
    if ConsentManager.totalUsers consentStats >=? 0
    then healthy else unhealthy in
  let recentErrorRate := recentErrorRate e in
  let alerts := JS.values (alerts e) in
  let count (f : SecurityAlert -> bool) :=
    Z.of_nat (length (List.filter f alerts)) in
  let criticalAlerts :=
    count (fun a => Severity_eqb (severity a) critical && negb (resolved a)) in
  let highAlerts :=
    count (fun a => Severity_eqb (severity a) high && negb (resolved a)) in
  let unresolvedAlerts := count (fun a => negb (resolved a)) in
  let overall :=
    if (criticalAlerts >? 0) || JS.Qltb 0.1 recentErrorRate
       || JS.some isUnhealthy
            [piiDetectorHealth; dataSanitizerHealth; consentManagerHealth]
    then unhealthy
    else if (highAlerts >? 0) || JS.Qltb 0.05 recentErrorRate
            || JS.Qltb 5 (averageTimeMs (scanPerformance (statistics e)))
    then degraded
    else healthy in
  {| overall := overall;
     piiDetectorHealth := piiDetectorHealth;
     dataSanitizerHealth := dataSanitizerHealth;
     consentManagerHealth := consentManagerHealth;
     reportedAverageScanTimeMs :=
       averageTimeMs (scanPerformance (statistics e));
     reportedRecentErrorRate := recentErrorRate;
     criticalAlerts := criticalAlerts;
     highAlerts := highAlerts;
     unresolvedAlerts := unresolvedAlerts |}.

Record PolicyCompliance := {
  reportTotalScans : Z;
  reportCompliantScans : Z;
  complianceRate : Q
}.

Record AuditReport := {
  reportStatistics : SecurityEngineStatistics;
  reportAlerts : list SecurityAlert;
  reportScanHistory : list SecurityScanResult;
  consentAudit : list AuditLogEntry.t;
  policyCompliance : PolicyCompliance
}.

(** [exportSecurityAuditReport(userId, fromDate, toDate)], without the
    report's metadata. *)
Definition exportSecurityAuditReport (e : t) (user : option string)
           (fromDate toDate : option Z) : AuditReport :=
  let scanHistory := getScanHistory e None (Some 10000) in
  let scanHistory :=
    match fromDate, toDate with
    | None, None => scanHistory
    | _, _ =>
        List.filter
          (fun scan =>
             if match fromDate with
                | Some d => scanTimestamp scan <? d
                | None => false
                end then false
             else if match toDate with
                     | Some d => scanTimestamp scan >? d
                     | None => false
                     end then false
             else true)
          scanHistory
    end in
  let totalScans := Z.of_nat (length scanHistory) in
  let compliantScans :=
    Z.of_nat (length (List.filter (fun scan => scanSuccessful scan) scanHistory)) in
  {| reportStatistics := getStatistics e;
     reportAlerts := getSecurityAlerts e None None None;
     reportScanHistory := scanHistory;
     consentAudit :=
       ConsentManager.getAuditLog (consentManager e) user None fromDate toDate;
     policyCompliance :=
       {| reportTotalScans := totalScans;
          reportCompliantScans := compliantScans;
          complianceRate :=
            if totalScans >? 0
            then (inject_Z compliantScans / inject_Z totalScans)%Q
            else 1 |} |}.

(** *** Batch scanning

    [scanLogEntries] starts the scans of a batch of ten entries with
    [batch.map(entry => this.scanLogEntry(entry, options))] and awaits
    them together.  Each call of the [async] function [scanLogEntry]
    runs up to its only [await], the one on [generateSecurityAlerts], or
    to the [return] of the consent block, before the next call starts;
    the calls are then resumed in the order in which they were
    suspended, each running to its end.  No other caller is taken to
    use the engine meanwhile, and the entries are distinct objects. *)

(** Where a call of [scanLogEntry] stands when control leaves it for the
    first time: it has returned, or it awaits with these local
    variables. *)
Inductive Started :=
| Returned (result : SecurityScanResult)
| Awaiting (consentValid : bool) (filteredDetections : list PIIDetectionResult)
           (riskScore : Q) (classification : DataClassification).

(** [scanLogEntry] up to its [await]. *)
Definition startScan (env : Env) (e : t) (logEntry : LogEntry.t)
           (options : SecurityScanOptions) : Started * t :=
  let scanId := newScanId env in
  match consentGate env e options with
  | Blocked e =>
      (Returned
         (createFailedScanResult (now env) scanId (LogEntry.message logEntry)
                                 ["Consent not provided or invalid"%string] None),
       e)
  | Passed consentValid e =>
      let policy := securityPolicy e in
      let minConfidence := effectiveMinConfidence policy options in
      let '(detections, detector) :=
        PIIDetector.scanText (piiDetector e) (LogEntry.message logEntry)
                             (Some minConfidence) (detectorTimeMs env) in
      let filteredDetections := applySecurityPolicyFiltering policy detections in
      let riskScore := calculateRiskScore filteredDetections (LogEntry.level logEntry) in
      let classification := classifyData (now env) filteredDetections riskScore in
      let alerts :=
        generateSecurityAlerts env (alerts e) filteredDetections classification
                               (userId options) in
      (Awaiting consentValid filteredDetections riskScore classification,
       {| piiDetector := detector;
          dataSanitizer := dataSanitizer e;
          consentManager := consentManager e;
          securityPolicy := policy;
          statistics := statistics e;
          alerts := alerts;
          scanHistory := scanHistory e |})
  end.

(** [scanLogEntry] from its [await] to its end. *)
Definition finishScan (env : Env) (e : t) (logEntry : LogEntry.t)
           (options : SecurityScanOptions) (started : Started)
  : SecurityScanResult * LogEntry.t * t :=
  let scanId := newScanId env in
  match started with
  | Returned result => (result, logEntry, e)
  | Awaiting consentValid filteredDetections riskScore classification =>
      let policy := securityPolicy e in
      let '(sanitizationResult, sanitizer) :=
        if sanitizationDue policy options consentValid filteredDetections then
          match DataSanitizer.sanitizeText (now env) (dataSanitizer e)
                  (LogEntry.message logEntry) filteredDetections with
          | (Ok r, sanitizer) => (Ok (Some r), sanitizer)
          | (Throw m, sanitizer) => (Throw m, sanitizer)
          end
        else (Ok None, dataSanitizer e) in
      match sanitizationResult with
      | Throw errorMessage =>
          (createFailedScanResult (now env) scanId (LogEntry.message logEntry)
                                  [errorMessage] (Some (elapsedAtCatchMs env)),
           logEntry,
           {| piiDetector := piiDetector e;
              dataSanitizer := sanitizer;
              consentManager := consentManager e;
              securityPolicy := policy;
              statistics := statistics e;
              alerts := alerts e;
              scanHistory := scanHistory e |})
      | Ok sanitizationResult =>
          let scanResult :=
            {| scanId := scanId;
               scanTimestamp := now env;
               scannedText := LogEntry.message logEntry;
               detections := filteredDetections;
               riskScore := riskScore;
               classification := classification;
               scanTimeMs := elapsedMs env;
               scanSuccessful := true;
               scanErrors := [] |} in
          let logEntry :=
            {| LogEntry.id := LogEntry.id logEntry;
               LogEntry.timestamp := LogEntry.timestamp logEntry;
               LogEntry.level := LogEntry.level logEntry;
               LogEntry.message := LogEntry.message logEntry;
               LogEntry.sanitizedMessage :=
                 match sanitizationResult with
                 | Some r =>
                     if wasModified r then Some (sanitizedText r)
                     else LogEntry.sanitizedMessage logEntry
                 | None => LogEntry.sanitizedMessage logEntry
                 end;
               LogEntry.stackTrace := LogEntry.stackTrace logEntry;
               LogEntry.classification := Some classification |} in
          (scanResult, logEntry,
           {| piiDetector := piiDetector e;
              dataSanitizer := sanitizer;
              consentManager := consentManager e;
              securityPolicy := policy;
              statistics := updateStatistics (statistics e) scanResult filteredDetections;
              alerts := alerts e;
              scanHistory := storeScanResult (scanHistory e) scanId scanResult |})
      end
  end.

(** [batch.map(entry => this.scanLogEntry(entry, options))]: each entry
    comes with the clock readings and identifiers of its scan. *)
Fixpoint startBatch (e : t) (batch : list (Env * LogEntry.t))
         (options : SecurityScanOptions)
  : list (Env * LogEntry.t * Started) * t :=
  match batch with
  | [] => ([], e)
  | (env, logEntry) :: rest =>
      let '(started, e) := startScan env e logEntry options in
      let '(others, e) := startBatch e rest options in
      ((env, logEntry, started) :: others, e)
  end.

(** [await Promise.all(batchPromises)]: the scan results with the
    entries as the scans leave them. *)
Fixpoint finishBatch (e : t) (batch : list (Env * LogEntry.t * Started))
         (options : SecurityScanOptions)
  : list (SecurityScanResult * LogEntry.t) * t :=
  match batch with
  | [] => ([], e)
  | (env, logEntry, started) :: rest =>
      let '(result, logEntry, e) :=
        finishScan env e logEntry options started in
      let '(others, e) := finishBatch e rest options in
      ((result, logEntry) :: others, e)
  end.

Definition batchSize : nat := 10.

(** The [for] loop of [scanLogEntries]; [turns] bounds its turns, of
    which there are no more than entries. *)
Fixpoint scanBatches (turns : nat) (e : t) (logEntries : list (Env * LogEntry.t))
         (options : SecurityScanOptions)
  : list (SecurityScanResult * LogEntry.t) * t :=
  match turns, logEntries with
  | O, _ | _, [] => ([], e)
  | S turns, _ =>
      let batch := firstn batchSize logEntries in
      let '(started, e) := startBatch e batch options in
      let '(batchResults, e) := finishBatch e started options in
      let '(others, e) :=
        scanBatches turns e (skipn batchSize logEntries) options in
      (batchResults ++ others, e)
  end.

(** [scanLogEntries(logEntries, options)]. *)
Definition scanLogEntries (e : t) (logEntries : list (Env * LogEntry.t))
           (options : SecurityScanOptions)
  : list (SecurityScanResult * LogEntry.t) * t :=
  scanBatches (length logEntries) e logEntries options.

End SecurityEngine.

(** * Specification-side notions *)

(** The spans [startIndex, endIndex) of two detections overlap; spans that
    only touch do not. *)
Definition spansOverlap (a b : PIIDetectionResult) : Prop :=
  startIndex a < endIndex b /\ startIndex b < endIndex a.

(** [a] comes no later than [b] in the order of overlap resolution:
    higher confidence first, then lower start index. *)
Definition precedes (a b : PIIDetectionResult) : Prop :=
  (confidence b < confidence a)%Q
  \/ ((confidence a == confidence b)%Q /\ startIndex a <= startIndex b).

Definition startsBefore (a b : PIIDetectionResult) : Prop :=
  startIndex a <= startIndex b.

Definition disjointSpans (a b : PIIDetectionResult) : Prop :=
  ~ spansOverlap a b.

(** Under comparator [cmp], [a] need not come after [b]. *)
Definition notAfter {A} (cmp : A -> A -> comparison) (a b : A) : Prop :=
  cmp a b <> Gt.

(** *** Risk score and classification, as the specification words them *)

Definition clamp01 (q : Q) : Q := Qmax 0 (Qmin 1 q).











(** The body of the loop of [calculateRiskScore]. *)
Definition riskFold (r : Q) (d : PIIDetectionResult) : Q :=
  Qmax r (SecurityEngine.typeRisk (type d) * confidence d).

(** *** Confidence of a match, as the specification words it *)

(** The verdict of the pattern's validator on a match; a pattern without
    validator rejects nothing. *)
Definition validatorAccepts (p : PIIPattern) (matched : string) : bool :=
  match validator p with
  | Some v => v matched
  | None => true
  end.

(** The window of 20 characters on either side of the match, in lower
    case. *)
Definition spec_window (text : string) (index : Z) (matched : string) : string :=
  JS.toLowerCase (JS.substring text (index - 20) (index + JS.len matched + 20)).

Definition anyCue (cues : list string) (window : string) : bool :=
  existsb (JS.includes window) cues.

(** Factor [a] with a strong cue, [b] with a weak one, [c] with none. *)
Definition tier (window : string) (strong weak : list string) (a b c : Q) : Q :=
  if anyCue strong window then a
  else if anyCue weak window then b
  else c.

Definition spec_contextFactor (ty : PIIType) (window : string) : Q :=
  match ty with
  | ssn =>
      tier window ["ssn"; "social"; "security"] ["tax"; "id"; "number"]
           1.0 0.8 0.6
  | creditCard =>
      tier window ["card"; "payment"; "visa"; "mastercard"; "amex"]
           ["number"; "cc"; "credit"] 1.0 0.9 0.7
  | email =>
      tier window ["email"; "mail"; "@"] ["user"; "login"; "account"]
           1.0 0.9 0.8
  | phone =>
      tier window ["phone"; "tel"; "call"; "mobile"; "contact"] [] 1.0 0.8 0.8
  | apiKey | jwt =>
      tier window ["key"; "token"; "auth"; "api"; "bearer"] [] 1.0 0.8 0.8
  | ipAddress | password | custom => 0.8
  end%Q%string.

(** Luhn: from the right, every second digit is doubled, and 9 is taken
    off a double above 9. *)
Definition luhnDouble (d : Z) : Z := if 2 * d >? 9 then 2 * d - 9 else 2 * d.

Fixpoint luhnChecksum (doubled : bool) (digitsFromRight : list Z) : Z :=
  match digitsFromRight with
  | [] => 0
  | d :: rest =>
      (if doubled then luhnDouble d else d) + luhnChecksum (negb doubled) rest
  end.

Definition digitValues (s : string) : list Z :=
  map PIIDetector.digitValue (list_ascii_of_string (JS.digitsOf s)).

(** A card number passes Luhn validation: 13 to 19 digits whose checksum
    is a multiple of 10. *)
Definition spec_luhnValid (matched : string) : bool :=
  let n := Z.of_nat (length (digitValues matched)) in
  (13 <=? n) && (n <=? 19)
  && (luhnChecksum false (rev (digitValues matched)) mod 10 =? 0).

(** A structurally valid SSN: nine digits, area not 000, 666, 900 or 999,
    group not 00, serial not 0000. *)
Definition spec_ssnValid (matched : string) : bool :=
  let digits := JS.digitsOf matched in
  (JS.len digits =? 9)
  && negb (existsb (String.eqb (JS.substring digits 0 3))
                   ["000"; "666"; "900"; "999"]%string)
  && negb (String.eqb (JS.substring digits 3 5) "00")
  && negb (String.eqb (JS.substring digits 5 9) "0000").

(** A plausible phone number: 10 to 15 digits. *)
Definition spec_phonePlausible (matched : string) : bool :=
  let n := JS.len (JS.digitsOf matched) in (10 <=? n) && (n <=? 15).

(** The multiplier for a match that fails the semantic check of its
    type; none for a match that passes, or for a type without check. *)
Definition spec_semanticPenalty (ty : PIIType) (matched : string) : option Q :=
  match ty with
  | creditCard => if spec_luhnValid matched then None else Some 0.5
  | email => if PIIDetector.validateEmail matched then None else Some 0.3
  | ssn => if spec_ssnValid matched then None else Some 0.2
  | phone => if spec_phonePlausible matched then None else Some 0.6
  | _ => None
  end%Q.

(** The confidence of a match that the validator has not rejected.  Sums
    and products are those of JavaScript numbers. *)
Definition spec_confidence (text : string) (p : PIIPattern) (index : Z)
           (matched : string) : Q :=
  let base := JS.double (baseConfidence p) in
  let boosted :=
    match validator p with
    | Some _ => JS.min 1.0 (JS.add base 0.1)
    | None => base
    end%Q in
  let inContext :=
    if requiresContext p
    then JS.mul boosted
                (spec_contextFactor (ptype p) (spec_window text index matched))
    else boosted in
  match spec_semanticPenalty (ptype p) matched with
  | Some penalty => JS.mul inContext penalty
  | None => inContext
  end.

(** *** Consent, as the specification words it *)

(** The last [n] elements of a list: the oldest are dropped first. *)
Definition keepLast {A} (n : Z) (l : list A) : list A :=
  skipn (length l - Z.to_nat n) l.

(** The derived global status for the per-purpose statuses [values]. *)
Definition spec_globalStatus (values : list ConsentStatus) (s : ConsentStatus)
  : Prop :=
  match s with
  | withdrawn => In withdrawn values
  | denied => ~ In withdrawn values /\ In denied values
  | granted =>
      ~ In withdrawn values /\ ~ In denied values
      /\ Forall (fun v => v = granted) values
  | pending =>
      ~ In withdrawn values /\ ~ In denied values
      /\ ~ Forall (fun v => v = granted) values
  end.

Definition listed (q : ProcessingPurpose) (purposes : list ProcessingPurpose)
  : bool :=
  existsb (ProcessingPurpose_eqb q) purposes.

(** The audit entries of one [recordConsent]: one per listed purpose, in
    order, each with the status the purpose had just before ([old], which
    an earlier occurrence of the same purpose in the list has already
    changed); [i] numbers the identifiers generated. *)
Fixpoint spec_recordEntries (m : ConsentManager.t) (env : ConsentManager.Env)
         (user consentId : string) (status : ConsentStatus) (ip ua : string)
         (i : nat) (old : ProcessingPurpose -> ConsentStatus)
         (purposes : list ProcessingPurpose) : list AuditLogEntry.t :=
  match purposes with
  | [] => []
  | q :: rest =>
      {| AuditLogEntry.id := ConsentManager.freshId env i;
         AuditLogEntry.timestamp := ConsentManager.now env;
         AuditLogEntry.eventType := consent_given;
         AuditLogEntry.userId := user;
         AuditLogEntry.details :=
           ConsentDetails q status (old q) ip ua consentId;
         AuditLogEntry.ipAddress := ip;
         AuditLogEntry.userAgent := ua;
         AuditLogEntry.compliance :=
           (match ConsentManager.jurisdiction m with
            | GDPR | BOTH => true
            | CCPA => false
            end,
            match ConsentManager.jurisdiction m with
            | CCPA | BOTH => true
            | GDPR => false
            end,
            false) |}
      :: spec_recordEntries m env user consentId status ip ua (S i)
           (fun q' => if ProcessingPurpose_eqb q' q then status else old q') rest
  end.

Definition statusIn (purposes : JS.jsmap ProcessingPurpose ConsentStatus)
           (q : ProcessingPurpose) : ConsentStatus :=
  default pending (ConsentManager.getPurpose q purposes).

(** The preferences [recordConsent] starts from: the stored ones, or the
    fresh record of a user without any. *)
Definition startingPreferences (m : ConsentManager.t)
           (env : ConsentManager.Env) (user ip ua : string)
  : ConsentPreferences.t :=
  match ConsentManager.preferences m !! user with
  | Some p => p
  | None =>
      {| ConsentPreferences.id := ConsentManager.freshId env 0;
         ConsentPreferences.userId := user;
         ConsentPreferences.purposes := [];
         ConsentPreferences.piiProcessing := pending;
         ConsentPreferences.dataRetentionHours :=
           24 * ConsentManager.consentExpiryDays m;
         ConsentPreferences.consentTimestamp := ConsentManager.now env;
         ConsentPreferences.lastUpdated := ConsentManager.now env;
         ConsentPreferences.ipAddress := ip;
         ConsentPreferences.userAgent := ua |}
  end.

Definition allPurposes : list ProcessingPurpose :=
  [logging; analytics; debugging; performance_monitoring; error_reporting;
   export_functionality].

(** The purposes whose status differs between two records. *)
Definition changedPurposes
           (before after : JS.jsmap ProcessingPurpose ConsentStatus)
  : list ProcessingPurpose :=
  List.filter
    (fun q => negb (ConsentStatus_eqb (statusIn after q) (statusIn before q)))
    allPurposes.

(** One audit entry per purpose changed: [recordConsent] lengthens the
    audit log by the number of purposes whose status it has changed. *)
Definition spec_entryPerPurposeChanged (m : ConsentManager.t)
           (env : ConsentManager.Env) (user : string)
           (purposes : list ProcessingPurpose) (consentGiven : bool)
           (ip ua : string) : Prop :=
  let r := ConsentManager.recordConsent m env user purposes consentGiven ip ua in
  length (ConsentManager.auditLog (snd r))
  = (length (ConsentManager.auditLog m)
     + length (changedPurposes
                 (ConsentPreferences.purposes
                    (startingPreferences m env user ip ua))
                 (ConsentPreferences.purposes (fst r))))%nat.

(** *** Sanitization, as the specification words it *)

(** Every cached hash is the one the current salt gives. *)
Definition coherent (s : DataSanitizer.t) : Prop :=
  forall k v,
    DataSanitizer.hashCache s !! k = Some v ->
    v = DataSanitizer.hashString (DataSanitizer.hashSalt (DataSanitizer.config s)) k.

(** The value the strategy of a detection's type produces for it. *)
Definition spec_replacement (s : DataSanitizer.t) (d : PIIDetectionResult)
  : Result string :=
  match DataSanitizer.getStrategyForPIIType s (type d) with
  | mask => DataSanitizer.maskValue s (value d) (type d)
  | hash =>
      Ok (DataSanitizer.hashString
            (DataSanitizer.hashSalt (DataSanitizer.config s)) (value d))
  | remove => Ok "[REDACTED]"%string
  | partial => DataSanitizer.partialMaskValue s (value d) (type d)
  end.

Definition replacementText (s : DataSanitizer.t) (d : PIIDetectionResult)
  : string :=
  match spec_replacement s d with
  | Ok r => r
  | Throw _ => ""
  end.

(** The text from [pos] to [stop] with the spans of the detections [asc],
    given left to right, replaced; everything between and around the spans
    is the original text. *)
Fixpoint weave (repl : PIIDetectionResult -> string) (text : string) (pos : Z)
         (asc : list PIIDetectionResult) (stop : Z) : string :=
  match asc with
  | [] => JS.substring text pos stop
  | d :: rest =>
      JS.substring text pos (startIndex d) +:+ repl d
        +:+ weave repl text (endIndex d) rest stop
  end.

Definition validSpan (text : string) (d : PIIDetectionResult) : Prop :=
  0 <= startIndex d < endIndex d /\ endIndex d <= JS.len text.

(** A list in processing order (right to left): each span ends at or
    before [bound], and the next ones end at or before its start. *)
Fixpoint chain (bound : Z) (l : list PIIDetectionResult) : Prop :=
  match l with
  | [] => True
  | d :: rest =>
      0 <= startIndex d < endIndex d /\ endIndex d <= bound
      /\ chain (startIndex d) rest
  end.

(** *** The engine, as the specification words it *)





(** The statistics with the consent-compliance tally blanked out. *)
Definition withoutTally (s : SecurityEngine.SecurityEngineStatistics)
  : SecurityEngine.SecurityEngineStatistics :=
  {| SecurityEngine.totalScans := SecurityEngine.totalScans s;
     SecurityEngine.totalPIIDetected := SecurityEngine.totalPIIDetected s;
     SecurityEngine.totalSanitizations := SecurityEngine.totalSanitizations s;
     SecurityEngine.scanPerformance := SecurityEngine.scanPerformance s;
     SecurityEngine.detectionStats := SecurityEngine.detectionStats s;
     SecurityEngine.riskLevelDistribution := SecurityEngine.riskLevelDistribution s;
     SecurityEngine.consentCompliance :=
       {| SecurityEngine.totalUsers := 0; SecurityEngine.compliantScans := 0;
          SecurityEngine.nonCompliantScans := 0 |} |}.

(** What the engine itself owns and exposes through its getters:
    statistics, alerts and scan history. *)
Definition sameButTally (e e' : SecurityEngine.t) : Prop :=
  withoutTally (SecurityEngine.statistics e')
  = withoutTally (SecurityEngine.statistics e)
  /\ SecurityEngine.alerts e' = SecurityEngine.alerts e
  /\ SecurityEngine.scanHistory e' = SecurityEngine.scanHistory e.

(** Failure atomicity as claimed: a failed scan leaves the engine's state,
    the tally apart, and the caller's log entry as they were. *)
Definition spec_failureAtomic (env : SecurityEngine.Env) (e : SecurityEngine.t)
           (entry : LogEntry.t) (o : SecurityScanOptions) : Prop :=
  let r := SecurityEngine.scanLogEntry env e entry o in
  scanSuccessful (fst (fst r)) = false ->
  snd (fst r) = entry /\ sameButTally e (snd r).

(** *** Concrete scenarios *)

Module Scenario.

(** What the built-in expressions match on the two messages used below;
    on these messages no other built-in expression matches. *)
Definition regex (name text : string) : list (Z * string) :=
  if String.eqb name "email_standard"
     && String.eqb text "Contact: john@example.com"
  then [(9, "john@example.com"%string)]
  else if String.eqb name "password_in_url"
          && String.eqb text "password=hunter2 @x.io"
  then [(0, "password=hunter2"%string)]
  else [].

(** A custom pattern of type email for handles such as ["@x.io"]. *)
Definition handle : PIIPattern :=
  {| name := "handle";
     ptype := email;
     pattern := fun text =>
       if String.eqb text "password=hunter2 @x.io"
       then [(17, "@x.io"%string)] else [];
     validator := None;
     baseConfidence := 0.95;
     requiresContext := false |}.

Definition detector : PIIDetector.t := PIIDetector.create regex.

Definition detectorWithHandle : PIIDetector.t :=
  match PIIDetector.addCustomPattern detector handle with
  | Ok d => d
  | Throw _ => detector
  end.

Definition policy (explicitConsent : bool) : SecurityPolicy :=
  {| minConfidenceThreshold := 0.2;
     requireExplicitConsent := explicitConsent;
     autoSanitizationEnabled := true;
     thresholds := fun _ => Some 0.2%Q |}.

Definition engine (explicitConsent : bool) (d : PIIDetector.t)
  : SecurityEngine.t :=
  SecurityEngine.create (policy explicitConsent)
                        (ConsentManager.create JS.utc GDPR None) d
                        (DataSanitizer.create "salt").

Definition env : SecurityEngine.Env :=
  {| SecurityEngine.newScanId := "scan_1";
     SecurityEngine.now := 1700000000000;
     SecurityEngine.highAlertId := "alert_1";
     SecurityEngine.mediumAlertId := "alert_2";
     SecurityEngine.detectorTimeMs := 0.5;
     SecurityEngine.elapsedMs := 1;
     SecurityEngine.elapsedAtCatchMs := 1 |}.

Definition entry (message : string) : LogEntry.t :=
  {| LogEntry.id := "log_1";
     LogEntry.timestamp := 1700000000000;
     LogEntry.level := info;
     LogEntry.message := message;
     LogEntry.sanitizedMessage := None;
     LogEntry.stackTrace := None;
     LogEntry.classification := None |}.

Definition options (user : option string) : SecurityScanOptions :=
  {| userId := user;
     minConfidence := None;
     autoSanitize := None;
     purpose := None;
     skipConsentCheck := None |}.

(** The detection a caller may hand to [sanitizeText] for the message
    ["Data: @example.com"]. *)
Definition domainOnly : PIIDetectionResult :=
  {| type := email;
     value := "@example.com";
     startIndex := 6;
     endIndex := 18;
     confidence := 0.8;
     patternName := "custom_domain";
     highConfidence := true |}.

End Scenario.

(** *** Sequences of calls *)

(** The detector after scanning the texts of [scans] one after another;
    each scan comes with its confidence threshold and the duration the
    detector measured. *)
Definition scanTexts (d : PIIDetector.t) (scans : list (string * option Q * Q))
  : PIIDetector.t :=
  fold_left
    (fun d scan =>
       snd (PIIDetector.scanText d (fst (fst scan)) (snd (fst scan)) (snd scan)))
    scans d.

Definition Qsum (l : list Q) : Q := fold_right Qplus 0%Q l.

(** *** Masking, as a reader expects it *)

(** Every digit becomes [m]; every other character stays where it is. *)
Definition spec_maskDigits (m : ascii) (value : string) : string :=
  string_of_list_ascii
    (map (fun c => if JS.isDigit c then m else c) (list_ascii_of_string value)).

(** Of the [n] digits of a value, the first [keep] and the last [keep]
    stay and the others become [m]; characters that are not digits stay.
    [k] counts the digits already passed. *)
Fixpoint showEnds (keep n : Z) (m : ascii) (k : Z) (chars : list ascii)
  : list ascii :=
  match chars with
  | [] => []
  | c :: rest =>
      if JS.isDigit c
      then (if (k <? keep) || (n - keep <=? k) then c else m)
             :: showEnds keep n m (k + 1) rest
      else c :: showEnds keep n m k rest
  end.

Definition spec_showEnds (keep : Z) (m : ascii) (value : string) : string :=
  string_of_list_ascii
    (showEnds keep (JS.len (JS.digitsOf value)) m 0 (list_ascii_of_string value)).

(** *** Counters *)

(** The sum of the counters of a table. *)
Definition sumValues {K} (counts : JS.jsmap K Z) : Z :=
  fold_right Z.add 0 (JS.values counts).

(** How many elements of [l] satisfy [f]. *)
Definition countIf {A} (f : A -> bool) (l : list A) : Z :=
  Z.of_nat (length (List.filter f l)).

(** *** The sanitizer's state *)

(** From [s] to [s'] the cache has only grown and the configuration is
    the same. *)
Definition cacheGrows (s s' : DataSanitizer.t) : Prop :=
  DataSanitizer.config s' = DataSanitizer.config s
  /\ forall k c, DataSanitizer.hashCache s !! k = Some c ->
                 DataSanitizer.hashCache s' !! k = Some c.

Definition span (d : PIIDetectionResult) : Z * Z := (startIndex d, endIndex d).

(** By how much the replacements of [detections] lengthen a text: for
    each, the length of the replacement less the length of the span. *)
Definition growth (repl : PIIDetectionResult -> string)
           (detections : list PIIDetectionResult) : Z :=
  fold_right
    (fun d total => JS.len (repl d) - (endIndex d - startIndex d) + total)
    0 detections.

(** *** Consent records that hang together *)

(** The stored record of [user]: it names the user, its retention period
    does not exceed the consent period, its global status is the one
    derived from its purposes, and no purpose is listed twice. *)
Definition wellFormedPreferences (expiryDays : Z) (user : string)
           (p : ConsentPreferences.t) : Prop :=
  ConsentPreferences.userId p = user
  /\ ConsentPreferences.dataRetentionHours p <= 24 * expiryDays
  /\ ConsentPreferences.piiProcessing p
     = ConsentManager.calculateGlobalPIIConsent (ConsentPreferences.purposes p)
  /\ List.NoDup (JS.keys (ConsentPreferences.purposes p)).

Definition wellFormed (m : ConsentManager.t) : Prop :=
  (forall user p,
     ConsentManager.preferences m !! user = Some p ->
     wellFormedPreferences (ConsentManager.consentExpiryDays m) user p)
  /\ Forall (fun kv => DataSubjectRequest.id (snd kv) = fst kv)
            (ConsentManager.dataSubjectRequests m)
  /\ List.NoDup (JS.keys (ConsentManager.dataSubjectRequests m)).

(** The start of the consent period of [user] once consent is recorded
    at [now]: the time of the user's first consent. *)
Definition consentSince (m : ConsentManager.t) (user : string) (now : Z) : Z :=
  match ConsentManager.preferences m !! user with
  | Some p => ConsentPreferences.consentTimestamp p
  | None => now
  end.

(** *** The engine over time *)

(** The calls that change an engine. *)
Inductive EngineOp :=
| Scan (env : SecurityEngine.Env) (entry : LogEntry.t)
       (options : SecurityScanOptions)
| UpdatePolicy (updates : SecurityEngine.PolicyUpdates)
| ResolveAlert (id : string).

Definition engineStep (e : SecurityEngine.t) (op : EngineOp) : SecurityEngine.t :=
  match op with
  | Scan env entry options =>
      snd (SecurityEngine.scanLogEntry env e entry options)
  | UpdatePolicy updates => SecurityEngine.updateSecurityPolicy e updates
  | ResolveAlert id => snd (SecurityEngine.resolveSecurityAlert e id)
  end.

Definition engineRun (e : SecurityEngine.t) (ops : list EngineOp)
  : SecurityEngine.t :=
  fold_left engineStep ops e.


(** Every alert is filed under its own identifier, and no identifier is
    filed twice. *)
Definition alertsKeyed (alerts : JS.jsmap string SecurityAlert) : Prop :=
  Forall (fun kv => alertId (snd kv) = fst kv) alerts
  /\ List.NoDup (JS.keys alerts).

(** The history holds at most 1000 scan identifiers, none twice, and
    under each only successful results that carry it. *)
Definition historyInvariant
           (history : JS.jsmap string (list SecurityScanResult)) : Prop :=
  Z.of_nat (length history) <= 1000
  /\ List.NoDup (JS.keys history)
  /\ Forall (fun kv =>
               Forall (fun r => scanSuccessful r = true /\ scanId r = fst kv)
                      (snd kv))
            history.

(** The alerts are filed under their identifiers and are of severity
    [high] or [medium]. *)
Definition alertsInvariant (alerts : JS.jsmap string SecurityAlert) : Prop :=
  alertsKeyed alerts
  /\ Forall (fun kv => severity (snd kv) = high \/ severity (snd kv) = medium)
            alerts.

(** The counters add up. *)
Definition statisticsInvariant (stats : SecurityEngine.SecurityEngineStatistics)
  : Prop :=
  let levels := SecurityEngine.riskLevelDistribution stats in
  let compliance := SecurityEngine.consentCompliance stats in
  SecurityEngine.totalScans stats
  = SecurityEngine.publicCount levels + SecurityEngine.internalCount levels
    + SecurityEngine.confidentialCount levels
    + SecurityEngine.restrictedCount levels
  /\ 0 <= SecurityEngine.publicCount levels
  /\ 0 <= SecurityEngine.internalCount levels
  /\ 0 <= SecurityEngine.confidentialCount levels
  /\ 0 <= SecurityEngine.restrictedCount levels
  /\ SecurityEngine.totalPIIDetected stats
     = sumValues (SecurityEngine.detectionStats stats)
  /\ SecurityEngine.totalSanitizations stats = 0
  /\ SecurityEngine.totalUsers compliance = 0
  /\ 0 <= SecurityEngine.compliantScans compliance
  /\ 0 <= SecurityEngine.nonCompliantScans compliance.

(** What holds of an engine however it has been used. *)
Definition engineInvariant (e : SecurityEngine.t) : Prop :=
  historyInvariant (SecurityEngine.scanHistory e)
  /\ alertsInvariant (SecurityEngine.alerts e)
  /\ statisticsInvariant (SecurityEngine.statistics e).

(** The successful scans among [ops], run from [e]: how many there are,
    and how many detections they report. *)
Fixpoint successfulScans (e : SecurityEngine.t) (ops : list EngineOp) : Z :=
  match ops with
  | [] => 0
  | op :: rest =>
      match op with
      | Scan env entry options =>
          let result := fst (fst (SecurityEngine.scanLogEntry env e entry options)) in
          if scanSuccessful result then 1 else 0
      | _ => 0
      end + successfulScans (engineStep e op) rest
  end.

Fixpoint reportedDetections (e : SecurityEngine.t) (ops : list EngineOp) : Z :=
  match ops with
  | [] => 0
  | op :: rest =>
      match op with
      | Scan env entry options =>
          let result := fst (fst (SecurityEngine.scanLogEntry env e entry options)) in
          Z.of_nat (length (detections result))
      | _ => 0
      end + reportedDetections (engineStep e op) rest
  end.

(** The entries scanned one after another, each scan complete before
    the next starts. *)
Fixpoint scanEach (e : SecurityEngine.t)
         (logEntries : list (SecurityEngine.Env * LogEntry.t))
         (options : SecurityScanOptions)
  : list (SecurityScanResult * LogEntry.t) * SecurityEngine.t :=
  match logEntries with
  | [] => ([], e)
  | (env, logEntry) :: rest =>
      let '(result, logEntry, e) :=
        SecurityEngine.scanLogEntry env e logEntry options in
      let '(others, e) := scanEach e rest options in
      ((result, logEntry) :: others, e)
  end.

(** Some match of the pattern in the text is empty and rejected by the
    pattern's validator. *)
Definition rejectsEmptyMatch (text : string) (p : PIIPattern) : bool :=
  existsb (fun m => String.eqb (snd m) "" && negb (validatorAccepts p (snd m)))
          (pattern p text).

(** * Proofs *)


(** ** The stable sort *)

Section SortFacts.
Context {A : Type} (cmp : A -> A -> comparison).

Lemma insert_perm x l : Permutation (JS.insert cmp x l) (x :: l).
Proof.
induction l as [|y l IH]; simpl; [reflexivity|].
destruct (cmp x y); try reflexivity.
rewrite IH. apply perm_swap.
Qed.

Lemma sort_perm l : Permutation (JS.sort cmp l) l.
Proof.
induction l as [|x l IH]; simpl; [reflexivity|].
rewrite insert_perm. now constructor.
Qed.

Lemma sort_In x l : In x (JS.sort cmp l) <-> In x l.
Proof.
split; apply Permutation_in; [|symmetry]; apply sort_perm.
Qed.

Hypothesis total : forall a b, cmp a b = Gt -> cmp b a <> Gt.

Lemma insert_sorted x l :
  Sorted (notAfter cmp) l -> Sorted (notAfter cmp) (JS.insert cmp x l).
Proof.
induction 1 as [|y l Hl IH Hhd]; simpl.
- repeat constructor.
- destruct (cmp x y) eqn:E.
  + constructor; [now constructor|]. constructor. unfold notAfter. congruence.
  + constructor; [now constructor|]. constructor. unfold notAfter. congruence.
  + constructor; [exact IH|].
    destruct l as [|z l]; simpl.
    * constructor. now apply total.
    * destruct (cmp x z) eqn:E'; constructor;
        try (now apply total); now inversion Hhd.
Qed.

Lemma sort_sorted l : Sorted (notAfter cmp) (JS.sort cmp l).
Proof.
induction l as [|x l IH]; simpl; [constructor|]. now apply insert_sorted.
Qed.

Hypothesis trans : forall a b c, notAfter cmp a b -> notAfter cmp b c -> notAfter cmp a c.

Lemma sort_strongly_sorted l : StronglySorted (notAfter cmp) (JS.sort cmp l).
Proof.
apply Sorted_StronglySorted; [exact trans | apply sort_sorted].
Qed.
End SortFacts.

(** ** Overlap resolution *)

Lemma overlaps_spec a b : PIIDetector.overlaps a b = true <-> spansOverlap a b.
Proof.
unfold PIIDetector.overlaps, spansOverlap.
rewrite negb_true_iff, orb_false_iff, Z.leb_gt, Z.geb_leb, Z.leb_gt. lia.
Qed.

Lemma spansOverlap_sym a b : spansOverlap a b -> spansOverlap b a.
Proof. unfold spansOverlap. tauto. Qed.

Lemma pairs_snoc {A} (R : A -> A -> Prop) l x :
  ForallOrdPairs R l -> Forall (fun a => R a x) l -> ForallOrdPairs R (l ++ [x]).
Proof.
induction 1 as [|a l Ha Hl IH]; intros Hx; simpl.
- repeat constructor.
- inversion Hx; subst. constructor; [|now apply IH].
  apply Forall_app. split; [exact Ha|]. now repeat constructor.
Qed.

Lemma pairs_perm {A} (R : A -> A -> Prop) l l' :
  (forall a b, R a b -> R b a) ->
  Permutation l l' -> ForallOrdPairs R l -> ForallOrdPairs R l'.
Proof.
intros Hsym Hp. induction Hp as [|x l l' Hp IH|x y l|l l' l'' _ IH1 _ IH2];
  intros H.
- exact H.
- inversion H; subst. constructor; [|now apply IH].
  eapply Permutation_Forall; eassumption.
- inversion H as [|? ? Hy Hr]; subst. inversion Hr as [|? ? Hx Hl]; subst.
  inversion Hy; subst.
  constructor; [constructor; [now apply Hsym|assumption]|].
  now constructor.
- auto.
Qed.

Lemma accept_disjoint filtered d :
  ForallOrdPairs disjointSpans filtered ->
  ForallOrdPairs disjointSpans (PIIDetector.accept filtered d).
Proof.
intros H. unfold PIIDetector.accept, JS.some.
destruct (existsb (PIIDetector.overlaps d) filtered) eqn:E; simpl; [exact H|].
apply pairs_snoc; [exact H|].
apply List.Forall_forall. intros e He Hov.
assert (existsb (PIIDetector.overlaps d) filtered = true); [|congruence].
apply existsb_exists. exists e. split; [exact He|].
apply overlaps_spec. now apply spansOverlap_sym.
Qed.

Lemma greedy_disjoint l filtered :
  ForallOrdPairs disjointSpans filtered ->
  ForallOrdPairs disjointSpans (fold_left PIIDetector.accept l filtered).
Proof.
revert filtered. induction l as [|d l IH]; intros filtered H; simpl; [exact H|].
apply IH. now apply accept_disjoint.
Qed.

Lemma accept_In filtered d x :
  In x (PIIDetector.accept filtered d) -> In x filtered \/ x = d.
Proof.
unfold PIIDetector.accept.
destruct (negb _); [|tauto].
rewrite in_app_iff. simpl. intuition.
Qed.

Lemma accept_keeps filtered d x :
  In x filtered -> In x (PIIDetector.accept filtered d).
Proof.
unfold PIIDetector.accept. destruct (negb _); [|tauto].
rewrite in_app_iff. tauto.
Qed.

Lemma greedy_keeps l filtered x :
  In x filtered -> In x (fold_left PIIDetector.accept l filtered).
Proof.
revert filtered. induction l as [|d l IH]; intros filtered H; simpl; [exact H|].
apply IH. now apply accept_keeps.
Qed.

Lemma greedy_In l filtered x :
  In x (fold_left PIIDetector.accept l filtered) -> In x filtered \/ In x l.
Proof.
revert filtered. induction l as [|d l IH]; intros filtered H; simpl in *; [tauto|].
apply IH in H. destruct H as [H|H]; [|tauto].
apply accept_In in H. intuition.
Qed.

(** A candidate that is turned down overlaps a detection accepted before
    its turn. *)
Lemma greedy_rejected l : forall filtered x,
  In x l -> ~ In x (fold_left PIIDetector.accept l filtered) ->
  exists e, In e (fold_left PIIDetector.accept l filtered)
            /\ spansOverlap x e
            /\ (In e filtered \/ exists l1 l2, l = l1 ++ x :: l2 /\ In e l1).
Proof.
induction l as [|d l IH]; intros filtered x Hin Hout; simpl in *; [tauto|].
destruct Hin as [->|Hin].
- destruct (existsb (PIIDetector.overlaps x) filtered) eqn:E.
  + apply existsb_exists in E. destruct E as [e [He Hov]].
    exists e. split; [now apply greedy_keeps, accept_keeps|].
    split; [now apply overlaps_spec|]. now left.
  + exfalso. apply Hout. apply greedy_keeps.
    unfold PIIDetector.accept, JS.some. rewrite E. simpl.
    rewrite in_app_iff. simpl. tauto.
- destruct (IH _ _ Hin Hout) as [e [He [Hov Hwhere]]].
  exists e. split; [exact He|]. split; [exact Hov|].
  destruct Hwhere as [Hacc|[l1 [l2 [-> Hl1]]]].
  + apply accept_In in Hacc. destruct Hacc as [Hacc| ->]; [now left|].
    right. apply in_split in Hin. destruct Hin as [l1 [l2 ->]].
    exists (d :: l1), l2. split; [reflexivity|now left].
  + right. exists (d :: l1), l2. split; [reflexivity|now right].
Qed.

(** ** The order of overlap resolution *)

Lemma byConfidence_precedes a b :
  notAfter PIIDetector.byConfidence a b <-> precedes a b.
Proof.
unfold notAfter, PIIDetector.byConfidence, precedes.
destruct (Qeq_bool (confidence a) (confidence b)) eqn:E; simpl.
- apply Qeq_bool_iff in E. rewrite Z.compare_gt_iff. split.
  + intros H. right. split; [exact E|lia].
  + intros [H|[_ H]]; [|lia]. rewrite E in H. exfalso. eapply Qlt_irrefl, H.
- apply Qeq_bool_neq in E. rewrite <- Qgt_alt. split.
  + intros H. left. apply Qnot_le_lt. intros Hle. apply H.
    apply Qle_lteq in Hle. destruct Hle as [Hlt|Heq]; [exact Hlt|]. tauto.
  + intros [H|[H _]] Hgt; [|tauto].
    eapply Qlt_irrefl, Qlt_trans; eassumption.
Qed.

Lemma byConfidence_total a b :
  PIIDetector.byConfidence a b = Gt -> PIIDetector.byConfidence b a <> Gt.
Proof.
intros H. apply byConfidence_precedes.
assert (Hn : ~ precedes a b).
{ intros Hp. apply byConfidence_precedes in Hp. now apply Hp. }
unfold precedes in *.
destruct (Q_dec (confidence a) (confidence b)) as [[Hlt|Hgt]|Heq].
- now left.
- tauto.
- right. split; [now symmetry|].
  destruct (Z_le_gt_dec (startIndex a) (startIndex b)); [tauto|lia].
Qed.

Lemma precedes_trans a b c : precedes a b -> precedes b c -> precedes a c.
Proof.
unfold precedes.
intros [H1|[H1 H1']] [H2|[H2 H2']].
- left. eapply Qlt_trans; eassumption.
- left. now rewrite <- H2.
- left. now rewrite H1.
- right. split; [now rewrite H1|lia].
Qed.

Lemma byStartIndex_total a b :
  PIIDetector.byStartIndex a b = Gt -> PIIDetector.byStartIndex b a <> Gt.
Proof.
unfold PIIDetector.byStartIndex. rewrite !Z.compare_gt_iff. lia.
Qed.

Lemma byStartIndex_startsBefore a b :
  notAfter PIIDetector.byStartIndex a b <-> startsBefore a b.
Proof.
unfold notAfter, PIIDetector.byStartIndex, startsBefore.
rewrite Z.compare_gt_iff. lia.
Qed.

Lemma StronglySorted_impl {A} (R R' : A -> A -> Prop) l :
  (forall a b, R a b -> R' a b) -> StronglySorted R l -> StronglySorted R' l.
Proof.
intros HR. induction 1; constructor; [assumption|].
eapply List.Forall_impl; [|eassumption]. auto.
Qed.

Lemma StronglySorted_middle {A} (R : A -> A -> Prop) l1 x l2 :
  StronglySorted R (l1 ++ x :: l2) -> Forall (fun e => R e x) l1.
Proof.
induction l1 as [|a l1 IH]; simpl; intros H; [constructor|].
inversion H as [|? ? Hs Hf]; subst. constructor; [|now apply IH].
rewrite List.Forall_forall in Hf. apply Hf. rewrite in_app_iff. simpl. tauto.
Qed.

(** ** C1 *)

Lemma removeOverlapping_correct cands :
  let result := PIIDetector.removeOverlappingDetections cands in
  ForallOrdPairs disjointSpans result
  /\ StronglySorted startsBefore result
  /\ (forall x, In x result -> In x cands)
  /\ (forall x, In x cands -> ~ In x result ->
        exists e, In e result /\ spansOverlap x e /\ precedes e x).
Proof.
unfold PIIDetector.removeOverlappingDetections.
destruct (length cands <=? 1)%nat eqn:Hlen.
- apply Nat.leb_le in Hlen.
  destruct cands as [|a [|b cands]]; simpl in Hlen; try lia; simpl.
  + repeat split; try constructor; tauto.
  + repeat split; try (repeat constructor; fail); tauto.
- set (sorted := JS.sort PIIDetector.byConfidence cands).
  set (filtered := fold_left PIIDetector.accept sorted []).
  cbv zeta.
  assert (Hperm := sort_perm PIIDetector.byStartIndex filtered).
  split; [|split; [|split]].
  + eapply pairs_perm; [| symmetry; exact Hperm |].
    * intros a b H Hab. apply H. now apply spansOverlap_sym.
    * apply greedy_disjoint. constructor.
  + eapply StronglySorted_impl; [apply byStartIndex_startsBefore|].
    apply sort_strongly_sorted; [apply byStartIndex_total|].
    intros a b c H1 H2. apply byStartIndex_startsBefore.
    apply (proj1 (byStartIndex_startsBefore _ _)) in H1.
    apply (proj1 (byStartIndex_startsBefore _ _)) in H2.
    unfold startsBefore in *. lia.
  + intros x Hx. apply sort_In in Hx. apply greedy_In in Hx.
    destruct Hx as [[]|Hx]. now apply sort_In in Hx.
  + intros x Hx Hout.
    assert (Hx' : In x sorted) by now apply sort_In.
    assert (Hout' : ~ In x filtered).
    { intros H. apply Hout. now apply sort_In. }
    destruct (greedy_rejected sorted [] x Hx' Hout')
      as [e [He [Hov [[]|[l1 [l2 [Heq Hl1]]]]]]].
    exists e. split; [now apply sort_In|]. split; [exact Hov|].
    assert (Hs : StronglySorted (notAfter PIIDetector.byConfidence) sorted).
    { apply sort_strongly_sorted; [apply byConfidence_total|].
      intros a b c H1 H2. apply byConfidence_precedes.
      apply (proj1 (byConfidence_precedes _ _)) in H1.
      apply (proj1 (byConfidence_precedes _ _)) in H2.
      eapply precedes_trans; eassumption. }
    rewrite Heq in Hs. apply StronglySorted_middle in Hs.
    rewrite List.Forall_forall in Hs. apply byConfidence_precedes. now apply Hs.
Qed.

(** C1: for every text and every minConfidence, no two detections returned
    by [scanText] have overlapping spans (touching spans are allowed), the
    returned list is sorted by start index ascending, and it is the outcome
    of the greedy resolution: every returned detection is a candidate, and
    every candidate left out overlaps a returned detection that comes no
    later than it in the order "confidence descending, then start index
    ascending". *)
Theorem scanText_no_overlap_sorted
  (d : PIIDetector.t) (text : string) (minConfidence : option Q) (scanTime : Q) :
  let result := fst (PIIDetector.scanText d text minConfidence scanTime) in
  let cands := PIIDetector.candidates d text (default 0.7%Q minConfidence) in
  ForallOrdPairs disjointSpans result
  /\ StronglySorted startsBefore result
  /\ (forall x, In x result -> In x cands)
  /\ (forall x, In x cands -> ~ In x result ->
        exists e, In e result /\ spansOverlap x e /\ precedes e x).
Proof.
cbv zeta. unfold PIIDetector.scanText. simpl fst.
apply removeOverlapping_correct.
Qed.

(** ** Risk score *)

Lemma clamp01_min_max q : clamp01 q == Qmin 1 (Qmax 0 q).
Proof.
unfold clamp01.
destruct (Q.min_spec 1 q) as [[H1 E1]|[H1 E1]];
  destruct (Q.max_spec 0 q) as [[H2 E2]|[H2 E2]];
  destruct (Q.max_spec 0 (Qmin 1 q)) as [[H3 E3]|[H3 E3]];
  destruct (Q.min_spec 1 (Qmax 0 q)) as [[H4 E4]|[H4 E4]];
  rewrite ?E3, ?E4; rewrite ?E1, ?E2 in *; lra.
Qed.

#[local] Instance clamp01_proper : Proper (Qeq ==> Qeq) clamp01.
Proof. intros a b H. unfold clamp01. now rewrite H. Qed.






Lemma maximum_nonneg_clamped q : clamp01 q == Qmin 1 (Qmax 0 q) /\ (0 <= Qmax 0 q)%Q.
Proof. split; [apply clamp01_min_max|apply Q.le_max_l]. Qed.



(** ** Classification *)

Lemma PIIType_eqb_eq a b : PIIType_eqb a b = true <-> a = b.
Proof. destruct a, b; simpl; split; intros H; try reflexivity; discriminate. Qed.









(** ** Confidence of a match *)

Lemma window_spec text index matched :
  JS.toLowerCase
    (JS.substring text (Z.max 0 (index - PIIDetector.contextRadius))
       (Z.min (JS.len text)
              (index + JS.len matched + PIIDetector.contextRadius)))
  = spec_window text index matched.
Proof.
unfold spec_window, JS.substring, JS.clampIndex, PIIDetector.contextRadius.
f_equal. f_equal; f_equal; lia.
Qed.

Lemma validateContext_spec text index matched ty :
  PIIDetector.validateContext text index matched ty
  = spec_contextFactor ty (spec_window text index matched).
Proof.
unfold PIIDetector.validateContext. cbv zeta. rewrite window_spec.
generalize (spec_window text index matched). intros w.
unfold spec_contextFactor, tier, anyCue.
destruct ty; simpl existsb; try reflexivity;
  repeat match goal with
         | |- context [JS.includes w ?c] => destruct (JS.includes w c)
         end; reflexivity.
Qed.

Lemma isDigit_value c :
  JS.isDigit c = true -> 0 <= PIIDetector.digitValue c <= 9.
Proof.
unfold JS.isDigit, PIIDetector.digitValue. cbv zeta.
rewrite andb_true_iff, !Nat.leb_le. lia.
Qed.

Lemma digitsOf_digits s :
  Forall (fun c => JS.isDigit c = true) (list_ascii_of_string (JS.digitsOf s)).
Proof.
induction s as [|c s IH]; simpl; [constructor|].
destruct (JS.isDigit c) eqn:E; simpl; [constructor|]; assumption.
Qed.

Lemma length_list_ascii s : length (list_ascii_of_string s) = String.length s.
Proof. induction s; simpl; congruence. Qed.

Lemma luhnLoop_checksum l : forall alternate sum,
  Forall (fun c => JS.isDigit c = true) l ->
  PIIDetector.luhnLoop l alternate sum
  = sum + luhnChecksum alternate (map PIIDetector.digitValue l).
Proof.
induction l as [|c l IH]; intros alternate sum H; simpl; [lia|].
inversion H as [|? ? Hc Hl]; subst.
rewrite IH by assumption.
apply isDigit_value in Hc.
assert (E : (if alternate
             then (if PIIDetector.digitValue c * 2 >? 9
                   then (PIIDetector.digitValue c * 2) mod 10 + 1
                   else PIIDetector.digitValue c * 2)
             else PIIDetector.digitValue c)
            = (if alternate then luhnDouble (PIIDetector.digitValue c)
               else PIIDetector.digitValue c)).
{ destruct alternate; [|reflexivity]. unfold luhnDouble.
  replace (2 * PIIDetector.digitValue c) with (PIIDetector.digitValue c * 2) by lia.
  destruct (PIIDetector.digitValue c * 2 >? 9) eqn:G; [|reflexivity].
  apply Z.gtb_lt in G.
  assert (M : (PIIDetector.digitValue c * 2) mod 10
              = PIIDetector.digitValue c * 2 - 10).
  { symmetry. apply Z.mod_unique with 1; lia. }
  rewrite M. lia. }
rewrite E. lia.
Qed.

(** [validateCreditCard] is Luhn validation. *)
Lemma validateCreditCard_spec matched :
  PIIDetector.validateCreditCard matched = spec_luhnValid matched.
Proof.
unfold PIIDetector.validateCreditCard, spec_luhnValid, digitValues. cbv zeta.
rewrite length_map, length_list_ascii. fold (JS.len (JS.digitsOf matched)).
rewrite luhnLoop_checksum by (apply Forall_rev, digitsOf_digits).
rewrite map_rev. simpl (0 + _).
destruct (JS.len (JS.digitsOf matched) <? 13) eqn:E1;
  destruct (JS.len (JS.digitsOf matched) >? 19) eqn:E2;
  destruct (13 <=? JS.len (JS.digitsOf matched)) eqn:E3;
  destruct (JS.len (JS.digitsOf matched) <=? 19) eqn:E4;
  simpl; try reflexivity; exfalso;
  rewrite ?Z.ltb_lt, ?Z.ltb_ge, ?Z.leb_le, ?Z.leb_gt in *;
  try (apply Z.gtb_lt in E2); try (rewrite Z.gtb_ltb, Z.ltb_ge in E2); lia.
Qed.

Lemma substring_length s : forall n m,
  (n + m <= String.length s)%nat -> String.length (String.substring n m s) = m.
Proof.
induction s as [|c s IH]; intros n m H; simpl in *.
- destruct n, m; simpl; lia.
- destruct n as [|n].
  + destruct m as [|m]; simpl; [reflexivity|]. rewrite IH; lia.
  + apply IH. lia.
Qed.

Lemma js_substring_length s a b :
  0 <= a <= b -> b <= JS.len s ->
  String.length (JS.substring s a b) = Z.to_nat (b - a).
Proof.
intros Hab Hb. unfold JS.substring, JS.clampIndex, JS.len in *.
rewrite substring_length; lia.
Qed.

Lemma eqb_false_length a b :
  String.length a <> String.length b -> String.eqb a b = false.
Proof.
intros H. apply String.eqb_neq. intros ->. now apply H.
Qed.

(** [validateSSN] checks the structure of the nine digits. *)
Lemma validateSSN_spec matched :
  PIIDetector.validateSSN matched = spec_ssnValid matched.
Proof.
unfold PIIDetector.validateSSN, spec_ssnValid. cbv zeta.
destruct (JS.len (JS.digitsOf matched) =? 9) eqn:E; simpl; [|reflexivity].
apply Z.eqb_eq in E.
assert (Ha := js_substring_length (JS.digitsOf matched) 0 3 ltac:(lia) ltac:(lia)).
assert (Hg := js_substring_length (JS.digitsOf matched) 3 5 ltac:(lia) ltac:(lia)).
assert (Hs := js_substring_length (JS.digitsOf matched) 5 9 ltac:(lia) ltac:(lia)).
set (area := JS.substring (JS.digitsOf matched) 0 3) in *.
set (group := JS.substring (JS.digitsOf matched) 3 5) in *.
set (serial := JS.substring (JS.digitsOf matched) 5 9) in *.
unfold PIIDetector.arrayIncludes, PIIDetector.invalidPatterns. simpl existsb.
rewrite (eqb_false_length area "0000"), (eqb_false_length area "00")
  by (rewrite Ha; simpl; lia).
rewrite (eqb_false_length group "000"), (eqb_false_length group "666"),
  (eqb_false_length group "900"), (eqb_false_length group "999"),
  (eqb_false_length group "0000") by (rewrite Hg; simpl; lia).
rewrite (eqb_false_length serial "000"), (eqb_false_length serial "666"),
  (eqb_false_length serial "900"), (eqb_false_length serial "999"),
  (eqb_false_length serial "00") by (rewrite Hs; simpl; lia).
simpl. now rewrite !orb_false_r.
Qed.

Lemma validatePhone_spec matched :
  PIIDetector.validatePhone matched = spec_phonePlausible matched.
Proof.
unfold PIIDetector.validatePhone, spec_phonePlausible. cbv zeta.
now rewrite Z.geb_leb.
Qed.

Lemma applyTypeSpecificValidation_spec matched ty c :
  PIIDetector.applyTypeSpecificValidation matched ty c
  = match spec_semanticPenalty ty matched with
    | Some penalty => JS.mul c penalty
    | None => c
    end.
Proof.
unfold PIIDetector.applyTypeSpecificValidation, spec_semanticPenalty.
destruct ty; try reflexivity.
- rewrite validateCreditCard_spec. now destruct (spec_luhnValid matched).
- rewrite validateSSN_spec. now destruct (spec_ssnValid matched).
- now destruct (PIIDetector.validateEmail matched).
- rewrite validatePhone_spec. now destruct (spec_phonePlausible matched).
Qed.

Lemma collect_In {A B} (f : A -> option B) l b :
  In b (PIIDetector.collect f l) <-> exists a, In a l /\ f a = Some b.
Proof.
induction l as [|x l IH]; simpl.
- split; [tauto|]. now intros [a [[] _]].
- destruct (f x) eqn:E; simpl; rewrite IH; split.
  + intros [<-|[a [Ha Hf]]]; [exists x|exists a]; tauto.
  + intros [a [[->|Ha] Hf]]; [left; congruence|right; eauto].
  + intros [a [Ha Hf]]. eauto.
  + intros [a [[->|Ha] Hf]]; [congruence|eauto].
Qed.

Lemma matchDetection_spec text p index matched :
  match PIIDetector.matchDetection text p (index, matched) with
  | None => validatorAccepts p matched = false
  | Some d =>
      validatorAccepts p matched = true
      /\ type d = ptype p /\ value d = matched
      /\ startIndex d = index /\ endIndex d = index + JS.len matched
      /\ confidence d = spec_confidence text p index matched
  end.
Proof.
unfold PIIDetector.matchDetection, validatorAccepts, spec_confidence.
destruct (validator p) as [v|].
- destruct (v matched); simpl; [|reflexivity].
  repeat split.
  rewrite applyTypeSpecificValidation_spec.
  destruct (requiresContext p); [rewrite validateContext_spec|]; reflexivity.
- simpl. repeat split.
  rewrite applyTypeSpecificValidation_spec.
  destruct (requiresContext p); [rewrite validateContext_spec|]; reflexivity.
Qed.

Lemma candidates_In det text minConfidence d :
  In d (PIIDetector.candidates det text minConfidence)
  <-> exists p m, In p (PIIDetector.allPatterns det)
                  /\ In m (pattern p text)
                  /\ PIIDetector.matchDetection text p m = Some d
                  /\ JS.geq (confidence d) minConfidence = true.
Proof.
unfold PIIDetector.candidates, PIIDetector.findPatternMatches.
rewrite in_flat_map. split.
- intros [p [Hp H]]. apply filter_In in H. destruct H as [H Hc].
  apply collect_In in H. destruct H as [m [Hm Hd]].
  exists p, m. repeat split; assumption.
- intros [p [m [Hp [Hm [Hd Hc]]]]]. exists p. split; [exact Hp|].
  apply filter_In. split; [|assumption].
  apply collect_In. eauto.
Qed.

(** C6: the confidence of every pattern match starts at the pattern's base
    confidence; the match is discarded when the validator rejects it, and
    the confidence is raised by 0.1 and capped at 1.0 when a validator
    passes; it is multiplied by the context factor read from the window of
    20 characters on either side when the pattern requires context, and
    by the semantic multiplier of its type when the match fails the
    semantic check (0.5 for a card number failing Luhn validation, 0.3
    for a malformed email, 0.2 for a structurally invalid SSN, 0.6 for a
    phone number with an implausible digit count).  The sums and products
    are those of JavaScript numbers.  A scan keeps as candidates exactly
    the matches whose confidence is at least minConfidence, and returns
    only candidates. *)
Theorem scanText_confidence (det : PIIDetector.t) (text : string) :
  (forall p index matched,
     match PIIDetector.matchDetection text p (index, matched) with
     | None => validatorAccepts p matched = false
     | Some d =>
         validatorAccepts p matched = true
         /\ type d = ptype p /\ value d = matched
         /\ startIndex d = index /\ endIndex d = index + JS.len matched
         /\ confidence d = spec_confidence text p index matched
     end)
  /\ (forall minConfidence d,
        In d (PIIDetector.candidates det text minConfidence)
        <-> exists p m, In p (PIIDetector.allPatterns det)
                        /\ In m (pattern p text)
                        /\ PIIDetector.matchDetection text p m = Some d
                        /\ JS.geq (confidence d) minConfidence = true)
  /\ (forall minConfidence scanTime d,
        In d (fst (PIIDetector.scanText det text minConfidence scanTime)) ->
        In d (PIIDetector.candidates det text (default 0.7%Q minConfidence))).
Proof.
split; [|split].
- intros p index matched. apply matchDetection_spec.
- intros minConfidence d. apply candidates_In.
- intros minConfidence scanTime d. unfold PIIDetector.scanText. simpl fst.
  apply removeOverlapping_correct.
Qed.

(** ** The audit log *)

Lemma addAuditLogEntry_keepLast log entry :
  ConsentManager.addAuditLogEntry log entry
  = keepLast ConsentManager.maxAuditLog (log ++ [entry]).
Proof.
unfold ConsentManager.addAuditLogEntry, keepLast. cbv zeta.
destruct (Z.of_nat (length (log ++ [entry])) >? ConsentManager.maxAuditLog) eqn:E.
- f_equal. unfold ConsentManager.maxAuditLog in *. apply Z.gtb_lt in E. lia.
- replace (length (log ++ [entry]) - Z.to_nat ConsentManager.maxAuditLog)%nat
    with 0%nat; [reflexivity|].
  unfold ConsentManager.maxAuditLog in *.
  rewrite Z.gtb_ltb, Z.ltb_ge in E. lia.
Qed.

Lemma keepLast_length {A} n (l : list A) :
  0 <= n -> Z.of_nat (length (keepLast n l)) <= n.
Proof. intros H. unfold keepLast. rewrite length_skipn. lia. Qed.

Lemma keepLast_app {A} n (l a : list A) :
  keepLast n (keepLast n l ++ a) = keepLast n (l ++ a).
Proof.
unfold keepLast.
set (k := (length l - Z.to_nat n)%nat).
assert (Hk : (k <= length l)%nat) by (unfold k; lia).
replace (skipn k l ++ a) with (skipn k (l ++ a)).
- rewrite skipn_skipn. f_equal.
  rewrite length_skipn, !length_app. unfold k. lia.
- rewrite skipn_app. replace (k - length l)%nat with 0%nat by lia.
  reflexivity.
Qed.

Lemma addAuditLogEntry_bound log entry :
  Z.of_nat (length (ConsentManager.addAuditLogEntry log entry))
  <= ConsentManager.maxAuditLog.
Proof.
rewrite addAuditLogEntry_keepLast. now apply keepLast_length.
Qed.

Lemma appends_keepLast es : forall log,
  Z.of_nat (length log) <= ConsentManager.maxAuditLog ->
  fold_left ConsentManager.addAuditLogEntry es log
  = keepLast ConsentManager.maxAuditLog (log ++ es).
Proof.
induction es as [|e es IH]; intros log H; simpl.
- rewrite app_nil_r. unfold keepLast.
  replace (length log - Z.to_nat ConsentManager.maxAuditLog)%nat with 0%nat
    by lia.
  reflexivity.
- rewrite IH by apply addAuditLogEntry_bound.
  rewrite addAuditLogEntry_keepLast, keepLast_app.
  now rewrite <- app_assoc.
Qed.

Lemma appends_bound es : forall log,
  Z.of_nat (length log) <= ConsentManager.maxAuditLog ->
  Z.of_nat (length (fold_left ConsentManager.addAuditLogEntry es log))
  <= ConsentManager.maxAuditLog.
Proof.
induction es as [|e es IH]; intros log H; simpl; [exact H|].
apply IH, addAuditLogEntry_bound.
Qed.

(** A log of any length is cut to the newest 10,000 by the first
    append. *)
Lemma appends_keepLast_cons e es log :
  fold_left ConsentManager.addAuditLogEntry (e :: es) log
  = keepLast ConsentManager.maxAuditLog (log ++ e :: es).
Proof.
simpl. rewrite appends_keepLast by apply addAuditLogEntry_bound.
rewrite addAuditLogEntry_keepLast, keepLast_app.
now rewrite <- app_assoc.
Qed.

(** ** Insertion-ordered maps *)

Section JsMapFacts.
Context {K V : Type} (eqb : K -> K -> bool).
Hypothesis eqb_eq : forall a b, eqb a b = true <-> a = b.

Lemma eqb_refl_true a : eqb a a = true.
Proof. now apply eqb_eq. Qed.

Lemma get_set k k' (v : V) m :
  JS.get eqb k (JS.set eqb k' v m)
  = if eqb k k' then Some v else JS.get eqb k m.
Proof.
induction m as [|[k1 v1] m IH]; simpl; [reflexivity|].
destruct (eqb k' k1) eqn:E1; simpl.
- apply eqb_eq in E1. subst k1. now destruct (eqb k k').
- rewrite IH. destruct (eqb k k1) eqn:E2; [|reflexivity].
  apply eqb_eq in E2. subst k1.
  destruct (eqb k k') eqn:E3; [|reflexivity].
  apply eqb_eq in E3. subst k'. rewrite eqb_refl_true in E1. discriminate.
Qed.
End JsMapFacts.

Lemma ProcessingPurpose_eqb_eq a b : ProcessingPurpose_eqb a b = true <-> a = b.
Proof. destruct a, b; simpl; split; intros H; try reflexivity; discriminate. Qed.

Lemma ConsentStatus_eqb_eq a b : ConsentStatus_eqb a b = true <-> a = b.
Proof. destruct a, b; simpl; split; intros H; try reflexivity; discriminate. Qed.

Lemma getPurpose_setPurpose q q' s purposes :
  ConsentManager.getPurpose q (ConsentManager.setPurpose q' s purposes)
  = if ProcessingPurpose_eqb q q' then Some s
    else ConsentManager.getPurpose q purposes.
Proof. apply get_set, ProcessingPurpose_eqb_eq. Qed.

(** ** Global status *)

Lemma some_status values s :
  JS.some (fun status => ConsentStatus_eqb status s) values = true
  <-> In s values.
Proof.
unfold JS.some. rewrite existsb_exists. split.
- intros [x [Hx E]]. apply ConsentStatus_eqb_eq in E. now subst.
- intros H. exists s. split; [exact H|]. now apply ConsentStatus_eqb_eq.
Qed.

Lemma every_granted values :
  JS.every (fun status => ConsentStatus_eqb status granted) values = true
  <-> Forall (fun v => v = granted) values.
Proof.
unfold JS.every. rewrite forallb_forall, List.Forall_forall.
split; intros H x Hx; apply ConsentStatus_eqb_eq; auto.
Qed.

Lemma calculateGlobalPIIConsent_spec purposes :
  spec_globalStatus (JS.values purposes)
                    (ConsentManager.calculateGlobalPIIConsent purposes).
Proof.
unfold ConsentManager.calculateGlobalPIIConsent. cbv zeta.
pose proof (some_status (JS.values purposes) withdrawn) as Hw.
pose proof (some_status (JS.values purposes) denied) as Hd.
pose proof (every_granted (JS.values purposes)) as Hg.
destruct (JS.some _ (JS.values purposes)) eqn:Ew; simpl.
{ now apply Hw. }
assert (Nw : ~ In withdrawn (JS.values purposes)).
{ intros H. apply Hw in H. discriminate. }
destruct (JS.some (fun status => ConsentStatus_eqb status denied) _) eqn:Ed; simpl.
{ split; [exact Nw| now apply Hd]. }
assert (Nd : ~ In denied (JS.values purposes)).
{ intros H. apply Hd in H. discriminate. }
destruct (JS.every _ (JS.values purposes)) eqn:Eg; simpl.
{ repeat split; try assumption. now apply Hg. }
repeat split; try assumption. intros H. apply Hg in H. discriminate.
Qed.

(** ** The loops of recordConsent and withdrawConsent *)

Lemma spec_recordEntries_ext m env user cid status ip ua purposes :
  forall i old old',
  (forall q, old q = old' q) ->
  spec_recordEntries m env user cid status ip ua i old purposes
  = spec_recordEntries m env user cid status ip ua i old' purposes.
Proof.
induction purposes as [|q rest IH]; intros i old old' H; simpl; [reflexivity|].
rewrite (H q). f_equal. apply IH. intros q'. now rewrite H.
Qed.

Lemma spec_recordEntries_length m env user cid status ip ua purposes :
  forall i old,
  length (spec_recordEntries m env user cid status ip ua i old purposes)
  = length purposes.
Proof.
induction purposes as [|q rest IH]; intros i old; simpl; [reflexivity|].
now rewrite IH.
Qed.

Lemma recordLoop_spec m env user status ip ua purposes : forall i p log,
  let r := ConsentManager.recordLoop m env user status ip ua i p log purposes in
  snd r
  = fold_left ConsentManager.addAuditLogEntry
      (spec_recordEntries m env user (ConsentPreferences.id p) status ip ua i
                          (statusIn (ConsentPreferences.purposes p)) purposes)
      log
  /\ (forall q,
        ConsentManager.getPurpose q (ConsentPreferences.purposes (fst r))
        = if listed q purposes then Some status
          else ConsentManager.getPurpose q (ConsentPreferences.purposes p))
  /\ ConsentPreferences.id (fst r) = ConsentPreferences.id p
  /\ ConsentPreferences.userId (fst r) = ConsentPreferences.userId p
  /\ ConsentPreferences.dataRetentionHours (fst r)
     = ConsentPreferences.dataRetentionHours p
  /\ ConsentPreferences.consentTimestamp (fst r)
     = ConsentPreferences.consentTimestamp p.
Proof.
induction purposes as [|q rest IH]; intros i p log; cbv zeta.
- simpl. repeat split.
- simpl ConsentManager.recordLoop.
  set (p' := ConsentManager.withPurposes p _).
  destruct (IH (S i) p'
              (ConsentManager.addAuditLogEntry log
                 (ConsentManager.consentEntry m env i user
                    (ConsentPreferences.id p) q status
                    (default pending
                       (ConsentManager.getPurpose q
                          (ConsentPreferences.purposes p))) ip ua)))
    as [Hlog [Hget [Hid [Hu [Hr Ht]]]]].
  split; [|split; [|repeat split; assumption]].
  + rewrite Hlog. simpl. f_equal.
    apply spec_recordEntries_ext. intros q'. unfold statusIn, p'. simpl.
    rewrite getPurpose_setPurpose. now destruct (ProcessingPurpose_eqb q' q).
  + intros q'. rewrite Hget. unfold p'. simpl.
    rewrite getPurpose_setPurpose.
    destruct (ProcessingPurpose_eqb q' q); simpl; [|reflexivity].
    now destruct (listed q' rest).
Qed.

Lemma withdrawLoop_spec m env user ip ua purposes : forall i p log,
  let r := ConsentManager.withdrawLoop m env user ip ua i p log purposes in
  (exists es, length es = length purposes
              /\ snd r = fold_left ConsentManager.addAuditLogEntry es log)
  /\ (forall q,
        ConsentManager.getPurpose q (ConsentPreferences.purposes (fst r))
        = if listed q purposes then Some withdrawn
          else ConsentManager.getPurpose q (ConsentPreferences.purposes p)).
Proof.
induction purposes as [|q rest IH]; intros i p log; cbv zeta.
- simpl. split; [exists []; split; reflexivity|reflexivity].
- simpl ConsentManager.withdrawLoop.
  set (p' := ConsentManager.withPurposes p _).
  set (entry := ConsentManager.withdrawalEntry _ _ _ _ _ _ _ _ _).
  destruct (IH (S i) p' (ConsentManager.addAuditLogEntry log entry))
    as [[es [Hlen Hlog]] Hget].
  split.
  + exists (entry :: es). split; [simpl; now rewrite Hlen|exact Hlog].
  + intros q'. rewrite Hget. unfold p'. simpl.
    rewrite getPurpose_setPurpose.
    destruct (ProcessingPurpose_eqb q' q); simpl; [|reflexivity].
    now destruct (listed q' rest).
Qed.

Lemma recordConsent_log m env user purposes consentGiven ip ua :
  ConsentManager.auditLog
    (snd (ConsentManager.recordConsent m env user purposes consentGiven ip ua))
  = fold_left ConsentManager.addAuditLogEntry
      (spec_recordEntries m env user
         (ConsentPreferences.id (startingPreferences m env user ip ua))
         (if consentGiven then granted else denied) ip ua 1
         (statusIn (ConsentPreferences.purposes
                      (startingPreferences m env user ip ua)))
         purposes)
      (ConsentManager.auditLog m).
Proof.
unfold ConsentManager.recordConsent. cbv zeta.
fold (startingPreferences m env user ip ua).
pose proof (recordLoop_spec m env user (if consentGiven then granted else denied)
              ip ua purposes 1 (startingPreferences m env user ip ua)
              (ConsentManager.auditLog m)) as H.
cbv zeta in H.
destruct (ConsentManager.recordLoop _ _ _ _ _ _ _ _ _ _) as [p log].
simpl in *. apply H.
Qed.

Lemma step_appends m call :
  exists es,
    ConsentManager.auditLog (ConsentManager.step m call)
    = fold_left ConsentManager.addAuditLogEntry es (ConsentManager.auditLog m).
Proof.
destruct call as [env op]. destruct op; simpl.
- eexists. apply recordConsent_log.
- unfold ConsentManager.withdrawConsent.
  destruct (ConsentManager.preferences m !! user) as [p|]; [|now exists []].
  pose proof (withdrawLoop_spec m env user ip ua purposes 0 p
                (ConsentManager.auditLog m)) as H.
  cbv zeta in H.
  destruct (ConsentManager.withdrawLoop _ _ _ _ _ _ _ _ _) as [p' log].
  simpl in *. destruct H as [[es [_ H]] _]. now exists es.
- unfold ConsentManager.updateDataRetention.
  destruct (ConsentManager.preferences m !! user) as [p|]; [|now exists []].
  simpl. eexists [_]. reflexivity.
- eexists [_]. reflexivity.
- eexists [_]. reflexivity.
Qed.

Lemma run_appends calls : forall m,
  exists es,
    ConsentManager.auditLog (ConsentManager.run m calls)
    = fold_left ConsentManager.addAuditLogEntry es (ConsentManager.auditLog m).
Proof.
unfold ConsentManager.run.
induction calls as [|call calls IH]; intros m; simpl; [now exists []|].
destruct (IH (ConsentManager.step m call)) as [es2 H2].
destruct (step_appends m call) as [es1 H1].
exists (es1 ++ es2). now rewrite fold_left_app, <- H1.
Qed.

(** C7: the audit log never holds more than 10,000 entries.  Every append
    leaves at most 10,000 entries, namely the newest ones (the oldest are
    pruned first); every operation of the manager changes the log by
    appends only; so after any sequence of operations on a new manager the
    log has at most 10,000 entries, and a log built by appends is the
    newest 10,000 of what was appended. *)
Theorem auditLog_capped :
  (forall log entry,
     Z.of_nat (length (ConsentManager.addAuditLogEntry log entry)) <= 10000
     /\ ConsentManager.addAuditLogEntry log entry
        = keepLast 10000 (log ++ [entry]))
  /\ (forall m call,
        exists es,
          ConsentManager.auditLog (ConsentManager.step m call)
          = fold_left ConsentManager.addAuditLogEntry es
                      (ConsentManager.auditLog m))
  /\ (forall es,
        fold_left ConsentManager.addAuditLogEntry es [] = keepLast 10000 es)
  /\ (forall zone j expiry calls,
        Z.of_nat (length (ConsentManager.auditLog
                            (ConsentManager.run
                               (ConsentManager.create zone j expiry) calls)))
        <= 10000).
Proof.
split; [|split; [|split]].
- intros log entry. split.
  + apply addAuditLogEntry_bound.
  + apply addAuditLogEntry_keepLast.
- apply step_appends.
- intros es. apply (appends_keepLast es []). simpl. discriminate.
- intros zone j expiry calls.
  destruct (run_appends calls (ConsentManager.create zone j expiry)) as [es H].
  rewrite H. apply appends_bound. simpl. discriminate.
Qed.

(** ** recordConsent and withdrawConsent *)

(** C8: after [recordConsent] the user's stored preferences carry, for
    every listed purpose, the new status and, for every other purpose, the
    status it had; the derived global status is withdrawn if some purpose is
    withdrawn, otherwise denied if some purpose is denied, otherwise granted
    if every purpose is granted, otherwise pending; and the audit log is
    the newest 10,000 of the former log followed by one entry per listed
    purpose, in order, each naming the purpose, the new status and the
    status the purpose had before, whether or not the two differ.  After
    a [withdrawConsent] that finds the user, the listed purposes are
    withdrawn and the global status is derived in the same way. *)
Theorem recordConsent_global_status
  (m : ConsentManager.t) (env : ConsentManager.Env) (user : string)
  (purposes : list ProcessingPurpose) (ip ua : string) :
  (forall consentGiven : bool,
     let status := if consentGiven then granted else denied in
     let p0 := startingPreferences m env user ip ua in
     let entries :=
       spec_recordEntries m env user (ConsentPreferences.id p0) status ip ua 1
                          (statusIn (ConsentPreferences.purposes p0)) purposes in
     let r := ConsentManager.recordConsent m env user purposes consentGiven
                                           ip ua in
     ConsentManager.preferences (snd r) !! user = Some (fst r)
     /\ (forall q,
           ConsentManager.getPurpose q (ConsentPreferences.purposes (fst r))
           = if listed q purposes then Some status
             else ConsentManager.getPurpose q (ConsentPreferences.purposes p0))
     /\ spec_globalStatus (JS.values (ConsentPreferences.purposes (fst r)))
                          (ConsentPreferences.piiProcessing (fst r))
     /\ length entries = length purposes
     /\ ConsentManager.auditLog (snd r)
        = match purposes with
          | [] => ConsentManager.auditLog m
          | _ :: _ => keepLast 10000 (ConsentManager.auditLog m ++ entries)
          end)
  /\ let w := ConsentManager.withdrawConsent m env user purposes ip ua in
     match fst w with
     | Some p =>
         ConsentManager.preferences (snd w) !! user = Some p
         /\ (forall q,
               ConsentManager.getPurpose q (ConsentPreferences.purposes p)
               = if listed q purposes then Some withdrawn
                 else ConsentManager.getPurpose q
                        (ConsentPreferences.purposes
                           (startingPreferences m env user ip ua)))
         /\ spec_globalStatus (JS.values (ConsentPreferences.purposes p))
                              (ConsentPreferences.piiProcessing p)
     | None => snd w = m /\ ConsentManager.preferences m !! user = None
     end.
Proof.
split.
- intros consentGiven. cbv zeta.
  split; [|split; [|split; [|split]]].
  + unfold ConsentManager.recordConsent. cbv zeta.
    destruct (ConsentManager.recordLoop _ _ _ _ _ _ _ _ _ _) as [p log].
    simpl. apply lookup_insert_eq.
  + unfold ConsentManager.recordConsent. cbv zeta.
    fold (startingPreferences m env user ip ua).
    pose proof (recordLoop_spec m env user
                  (if consentGiven then granted else denied) ip ua purposes 1
                  (startingPreferences m env user ip ua)
                  (ConsentManager.auditLog m)) as H.
    cbv zeta in H.
    destruct (ConsentManager.recordLoop _ _ _ _ _ _ _ _ _ _) as [p log].
    simpl in *. apply H.
  + unfold ConsentManager.recordConsent. cbv zeta.
    destruct (ConsentManager.recordLoop _ _ _ _ _ _ _ _ _ _) as [p log].
    simpl. apply calculateGlobalPIIConsent_spec.
  + apply spec_recordEntries_length.
  + rewrite recordConsent_log.
    destruct purposes as [|q rest]; [reflexivity|].
    cbn [spec_recordEntries]. apply appends_keepLast_cons.
- cbv zeta. unfold ConsentManager.withdrawConsent, startingPreferences.
  destruct (ConsentManager.preferences m !! user) as [p|] eqn:E;
    [|split; reflexivity].
  pose proof (withdrawLoop_spec m env user ip ua purposes 0 p
                (ConsentManager.auditLog m)) as H.
  cbv zeta in H.
  destruct (ConsentManager.withdrawLoop _ _ _ _ _ _ _ _ _) as [p' log].
  simpl in *. split; [apply lookup_insert_eq|].
  split; [apply H|apply calculateGlobalPIIConsent_spec].
Qed.

(** C8, as stated, fails where it counts the audit entries: alice has
    granted [logging]; granting it again changes the status of no
    purpose, and yet the audit log receives an entry, which records
    [granted] as both the old and the new status. *)
Lemma recordConsent_logs_unchanged_purpose :
  let env := {| ConsentManager.now := 1700000000000;
                ConsentManager.freshId :=
                  fun i => ("id_" +:+ pretty (Z.of_nat i))%string |} in
  let m :=
    snd (ConsentManager.recordConsent (ConsentManager.create JS.utc GDPR None)
           env "alice" [logging] true "10.0.0.1" "agent") in
  let r := ConsentManager.recordConsent m env "alice" [logging] true
                                        "10.0.0.1" "agent" in
  option_map ConsentPreferences.purposes
             (ConsentManager.preferences m !! "alice"%string)
  = Some [(logging, granted)]
  /\ ConsentPreferences.purposes (fst r) = [(logging, granted)]
  /\ changedPurposes [(logging, granted)] (ConsentPreferences.purposes (fst r))
     = []
  /\ length (ConsentManager.auditLog m) = 1%nat
  /\ length (ConsentManager.auditLog (snd r)) = 2%nat
  /\ option_map AuditLogEntry.details
                (nth_error (ConsentManager.auditLog (snd r)) 1)
     = Some (ConsentDetails logging granted granted "10.0.0.1" "agent" "id_0")
  /\ ~ spec_entryPerPurposeChanged m env "alice" [logging] true
                                   "10.0.0.1" "agent".
Proof.
cbv zeta.
split; [vm_compute; reflexivity|].
split; [vm_compute; reflexivity|].
split; [vm_compute; reflexivity|].
split; [vm_compute; reflexivity|].
split; [vm_compute; reflexivity|].
split; [vm_compute; reflexivity|].
unfold spec_entryPerPurposeChanged. vm_compute. discriminate.
Qed.

(** C10: [recordConsent] with an empty list of purposes, for a user
    without preferences, stores a record whose purposes map is empty and
    whose derived global status is granted. *)
Theorem recordConsent_empty_granted
  (m : ConsentManager.t) (env : ConsentManager.Env) (user : string)
  (consentGiven : bool) (ip ua : string) :
  ConsentManager.preferences m !! user = None ->
  let r := ConsentManager.recordConsent m env user [] consentGiven ip ua in
  ConsentManager.preferences (snd r) !! user = Some (fst r)
  /\ ConsentPreferences.purposes (fst r) = []
  /\ ConsentPreferences.piiProcessing (fst r) = granted
  /\ ConsentManager.auditLog (snd r) = ConsentManager.auditLog m.
Proof.
intros H. unfold ConsentManager.recordConsent. cbv zeta. rewrite H. simpl.
repeat split. apply lookup_insert_eq.
Qed.

Lemma recordConsent_empty_granted_witness :
  let m := ConsentManager.create JS.utc GDPR None in
  let env := {| ConsentManager.now := 1700000000000;
                ConsentManager.freshId := fun _ => "consent_1"%string |} in
  let r := ConsentManager.recordConsent m env "alice" [] false
                                        "10.0.0.1" "agent" in
  ConsentManager.preferences m !! "alice"%string = None
  /\ ConsentManager.preferences (snd r) !! "alice"%string = Some (fst r)
  /\ ConsentPreferences.purposes (fst r) = []
  /\ ConsentPreferences.piiProcessing (fst r) = granted
  /\ ConsentManager.auditLog (snd r) = ConsentManager.auditLog m.
Proof.
cbv zeta. split; [reflexivity|].
apply (recordConsent_empty_granted (ConsentManager.create JS.utc GDPR None)).
reflexivity.
Defined.

(** ** Strings as lists of characters *)

Lemma chars_append a b :
  list_ascii_of_string (a +:+ b)
  = list_ascii_of_string a ++ list_ascii_of_string b.
Proof. induction a as [|c a IH]; simpl; [reflexivity|]. now rewrite IH. Qed.

Lemma chars_substring s : forall n m,
  list_ascii_of_string (String.substring n m s)
  = firstn m (skipn n (list_ascii_of_string s)).
Proof.
induction s as [|c s IH]; intros n m; simpl.
- destruct n, m; reflexivity.
- destruct n as [|n]; simpl.
  + destruct m as [|m]; simpl; [reflexivity|].
    rewrite IH. reflexivity.
  + apply IH.
Qed.

Lemma chars_inj a b :
  list_ascii_of_string a = list_ascii_of_string b -> a = b.
Proof.
intros H. rewrite <- (string_of_list_ascii_of_string a),
  <- (string_of_list_ascii_of_string b). now rewrite H.
Qed.

Lemma chars_js_substring s a b :
  0 <= a <= b -> b <= JS.len s ->
  list_ascii_of_string (JS.substring s a b)
  = firstn (Z.to_nat (b - a)) (skipn (Z.to_nat a) (list_ascii_of_string s)).
Proof.
intros Hab Hb. unfold JS.substring, JS.clampIndex, JS.len in *.
rewrite chars_substring. f_equal; [lia|]. f_equal. lia.
Qed.

Lemma len_chars s : JS.len s = Z.of_nat (length (list_ascii_of_string s)).
Proof. unfold JS.len. now rewrite length_list_ascii. Qed.

Lemma len_append a b : JS.len (a +:+ b) = JS.len a + JS.len b.
Proof.
rewrite !len_chars, chars_append, length_app. lia.
Qed.

Lemma len_nonneg s : 0 <= JS.len s.
Proof. unfold JS.len. lia. Qed.

(** The two cuts of one splice, on a text whose first [bound] characters
    are still the original ones. *)
Lemma cut_before text tail a bound :
  0 <= a <= bound -> bound <= JS.len text ->
  JS.substring (JS.substring text 0 bound +:+ tail) 0 a
  = JS.substring text 0 a.
Proof.
intros Ha Hb. apply chars_inj.
assert (Hlen : JS.len (JS.substring text 0 bound) = bound).
{ unfold JS.len. rewrite js_substring_length; lia. }
rewrite chars_js_substring; [|lia|].
2:{ rewrite len_append. pose proof (len_nonneg tail). lia. }
rewrite chars_js_substring by lia.
rewrite chars_append, chars_js_substring by lia.
change (Z.to_nat 0) with 0%nat. rewrite !skipn_O, !Z.sub_0_r.
rewrite len_chars in Hb.
rewrite List.firstn_app, List.firstn_firstn.
rewrite length_firstn.
replace (Z.to_nat a - Init.Nat.min (Z.to_nat bound)
                       (length (list_ascii_of_string text)))%nat
  with 0%nat by lia.
simpl. rewrite app_nil_r. f_equal. lia.
Qed.

Lemma cut_after text tail e bound :
  0 <= e <= bound -> bound <= JS.len text ->
  JS.substringFrom (JS.substring text 0 bound +:+ tail) e
  = JS.substring text e bound +:+ tail.
Proof.
intros He Hb. apply chars_inj. unfold JS.substringFrom.
assert (Hlen : JS.len (JS.substring text 0 bound) = bound).
{ unfold JS.len. rewrite js_substring_length; lia. }
assert (Htot : JS.len (JS.substring text 0 bound +:+ tail)
               = bound + JS.len tail).
{ rewrite len_append. lia. }
pose proof (len_chars tail) as Ht.
rewrite chars_js_substring by lia.
rewrite !chars_append, !chars_js_substring by lia.
change (Z.to_nat 0) with 0%nat. rewrite !skipn_O, Z.sub_0_r.
rewrite len_chars in Hb.
rewrite Htot.
set (T := list_ascii_of_string text) in *.
set (L := list_ascii_of_string tail) in *.
rewrite List.skipn_app, length_firstn.
replace (Z.to_nat e - Init.Nat.min (Z.to_nat bound) (length T))%nat
  with 0%nat by lia.
rewrite skipn_O.
rewrite List.firstn_all2.
2:{ rewrite length_app, length_skipn, length_firstn. lia. }
f_equal. rewrite skipn_firstn_comm. f_equal. lia.
Qed.

Lemma append_assoc a b c : (a +:+ b) +:+ c = a +:+ (b +:+ c).
Proof. apply chars_inj. now rewrite !chars_append, app_assoc. Qed.

Lemma weave_snoc repl text asc : forall pos d stop,
  weave repl text pos (asc ++ [d]) stop
  = weave repl text pos asc (startIndex d) +:+ repl d
      +:+ JS.substring text (endIndex d) stop.
Proof.
induction asc as [|x asc IH]; intros pos d stop; simpl; [reflexivity|].
rewrite IH. now rewrite !append_assoc.
Qed.

Lemma weave_ext repl repl' text asc : forall pos stop,
  (forall d, repl d = repl' d) ->
  weave repl text pos asc stop = weave repl' text pos asc stop.
Proof.
induction asc as [|x asc IH]; intros pos stop H; simpl; [reflexivity|].
now rewrite H, (IH _ _ H).
Qed.

(** ** The sanitizer's state *)

Lemma hashValue_spec s v :
  coherent s ->
  fst (DataSanitizer.hashValue s v)
  = DataSanitizer.hashString (DataSanitizer.hashSalt (DataSanitizer.config s)) v
  /\ coherent (snd (DataSanitizer.hashValue s v))
  /\ DataSanitizer.config (snd (DataSanitizer.hashValue s v))
     = DataSanitizer.config s.
Proof.
intros H. unfold DataSanitizer.hashValue.
destruct (DataSanitizer.hashCache s !! v) as [cached|] eqn:E; simpl.
- split; [now apply H|]. split; [exact H|reflexivity].
- split; [reflexivity|]. split; [|reflexivity].
  intros k w. unfold coherent in H. simpl.
  destruct (decide (v = k)) as [->|Hne].
  + rewrite lookup_insert_eq. congruence.
  + rewrite lookup_insert_ne by exact Hne. apply H.
Qed.

Lemma spec_replacement_config s s' d :
  DataSanitizer.config s = DataSanitizer.config s' ->
  spec_replacement s d = spec_replacement s' d.
Proof.
intros H.
unfold spec_replacement, DataSanitizer.getStrategyForPIIType,
  DataSanitizer.partialMaskValue, DataSanitizer.maskValue.
now rewrite H.
Qed.

Lemma replacementText_config s s' d :
  DataSanitizer.config s = DataSanitizer.config s' ->
  replacementText s d = replacementText s' d.
Proof.
intros H. unfold replacementText. now rewrite (spec_replacement_config s s').
Qed.

Lemma applySanitizationStrategy_spec s d :
  coherent s ->
  let r := DataSanitizer.applySanitizationStrategy s (value d) (type d)
             (DataSanitizer.getStrategyForPIIType s (type d)) in
  fst r = spec_replacement s d
  /\ coherent (snd r)
  /\ DataSanitizer.config (snd r) = DataSanitizer.config s.
Proof.
intros H. cbv zeta. unfold spec_replacement, DataSanitizer.applySanitizationStrategy.
destruct (DataSanitizer.getStrategyForPIIType s (type d)); simpl;
  try (split; [reflexivity|split; [exact H|reflexivity]]).
destruct (hashValue_spec s (value d) H) as [H1 [H2 H3]].
destruct (DataSanitizer.hashValue s (value d)) as [h s']. simpl in *.
split; [now rewrite H1|]. split; assumption.
Qed.

Lemma pushAudit_coherent s a :
  coherent s -> coherent (DataSanitizer.pushAudit s a).
Proof. intros H. exact H. Qed.

(** One splice: when the strategy yields [r], the step replaces the span
    in the current text and leaves a coherent state with the same
    configuration. *)
Lemma sanitizeStep_spec now s cur acts dets d r :
  coherent s -> spec_replacement s d = Ok r ->
  exists acts' dets' s',
    DataSanitizer.sanitizeStep now s (cur, acts, dets) d
    = (Ok (JS.substring cur 0 (startIndex d) +:+ r
             +:+ JS.substringFrom cur (endIndex d), acts', dets'), s')
    /\ coherent s'
    /\ DataSanitizer.config s' = DataSanitizer.config s.
Proof.
intros H Hr. unfold DataSanitizer.sanitizeStep.
destruct (applySanitizationStrategy_spec s d H) as [H1 [H2 H3]].
destruct (DataSanitizer.applySanitizationStrategy s (value d) (type d) _)
  as [res s1]. simpl in *. rewrite H1, Hr.
destruct (hashValue_spec s1 (value d) H2) as [_ [H5 H6]].
destruct (DataSanitizer.hashValue s1 (value d)) as [h s2]. simpl in *.
do 3 eexists. split; [reflexivity|].
split; [now apply pushAudit_coherent|]. simpl. congruence.
Qed.

Lemma sanitizeLoop_cons now s acc d L :
  DataSanitizer.sanitizeLoop now s acc (d :: L)
  = match DataSanitizer.sanitizeStep now s acc d with
    | (Throw m, s') => (Throw m, s')
    | (Ok acc', s') => DataSanitizer.sanitizeLoop now s' acc' L
    end.
Proof. reflexivity. Qed.

(** The loop over the detections in processing order. *)
Lemma sanitizeLoop_spec now text L : forall s tail bound acts dets,
  coherent s -> chain bound L -> bound <= JS.len text ->
  Forall (fun d => exists r, spec_replacement s d = Ok r) L ->
  exists acts' dets' s',
    DataSanitizer.sanitizeLoop now s
      (JS.substring text 0 bound +:+ tail, acts, dets) L
    = (Ok (weave (replacementText s) text 0 (rev L) bound +:+ tail,
           acts', dets'), s').
Proof.
induction L as [|d L IH]; intros s tail bound acts dets Hs Hch Hb Hok.
- simpl. do 3 eexists. reflexivity.
- simpl in Hch. destruct Hch as [Hd [He Hch]].
  inversion Hok as [|? ? [r Hr] Hok']; subst.
  destruct (sanitizeStep_spec now s (JS.substring text 0 bound +:+ tail)
              acts dets d r Hs Hr) as [acts1 [dets1 [s1 [Hstep [Hs1 Hc1]]]]].
  rewrite sanitizeLoop_cons, Hstep.
  rewrite cut_before, cut_after by lia.
  assert (Hok1 : Forall (fun x => exists r, spec_replacement s1 x = Ok r) L).
  { eapply List.Forall_impl; [|exact Hok'].
    intros x [rx Hx]. exists rx.
    now rewrite (spec_replacement_config s1 s). }
  assert (Hb1 : startIndex d <= JS.len text) by lia.
  destruct (IH s1 (r +:+ JS.substring text (endIndex d) bound +:+ tail)
              (startIndex d) acts1 dets1 Hs1 Hch Hb1 Hok1)
    as [acts2 [dets2 [s2 H2]]].
  rewrite H2. do 3 eexists. f_equal. f_equal. f_equal.
  simpl rev. rewrite weave_snoc.
  assert (Er : replacementText s d = r).
  { unfold replacementText. now rewrite Hr. }
  rewrite Er, !append_assoc.
  rewrite (weave_ext (replacementText s1) (replacementText s)); [reflexivity|].
  intros x. now apply replacementText_config.
Qed.

(** ** From the claim's hypotheses to the processing order *)

Lemma byStartDescending_total a b :
  DataSanitizer.byStartDescending a b = Gt ->
  DataSanitizer.byStartDescending b a <> Gt.
Proof.
unfold DataSanitizer.byStartDescending. rewrite !Z.compare_gt_iff. lia.
Qed.

Lemma byStartDescending_spec a b :
  notAfter DataSanitizer.byStartDescending a b <-> startsBefore b a.
Proof.
unfold notAfter, DataSanitizer.byStartDescending, startsBefore.
rewrite Z.compare_gt_iff. lia.
Qed.

Lemma sortDescending_sorted ds :
  StronglySorted (fun a b => startsBefore b a)
                 (JS.sort DataSanitizer.byStartDescending ds).
Proof.
eapply StronglySorted_impl; [intros a b; apply byStartDescending_spec|].
apply sort_strongly_sorted; [apply byStartDescending_total|].
intros a b c H1 H2. apply byStartDescending_spec.
apply (proj1 (byStartDescending_spec _ _)) in H1.
apply (proj1 (byStartDescending_spec _ _)) in H2.
unfold startsBefore in *. lia.
Qed.

Lemma StronglySorted_snoc {A} (R : A -> A -> Prop) l x :
  StronglySorted R l -> Forall (fun a => R a x) l ->
  StronglySorted R (l ++ [x]).
Proof.
induction 1 as [|a l Hl IH Ha]; intros Hx; simpl.
- repeat constructor.
- inversion Hx; subst. constructor; [now apply IH|].
  apply Forall_app. split; [exact Ha|]. now repeat constructor.
Qed.

Lemma StronglySorted_rev {A} (R : A -> A -> Prop) l :
  StronglySorted (fun a b => R b a) l -> StronglySorted R (rev l).
Proof.
induction 1 as [|a l Hl IH Ha]; simpl; [constructor|].
apply StronglySorted_snoc; [exact IH|].
apply List.Forall_forall. intros x Hx. apply in_rev in Hx.
rewrite List.Forall_forall in Ha. now apply Ha.
Qed.

Lemma chain_of_sorted L : forall bound,
  StronglySorted (fun a b => startsBefore b a) L ->
  ForallOrdPairs disjointSpans L ->
  Forall (fun d => 0 <= startIndex d < endIndex d /\ endIndex d <= bound) L ->
  chain bound L.
Proof.
induction L as [|d L IH]; intros bound Hs Hp Hv; simpl; [exact I|].
inversion Hs as [|? ? Hs' Hd]; subst.
inversion Hp as [|? ? Hd' Hp']; subst.
inversion Hv as [|? ? [Hv1 Hv2] Hv']; subst.
split; [exact Hv1|]. split; [exact Hv2|].
apply IH; try assumption.
rewrite List.Forall_forall in *. intros x Hx.
destruct (Hv' x Hx) as [Hx1 Hx2]. split; [exact Hx1|].
specialize (Hd x Hx). specialize (Hd' x Hx).
unfold startsBefore, disjointSpans, spansOverlap in *. lia.
Qed.

(** Right-to-left splicing: on pairwise non-overlapping detections with
    valid spans, when every strategy yields a value, [sanitizeText]
    returns the original text with each span replaced by that value and
    every other character kept in place. *)
Lemma sanitizeText_splices now s text ds :
  coherent s -> ds <> [] ->
  Forall (validSpan text) ds ->
  ForallOrdPairs disjointSpans ds ->
  Forall (fun d => exists r, spec_replacement s d = Ok r) ds ->
  exists res s' asc,
    DataSanitizer.sanitizeText now s text ds = (Ok res, s')
    /\ wasModified res = true
    /\ originalText res = text
    /\ Permutation asc ds
    /\ StronglySorted startsBefore asc
    /\ sanitizedText res
       = weave (replacementText s) text 0 asc (JS.len text).
Proof.
intros Hs Hne Hv Hp Hok.
set (L := JS.sort DataSanitizer.byStartDescending ds).
assert (HL : Permutation L ds) by apply sort_perm.
assert (Hch : chain (JS.len text) L).
{ apply chain_of_sorted.
  - apply sortDescending_sorted.
  - eapply pairs_perm; [|symmetry; exact HL|exact Hp].
    intros a b H Hab. apply H. now apply spansOverlap_sym.
  - eapply Permutation_Forall; [symmetry; exact HL|].
    eapply List.Forall_impl; [|exact Hv]. intros d [H1 H2]. tauto. }
assert (HokL : Forall (fun d => exists r, spec_replacement s d = Ok r) L).
{ eapply Permutation_Forall; [symmetry; exact HL|exact Hok]. }
assert (Hfull : JS.substring text 0 (JS.len text) +:+ "" = text).
{ apply chars_inj. rewrite chars_append, chars_js_substring.
  - change (Z.to_nat 0) with 0%nat.
    rewrite skipn_O, Z.sub_0_r, len_chars, Nat2Z.id, firstn_all.
    apply app_nil_r.
  - pose proof (len_nonneg text). lia.
  - lia. }
destruct (sanitizeLoop_spec now text L s "" (JS.len text) [] [] Hs Hch
            ltac:(lia) HokL) as [acts [dets [s' Hloop]]].
rewrite Hfull in Hloop.
unfold DataSanitizer.sanitizeText.
destruct ds as [|d0 ds0]; [congruence|].
fold L. rewrite Hloop.
do 3 eexists. split; [reflexivity|]. simpl.
split; [reflexivity|]. split; [reflexivity|].
split; [|split].
- rewrite <- HL. symmetry. apply Permutation_rev.
- apply StronglySorted_rev. apply sortDescending_sorted.
- apply chars_inj. rewrite chars_append. apply app_nil_r.
Qed.

(** C2 (the code departs from the claim): on the message
    ["Data: @example.com"] and the single detection of type email with
    value ["@example.com"] at [6, 18), which is non-empty, within the text
    and trivially non-overlapping, [sanitizeText] with the default
    configuration does not return a result: the partial strategy of emails
    asks for a repetition of -1 mask characters and throws. *)
Theorem sanitizeText_throws_on_empty_local_part (salt : string) (now : Z) :
  let text := "Data: @example.com"%string in
  validSpan text Scenario.domainOnly
  /\ ForallOrdPairs disjointSpans [Scenario.domainOnly]
  /\ DataSanitizer.getStrategyForPIIType (DataSanitizer.create salt) email
     = partial
  /\ fst (DataSanitizer.sanitizeText now (DataSanitizer.create salt) text
                                     [Scenario.domainOnly])
     = Throw "Invalid count value: -1".
Proof.
cbv zeta. split; [|split; [|split]].
- unfold validSpan. vm_compute. intuition discriminate.
- repeat constructor.
- reflexivity.
- vm_compute. reflexivity.
Qed.

(** The sibling strategy handles the same value. *)
Example maskValue_empty_local_part (salt : string) :
  DataSanitizer.maskValue (DataSanitizer.create salt) "@example.com" email
  = Ok "@example.com"%string.
Proof. vm_compute. reflexivity. Qed.

(** Where no strategy throws, the claim holds: an instance. *)
Example sanitizeText_two_spans :
  let text := "Contact: john@example.com or call (555) 123-4567"%string in
  let mail := {| type := email; value := "john@example.com";
                 startIndex := 9; endIndex := 25; confidence := 0.95;
                 patternName := "email_standard"; highConfidence := true |} in
  let tel := {| type := phone; value := "(555) 123-4567";
                startIndex := 34; endIndex := 48; confidence := 0.85;
                patternName := "us_phone"; highConfidence := true |} in
  match fst (DataSanitizer.sanitizeText 0 (DataSanitizer.create "salt") text
                                        [mail; tel]) with
  | Ok r =>
      sanitizedText r = "Contact: j***@example.com or call (555) ***-*567"%string
      /\ wasModified r = true
  | Throw _ => False
  end.
Proof. vm_compute. split; reflexivity. Qed.

(** ** scanLogEntry *)








(** ** Failed scans *)

(** C9, as amended: a scan that ends in a failed result leaves the scan
    history (hence what [getScanHistory] returns and the recent error rate
    of the health check) and the statistics other than the
    consent-compliance tally as they were, and the caller's log entry
    untouched, so neither classification nor sanitizedMessage is written;
    the consent manager and the policy are unchanged too.  Alerts are left
    out: those stored before a pipeline exception stay. *)
Theorem scanLogEntry_failure_keeps_history
  (env : SecurityEngine.Env) (e : SecurityEngine.t) (entry : LogEntry.t)
  (o : SecurityScanOptions) :
  let r := SecurityEngine.scanLogEntry env e entry o in
  scanSuccessful (fst (fst r)) = false ->
  snd (fst r) = entry
  /\ SecurityEngine.scanHistory (snd r) = SecurityEngine.scanHistory e
  /\ (forall scanId limit,
        SecurityEngine.getScanHistory (snd r) scanId limit
        = SecurityEngine.getScanHistory e scanId limit)
  /\ SecurityEngine.recentErrorRate (snd r) = SecurityEngine.recentErrorRate e
  /\ withoutTally (SecurityEngine.statistics (snd r))
     = withoutTally (SecurityEngine.statistics e)
  /\ SecurityEngine.consentManager (snd r) = SecurityEngine.consentManager e
  /\ SecurityEngine.securityPolicy (snd r) = SecurityEngine.securityPolicy e.
Proof.
cbv zeta.
unfold SecurityEngine.recentErrorRate, SecurityEngine.getScanHistory,
  SecurityEngine.allScans, SecurityEngine.scanLogEntry.
assert (Hgate :
  match SecurityEngine.consentGate env e o with
  | SecurityEngine.Blocked e1 | SecurityEngine.Passed _ e1 =>
      SecurityEngine.scanHistory e1 = SecurityEngine.scanHistory e
      /\ withoutTally (SecurityEngine.statistics e1)
         = withoutTally (SecurityEngine.statistics e)
      /\ SecurityEngine.consentManager e1 = SecurityEngine.consentManager e
      /\ SecurityEngine.securityPolicy e1 = SecurityEngine.securityPolicy e
  end).
{ unfold SecurityEngine.consentGate.
  destruct (SecurityEngine.truthy (userId o)); [|repeat split].
  destruct (default false (skipConsentCheck o)); [repeat split|].
  destruct (negb (isValid _)); [|repeat split].
  cbv zeta. simpl.
  destruct (requireExplicitConsent (SecurityEngine.securityPolicy e));
    repeat split. }
destruct (SecurityEngine.consentGate env e o) as [e1|consentValid e1].
- intros _. simpl. destruct Hgate as [Hh [Hs [Hc Hp]]].
  rewrite Hh. repeat split; assumption.
- destruct Hgate as [Hh [Hs [Hc Hp]]].
  destruct (PIIDetector.scanText _ _ _ _) as [ds det].
  destruct (SecurityEngine.sanitizationDue _ _ _ _).
  + destruct (DataSanitizer.sanitizeText _ _ _ _) as [[res|msg] san].
    * simpl. discriminate.
    * simpl. intros _. rewrite Hh. repeat split; assumption.
  + simpl. discriminate.
Qed.

Lemma scanLogEntry_failure_keeps_history_witness :
  let e := Scenario.engine false Scenario.detectorWithHandle in
  let entry := Scenario.entry "password=hunter2 @x.io" in
  let r := SecurityEngine.scanLogEntry Scenario.env e entry
                                       (Scenario.options None) in
  scanSuccessful (fst (fst r)) = false
  /\ scanErrors (fst (fst r)) = ["Invalid count value: -1"%string]
  /\ snd (fst r) = entry
  /\ SecurityEngine.scanHistory (snd r) = SecurityEngine.scanHistory e
  /\ (forall scanId limit,
        SecurityEngine.getScanHistory (snd r) scanId limit
        = SecurityEngine.getScanHistory e scanId limit)
  /\ SecurityEngine.recentErrorRate (snd r) = SecurityEngine.recentErrorRate e
  /\ withoutTally (SecurityEngine.statistics (snd r))
     = withoutTally (SecurityEngine.statistics e)
  /\ SecurityEngine.consentManager (snd r) = SecurityEngine.consentManager e
  /\ SecurityEngine.securityPolicy (snd r) = SecurityEngine.securityPolicy e.
Proof.
cbv zeta. split; [vm_compute; reflexivity|].
split; [vm_compute; reflexivity|].
apply (scanLogEntry_failure_keeps_history Scenario.env
         (Scenario.engine false Scenario.detectorWithHandle)
         (Scenario.entry "password=hunter2 @x.io") (Scenario.options None)).
vm_compute. reflexivity.
Defined.

(** C9, as stated, fails: the scan of ["password=hunter2 @x.io"] raises the
    "high" alert for the password, then fails while sanitizing the handle;
    the failed scan has left an alert in the engine. *)
Lemma failed_scan_keeps_alert :
  let e := Scenario.engine false Scenario.detectorWithHandle in
  let r := SecurityEngine.scanLogEntry Scenario.env e
             (Scenario.entry "password=hunter2 @x.io")
             (Scenario.options None) in
  scanSuccessful (fst (fst r)) = false
  /\ SecurityEngine.alerts e = []
  /\ map (fun a => (fst a, severity (snd a))) (SecurityEngine.alerts (snd r))
     = [("alert_1"%string, high)]
  /\ ~ spec_failureAtomic Scenario.env e
         (Scenario.entry "password=hunter2 @x.io") (Scenario.options None).
Proof.
cbv zeta. split; [vm_compute; reflexivity|].
split; [reflexivity|].
split; [vm_compute; reflexivity|].
unfold spec_failureAtomic. cbv zeta. intros H.
assert (Hf : scanSuccessful
               (fst (fst (SecurityEngine.scanLogEntry Scenario.env
                            (Scenario.engine false Scenario.detectorWithHandle)
                            (Scenario.entry "password=hunter2 @x.io")
                            (Scenario.options None)))) = false)
  by (vm_compute; reflexivity).
destruct (H Hf) as [_ [_ [Ha _]]].
apply (f_equal (@length _)) in Ha. vm_compute in Ha. discriminate Ha.
Qed.

(** ** Worked instances *)

(** Two overlapping candidates: the more confident one is kept. *)
Example overlap_keeps_higher_confidence :
  let a := {| type := email; value := "user@example.com"; startIndex := 6;
              endIndex := 22; confidence := 0.95;
              patternName := "email_standard"; highConfidence := true |} in
  let b := {| type := custom; value := "@example.com"; startIndex := 10;
              endIndex := 22; confidence := 0.8;
              patternName := "custom_domain"; highConfidence := true |} in
  PIIDetector.removeOverlappingDetections [b; a] = [a].
Proof. vm_compute. reflexivity. Qed.

(** Touching spans are both kept, in start order. *)
Example touching_spans_kept :
  let a := {| type := custom; value := "ab"; startIndex := 2; endIndex := 4;
              confidence := 0.9; patternName := "p"; highConfidence := true |} in
  let b := {| type := custom; value := "cd"; startIndex := 0; endIndex := 2;
              confidence := 0.8; patternName := "q"; highConfidence := true |} in
  PIIDetector.removeOverlappingDetections [a; b] = [b; a].
Proof. vm_compute. reflexivity. Qed.

(** An SSN at confidence 0.8: the log level raises the risk score. *)
Example risk_by_log_level :
  let d := {| type := ssn; value := "123-45-6789"; startIndex := 5;
              endIndex := 16; confidence := 0.8; patternName := "ssn_standard";
              highConfidence := true |} in
  SecurityEngine.calculateRiskScore [d] error == 0.864
  /\ SecurityEngine.calculateRiskScore [d] warn == 0.792
  /\ SecurityEngine.calculateRiskScore [d] log == 0.72
  /\ SecurityEngine.calculateRiskScore [d; d; d] error == 1.
Proof. vm_compute. repeat split. Qed.

(** The SSN pattern on ["SSN: 123-45-6789"]: the cue "ssn" keeps the base
    confidence; with an invalid area number a fifth of it is left, which
    in JavaScript arithmetic is 0.16000000000000003. *)
Example ssn_confidence :
  let p := PIIDetector.mk (fun _ _ => []) "ssn_standard" ssn 0.8 None true in
  spec_confidence "SSN: 123-45-6789" p 5 "123-45-6789" == JS.double 0.8
  /\ spec_confidence "SSN: 000-12-3456" p 5 "000-12-3456"
     == JS.double 0.16000000000000003
  /\ (JS.double 0.16 < spec_confidence "SSN: 000-12-3456" p 5 "000-12-3456")%Q
  /\ spec_confidence "Random: 123-45-6789" p 8 "123-45-6789" == JS.double 0.48.
Proof. vm_compute. repeat split. Qed.

(** Doubles: the literal 0.1 is not a tenth, and the sum of 0.7 and 0.1 is
    the double below 0.8. *)
Example double_values :
  JS.double 0.1 == 3602879701896397 # 36028797018963968
  /\ JS.double 0.7 == 6305039478318694 # 9007199254740992
  /\ JS.double 0.8 == 7205759403792794 # 9007199254740992
  /\ JS.add 0.7 0.1 == 7205759403792793 # 9007199254740992
  /\ JS.add 0.7 0.1 == JS.double 0.7999999999999999
  /\ JS.geq (JS.add 0.7 0.1) 0.8 = false
  /\ JS.mul 0.8 0.2 == JS.double 0.16000000000000003
  /\ JS.double 9007199254740993 == 9007199254740992
  /\ JS.double (JS.add 0.7 0.1) == JS.add 0.7 0.1.
Proof. vm_compute. repeat split. Qed.

(** The built-in pattern for generic API keys has the base confidence 0.7;
    a key that passes its validator, with a cue in its context, has the
    confidence 0.7999999999999999, so it is not of high confidence, and a
    scan with the threshold 0.8 does not report it, while a scan with the
    default threshold does. *)
Example generic_api_key_confidence :
  let key := "Abcdefghij0123456789Abcdefghij01"%string in
  let text := ("api key: " +:+ key)%string in
  let regex (name text : string) : list (Z * string) :=
    if String.eqb name "generic_api_key" then [(9, key)] else [] in
  let detector := PIIDetector.create regex in
  let found threshold := fst (PIIDetector.scanText detector text threshold 1) in
  map (fun d => (patternName d, highConfidence d)) (found None)
  = [("generic_api_key"%string, false)]
  /\ Forall (fun d => confidence d == JS.double 0.7999999999999999) (found None)
  /\ found (Some 0.8%Q) = [].
Proof.
cbv zeta. split; [vm_compute; reflexivity|].
split; [|vm_compute; reflexivity].
vm_compute. repeat constructor.
Qed.

(** With the policy threshold 0.8 for API keys the engine does not report
    that key either: the scan succeeds without a detection. *)
Example generic_api_key_filtered :
  let key := "Abcdefghij0123456789Abcdefghij01"%string in
  let regex (name text : string) : list (Z * string) :=
    if String.eqb name "generic_api_key" then [(9, key)] else [] in
  let policy :=
    {| minConfidenceThreshold := 0.7;
       requireExplicitConsent := false;
       autoSanitizationEnabled := true;
       thresholds := fun ty => match ty with
                               | apiKey => Some 0.8%Q
                               | _ => None
                               end |} in
  let e := SecurityEngine.create policy
             (ConsentManager.create JS.utc GDPR None)
             (PIIDetector.create regex) (DataSanitizer.create "salt") in
  let result :=
    fst (fst (SecurityEngine.scanLogEntry Scenario.env e
                (Scenario.entry ("api key: " +:+ key))
                (Scenario.options None))) in
  scanSuccessful result = true
  /\ detections result = []
  /\ sensitivityLevel (classification result) = public.
Proof. vm_compute. repeat split. Qed.

Example luhn_examples :
  PIIDetector.validateCreditCard "4532015112830366" = true
  /\ PIIDetector.validateCreditCard "4532015112830367" = false.
Proof. vm_compute. split; reflexivity. Qed.

(** An append to a full log drops the oldest entry and keeps the newest. *)
Example append_to_full_log :
  let entry i :=
    {| AuditLogEntry.id := "audit";
       AuditLogEntry.timestamp := i;
       AuditLogEntry.eventType := consent_given;
       AuditLogEntry.userId := "u";
       AuditLogEntry.details := RetentionDetails 0 0 "c";
       AuditLogEntry.ipAddress := "";
       AuditLogEntry.userAgent := "";
       AuditLogEntry.compliance := (true, false, false) |} in
  let full := map (fun i => entry (Z.of_nat i)) (seq 0 (Z.to_nat 10000)) in
  let after := ConsentManager.addAuditLogEntry full (entry 10000) in
  Z.of_nat (length after) = 10000
  /\ AuditLogEntry.timestamp <$> head after = Some 1
  /\ AuditLogEntry.timestamp <$> last after = Some 10000.
Proof. vm_compute. repeat split. Qed.

(** Granting and then withdrawing one purpose. *)
Example grant_then_withdraw :
  let env := {| ConsentManager.now := 1700000000000;
                ConsentManager.freshId := fun _ => "id"%string |} in
  let m0 := ConsentManager.create JS.utc BOTH None in
  let m1 := snd (ConsentManager.recordConsent m0 env "alice"
                   [logging; analytics] true "10.0.0.1" "agent") in
  let m2 := snd (ConsentManager.withdrawConsent m1 env "alice" [analytics]
                                                "10.0.0.1" "agent") in
  ConsentPreferences.piiProcessing <$> ConsentManager.preferences m1 !! "alice"%string
  = Some granted
  /\ ConsentPreferences.piiProcessing <$> ConsentManager.preferences m2 !! "alice"%string
     = Some withdrawn
  /\ isValid (ConsentManager.verifyConsent m2 1700000000001 "alice" logging) = true
  /\ isValid (ConsentManager.verifyConsent m2 1700000000001 "alice" analytics) = false
  /\ length (ConsentManager.auditLog m2) = 3%nat.
Proof. vm_compute. repeat split. Qed.

(** * Further properties of the detector *)

(** ** Luhn validation detects every single-digit error *)

Lemma digitsOf_append a b :
  JS.digitsOf (a +:+ b) = JS.digitsOf a +:+ JS.digitsOf b.
Proof.
induction a as [|c a IH]; simpl; [reflexivity|].
destruct (JS.isDigit c); simpl; now rewrite IH.
Qed.

Lemma digitValues_middle a b c :
  JS.isDigit c = true ->
  digitValues (a +:+ String c b)
  = digitValues a ++ PIIDetector.digitValue c :: digitValues b.
Proof.
intros Hc. unfold digitValues.
rewrite digitsOf_append, chars_append, map_app. simpl. now rewrite Hc.
Qed.

Lemma luhnChecksum_middle l1 : forall doubled l2,
  exists rest (double_x : bool),
    forall y,
      luhnChecksum doubled (l1 ++ y :: l2)
      = rest + (if double_x then luhnDouble y else y).
Proof.
induction l1 as [|z l1 IH]; intros doubled l2; simpl.
- exists (luhnChecksum (negb doubled) l2), doubled. intros y. lia.
- destruct (IH (negb doubled) l2) as [rest [dx H]].
  exists ((if doubled then luhnDouble z else z) + rest), dx.
  intros y. rewrite H. lia.
Qed.

Lemma luhnDouble_digit x y :
  0 <= x <= 9 -> 0 <= y <= 9 -> x <> y ->
  (luhnDouble x - luhnDouble y) mod 10 <> 0.
Proof.
intros Hx Hy Hxy E. apply Z.mod_divide in E; [|lia]. destruct E as [k E].
unfold luhnDouble in E.
destruct (2 * x >? 9) eqn:Gx; destruct (2 * y >? 9) eqn:Gy;
  rewrite ?Z.gtb_ltb, ?Z.ltb_lt, ?Z.ltb_ge in *; lia.
Qed.

Lemma digitValue_inj c c' :
  PIIDetector.digitValue c = PIIDetector.digitValue c' -> c = c'.
Proof.
unfold PIIDetector.digitValue. intros H.
rewrite <- (ascii_nat_embedding c), <- (ascii_nat_embedding c').
f_equal. lia.
Qed.

(** X1.  [validateCreditCard]: a card number that passes validation no
    longer passes once any one of its digits is replaced by a different
    digit; the characters around the digit, digits or not, are
    arbitrary. *)
Theorem validateCreditCard_single_digit_error (a b : string) (c c' : ascii) :
  JS.isDigit c = true -> JS.isDigit c' = true -> c <> c' ->
  PIIDetector.validateCreditCard (a +:+ String c b) = true ->
  PIIDetector.validateCreditCard (a +:+ String c' b) = false.
Proof.
intros Hc Hc' Hne. rewrite !validateCreditCard_spec. unfold spec_luhnValid.
rewrite !digitValues_middle by assumption.
rewrite !length_app. simpl length.
rewrite !rev_app_distr. simpl rev. rewrite <- !app_assoc. simpl app.
destruct (luhnChecksum_middle (rev (digitValues b)) false (rev (digitValues a)))
  as [rest [dx H]].
rewrite !H.
intros Hv. apply andb_true_iff in Hv. destruct Hv as [Hrange Hsum].
rewrite Hrange. simpl. apply Z.eqb_eq in Hsum. apply Z.eqb_neq.
pose proof (isDigit_value _ Hc) as Rc. pose proof (isDigit_value _ Hc') as Rc'.
assert (Hd : PIIDetector.digitValue c <> PIIDetector.digitValue c').
{ intros E. apply Hne. now apply digitValue_inj. }
intros Hsum'.
destruct dx.
- apply (luhnDouble_digit _ _ Rc Rc' Hd).
  apply Z.mod_divide in Hsum; [|lia]. apply Z.mod_divide in Hsum'; [|lia].
  destruct Hsum as [k Hk]. destruct Hsum' as [k' Hk'].
  apply Z.mod_divide; [lia|]. exists (k - k'). lia.
- apply Z.mod_divide in Hsum; [|lia]. apply Z.mod_divide in Hsum'; [|lia].
  destruct Hsum as [k Hk]. destruct Hsum' as [k' Hk']. lia.
Qed.

Lemma validateCreditCard_single_digit_error_witness :
  PIIDetector.validateCreditCard "4111-1111-1111-1111" = true
  /\ PIIDetector.validateCreditCard "4111-1111-1171-1111" = false.
Proof.
split; [reflexivity|].
apply (validateCreditCard_single_digit_error "4111-1111-11" "1-1111" "1" "7");
  [reflexivity | reflexivity | discriminate | reflexivity].
Defined.

(** ** What every returned detection satisfies *)

(** ** Binary64 arithmetic *)

Lemma roundHalfEven_nonneg n d : 0 <= n -> 0 < d -> 0 <= JS.roundHalfEven n d.
Proof.
intros Hn Hd. unfold JS.roundHalfEven. cbv zeta.
assert (0 <= n / d) by (apply Z.div_pos; lia).
repeat match goal with |- context [if ?c then _ else _] => destruct c end; lia.
Qed.

Lemma roundHalfEven_le n d m :
  0 < d -> n <= m * d -> JS.roundHalfEven n d <= m.
Proof.
intros Hd Hn. unfold JS.roundHalfEven. cbv zeta.
pose proof (Z.div_mod n d ltac:(lia)) as E.
pose proof (Z.mod_pos_bound n d Hd) as Hr.
assert (Hq : n / d <= m) by (apply Z.div_le_upper_bound; lia).
destruct (2 * (n mod d) <? d) eqn:E1; [exact Hq|].
apply Z.ltb_ge in E1.
assert (n / d < m) by nia.
repeat match goal with |- context [if ?c then _ else _] => destruct c end; lia.
Qed.

Lemma floorLog2_le_0 n d : 0 < n <= d -> JS.floorLog2 n d <= 0.
Proof.
intros H. unfold JS.floorLog2. cbv zeta.
pose proof (Z.log2_le_mono n d ltac:(lia)).
destruct (_ <=? _); lia.
Qed.

(** Rounding keeps a number between 0 and 1 there: 0 and 1 are
    doubles. *)
Lemma double_range x : (0 <= x <= 1)%Q -> (0 <= JS.double x <= 1)%Q.
Proof.
destruct x as [n d]. unfold Qle. simpl. intros [H0 H1].
unfold JS.double. simpl Qnum. simpl Qden.
destruct n as [|n|n]; [split; discriminate| |lia].
unfold JS.nearestDouble. cbv zeta.
pose proof (floorLog2_le_0 (Z.pos n) (Z.pos d) ltac:(lia)) as He.
set (e := Z.max (JS.floorLog2 (Z.pos n) (Z.pos d) - 52) (-1074)).
assert (He' : -1074 <= e <= -52) by (unfold e; lia).
replace (Z.max (- e) 0) with (- e) by lia.
replace (Z.max e 0) with 0 by lia.
assert (Hp : 0 < 2 ^ (- e)) by (apply Z.pow_pos_nonneg; lia).
unfold JS.scale. replace (0 <=? e) with false by (symmetry; apply Z.leb_gt; lia).
simpl Qnum. simpl Qden. rewrite Z2Pos.id by exact Hp.
rewrite Z.pow_0_r, !Z.mul_1_r.
split.
- apply roundHalfEven_nonneg; nia.
- apply roundHalfEven_le; nia.
Qed.

Lemma mul_range a b :
  (0 <= a <= 1)%Q -> (0 <= b <= 1)%Q -> (0 <= JS.mul a b <= 1)%Q.
Proof.
intros Ha Hb. apply double_range in Ha, Hb.
unfold JS.mul. apply double_range. nra.
Qed.

Lemma double_nonneg x : (0 <= x)%Q -> (0 <= JS.double x)%Q.
Proof.
destruct x as [n d]. unfold Qle. simpl. intros H0.
unfold JS.double. simpl Qnum. simpl Qden.
destruct n as [|n|n]; [discriminate| |lia].
unfold JS.nearestDouble, JS.scale. cbv zeta.
set (e := Z.max _ _).
set (m := JS.roundHalfEven _ _).
assert (Hm : 0 <= m).
{ unfold m. apply roundHalfEven_nonneg.
  - apply Z.mul_nonneg_nonneg; [lia|]. apply Z.pow_nonneg. lia.
  - apply Z.mul_pos_pos; [lia|]. apply Z.pow_pos_nonneg; lia. }
destruct (0 <=? e) eqn:E; simpl.
- assert (0 <= 2 ^ e) by (apply Z.pow_nonneg; lia). nia.
- lia.
Qed.

Lemma boost_range c :
  (0 <= c)%Q -> (0 <= JS.min 1.0 (JS.add c 0.1) <= 1)%Q.
Proof.
intros Hc. unfold JS.min, JS.add.
assert (H1 : JS.double 1.0 == 1) by (vm_compute; reflexivity).
assert (H01 : (0 <= JS.double 0.1)%Q) by (vm_compute; discriminate).
pose proof (double_nonneg c Hc) as Hc'.
assert (Hsum : (0 <= JS.double c + JS.double 0.1)%Q).
{ revert H01 Hc'. generalize (JS.double 0.1), (JS.double c). intros; lra. }
pose proof (double_nonneg _ (double_nonneg _ Hsum)) as Hs.
split.
- apply Q.min_glb; [rewrite H1; lra|exact Hs].
- eapply Qle_trans; [apply Q.le_min_l|]. rewrite H1. apply Qle_refl.
Qed.

(** ** Detections of a scan *)

Lemma validateContext_range text index matched ty :
  (0 <= PIIDetector.validateContext text index matched ty <= 1)%Q.
Proof.
unfold PIIDetector.validateContext. cbv zeta.
destruct ty;
  repeat match goal with
         | |- context [if ?c then _ else _] => destruct c
         end; lra.
Qed.

Lemma applyTypeSpecificValidation_range matched ty c :
  (0 <= c <= 1)%Q ->
  (0 <= PIIDetector.applyTypeSpecificValidation matched ty c <= 1)%Q.
Proof.
intros Hc. unfold PIIDetector.applyTypeSpecificValidation.
destruct ty;
  repeat match goal with
         | |- context [if ?c then _ else _] => destruct c
         end; try exact Hc; apply mul_range; try exact Hc; lra.
Qed.

Lemma matchDetection_invariants text p m x :
  (0 <= baseConfidence p <= 1)%Q ->
  PIIDetector.matchDetection text p m = Some x ->
  (0 <= confidence x <= 1)%Q
  /\ m = (startIndex x, value x)
  /\ endIndex x = startIndex x + JS.len (value x)
  /\ highConfidence x = JS.geq (confidence x) 0.8
  /\ type x = ptype p
  /\ patternName x = name p.
Proof.
intros Hb. destruct m as [index matched]. unfold PIIDetector.matchDetection.
apply double_range in Hb.
set (boosted := match validator p with
                | Some v => if negb (v matched) then None
                            else Some (JS.min 1.0
                                         (JS.add (JS.double (baseConfidence p))
                                                 0.1))%Q
                | None => Some (JS.double (baseConfidence p))
                end).
assert (Hboost : forall c, boosted = Some c -> (0 <= c <= 1)%Q).
{ subst boosted. intros c. destruct (validator p) as [v|].
  - destruct (negb (v matched)); [discriminate|].
    intros [= <-]. apply boost_range, Hb.
  - now intros [= <-]. }
destruct boosted as [c|]; [|discriminate].
specialize (Hboost c eq_refl).
intros [= <-]. simpl.
set (scaled := if requiresContext p
               then JS.mul c (PIIDetector.validateContext text index matched (ptype p))
               else c).
assert (Hs : (0 <= scaled <= 1)%Q).
{ subst scaled. destruct (requiresContext p); [|assumption].
  apply mul_range; [assumption|apply validateContext_range]. }
pose proof (applyTypeSpecificValidation_range matched (ptype p) scaled Hs).
repeat split; try reflexivity; lra.
Qed.

(** X2.  [scanText]: when every registered pattern has a base confidence
    between 0 and 1, every detection returned has a confidence between 0
    and 1 that is at least the threshold of the call (0.7 by default), was
    matched by a registered pattern at its start index, carries that
    pattern's type and name, ends where its value ends, and is flagged
    [highConfidence] exactly when its confidence is at least 0.8.  The
    confidence is the double the code computes, and [JS.geq] compares
    as JavaScript does. *)
Theorem scanText_detections_well_formed
  (d : PIIDetector.t) (text : string) (minConfidence : option Q) (scanTime : Q) :
  Forall (fun p => (0 <= baseConfidence p <= 1)%Q) (PIIDetector.allPatterns d) ->
  Forall
    (fun x =>
       JS.geq (confidence x) (default 0.7%Q minConfidence) = true
       /\ (0 <= confidence x <= 1)%Q
       /\ endIndex x = startIndex x + JS.len (value x)
       /\ highConfidence x = JS.geq (confidence x) 0.8
       /\ exists p, In p (PIIDetector.allPatterns d)
                    /\ In (startIndex x, value x) (pattern p text)
                    /\ type x = ptype p /\ patternName x = name p)
    (fst (PIIDetector.scanText d text minConfidence scanTime)).
Proof.
intros Hbase. apply List.Forall_forall. intros x Hx.
unfold PIIDetector.scanText in Hx. simpl in Hx.
destruct (removeOverlapping_correct
            (PIIDetector.candidates d text (default 0.7%Q minConfidence)))
  as (_ & _ & Hin & _).
apply Hin in Hx. apply candidates_In in Hx.
destruct Hx as (p & m & Hp & Hm & Hmatch & Hmin).
rewrite List.Forall_forall in Hbase.
destruct (matchDetection_invariants _ _ _ _ (Hbase p Hp) Hmatch)
  as (Hrange & -> & Hend & Hhigh & Hty & Hname).
split; [exact Hmin|]. split; [exact Hrange|].
split; [exact Hend|]. split; [exact Hhigh|].
exists p. auto.
Qed.

Lemma scanText_detections_well_formed_witness :
  Forall (fun p => (0 <= baseConfidence p <= 1)%Q)
         (PIIDetector.allPatterns Scenario.detectorWithHandle)
  /\ Forall
       (fun x =>
          JS.geq (confidence x) 0.7 = true
          /\ (0 <= confidence x <= 1)%Q
          /\ endIndex x = startIndex x + JS.len (value x)
          /\ highConfidence x = JS.geq (confidence x) 0.8
          /\ exists p, In p (PIIDetector.allPatterns Scenario.detectorWithHandle)
                       /\ In (startIndex x, value x)
                             (pattern p "password=hunter2 @x.io")
                       /\ type x = ptype p /\ patternName x = name p)
       (fst (PIIDetector.scanText Scenario.detectorWithHandle
               "password=hunter2 @x.io" None 1)).
Proof.
assert (H : Forall (fun p => (0 <= baseConfidence p <= 1)%Q)
                   (PIIDetector.allPatterns Scenario.detectorWithHandle)).
{ repeat constructor; simpl; unfold Qle; simpl; lia. }
split; [exact H|].
exact (scanText_detections_well_formed Scenario.detectorWithHandle
         "password=hunter2 @x.io" None 1 H).
Defined.

(** ** The loop of findPatternMatches *)

Lemma matchDetection_None text p m :
  PIIDetector.matchDetection text p m = None
  <-> validatorAccepts p (snd m) = false.
Proof.
destruct m as [index matched].
pose proof (matchDetection_spec text p index matched) as H.
destruct (PIIDetector.matchDetection text p (index, matched)); simpl.
- destruct H as [H _]. rewrite H. split; discriminate.
- tauto.
Qed.

Lemma findPatternMatchesLoop_ends text p remaining : forall fuel matches,
  existsb (fun m => String.eqb (snd m) "" && negb (validatorAccepts p (snd m)))
          remaining = false ->
  (length remaining < fuel)%nat ->
  PIIDetector.findPatternMatchesLoop fuel text p remaining matches
  = Some (matches ++ PIIDetector.collect (PIIDetector.matchDetection text p)
                                         remaining).
Proof.
induction remaining as [|m rest IH]; intros fuel matches Hno Hfuel.
- destruct fuel; [simpl in Hfuel; lia|]. simpl. now rewrite app_nil_r.
- destruct fuel; [simpl in Hfuel; lia|]. simpl in Hno, Hfuel.
  apply orb_false_iff in Hno. destruct Hno as [Hm Hrest].
  cbn [PIIDetector.findPatternMatchesLoop PIIDetector.collect].
  destruct (PIIDetector.matchDetection text p m) as [d|] eqn:E.
  + rewrite IH by (assumption || lia). now rewrite <- app_assoc.
  + apply (proj1 (matchDetection_None text p m)) in E.
    rewrite E in Hm. simpl in Hm.
    rewrite andb_true_r in Hm. rewrite Hm.
    apply IH; [assumption|lia].
Qed.

Lemma findPatternMatchesLoop_hangs text p : forall fuel remaining matches,
  existsb (fun m => String.eqb (snd m) "" && negb (validatorAccepts p (snd m)))
          remaining = true ->
  PIIDetector.findPatternMatchesLoop fuel text p remaining matches = None.
Proof.
induction fuel as [|fuel IH]; intros remaining matches Hex; [reflexivity|].
destruct remaining as [|m rest]; [discriminate|].
cbn [PIIDetector.findPatternMatchesLoop]. simpl in Hex.
destruct (PIIDetector.matchDetection text p m) as [d|] eqn:E.
- assert (Hacc : validatorAccepts p (snd m) = true).
  { destruct (validatorAccepts p (snd m)) eqn:A; [reflexivity|].
    apply (proj2 (matchDetection_None text p m)) in A. congruence. }
  rewrite Hacc, andb_false_r in Hex. simpl in Hex. now apply IH.
- destruct (String.eqb (snd m) "") eqn:Em.
  + apply IH. simpl. rewrite Em.
    apply (proj1 (matchDetection_None text p m)) in E. now rewrite E.
  + simpl in Hex. now apply IH.
Qed.

(** X30.  The [while] loop of [findPatternMatches] ends exactly when no
    match of the pattern in the text is both empty and rejected by the
    validator: it then ends within one turn per match, having pushed
    the detections of the matches that the validator accepts, in order;
    after an empty match that the validator rejects it never ends,
    whatever the number of turns. *)
Theorem findPatternMatches_loop (text : string) (p : PIIPattern) :
  if rejectsEmptyMatch text p
  then forall fuel,
         PIIDetector.findPatternMatchesLoop fuel text p (pattern p text) []
         = None
  else forall fuel,
         (length (pattern p text) < fuel)%nat ->
         PIIDetector.findPatternMatchesLoop fuel text p (pattern p text) []
         = Some (PIIDetector.findPatternMatches text p).
Proof.
unfold rejectsEmptyMatch.
destruct (existsb _ (pattern p text)) eqn:E.
- intros fuel. now apply findPatternMatchesLoop_hangs.
- intros fuel Hfuel.
  now rewrite findPatternMatchesLoop_ends by assumption.
Qed.

(** ** Custom patterns *)

Lemma findIndex_spec {A} (f : A -> bool) l :
  match JS.findIndex f l =? -1 with
  | true => Forall (fun x => f x = false) l
  | false =>
      exists l1 x l2,
        l = l1 ++ x :: l2 /\ f x = true /\ Forall (fun y => f y = false) l1
        /\ JS.findIndex f l = Z.of_nat (length l1)
  end.
Proof.
induction l as [|y l IH]; simpl; [constructor|].
destruct (f y) eqn:Fy; simpl.
- exists [], y, l. repeat split; auto.
- destruct (JS.findIndex f l =? -1) eqn:E; simpl.
  + constructor; assumption.
  + destruct IH as (l1 & x & l2 & -> & Fx & Hl1 & Hi).
    assert (G : (JS.findIndex f (l1 ++ x :: l2) + 1 =? -1) = false).
    { apply Z.eqb_neq. lia. }
    rewrite G. exists (y :: l1), x, l2. simpl length.
    repeat split; auto. lia.
Qed.

Lemma removeAt_middle {A} (l1 : list A) x l2 :
  JS.removeAt (Z.of_nat (length l1)) (l1 ++ x :: l2) = l1 ++ l2.
Proof.
unfold JS.removeAt. rewrite Nat2Z.id.
rewrite List.firstn_app, List.firstn_all, Nat.sub_diag. simpl firstn.
rewrite app_nil_r. f_equal.
rewrite List.skipn_app.
rewrite List.skipn_all2 by lia.
replace (length l1 + 1 - length l1)%nat with 1%nat by lia. reflexivity.
Qed.

(** X3.  [removeCustomPattern]: the call returns [true] exactly when a
    custom pattern has the given name; it then removes the first such
    pattern and no other, so a later pattern of the same name stays
    registered.  When it returns [false] the detector is unchanged.  The
    built-in patterns and the performance counters are never touched. *)
Theorem removeCustomPattern_removes_first
  (d : PIIDetector.t) (patternName : string) :
  let r := PIIDetector.removeCustomPattern d patternName in
  (if fst r
   then exists before p after,
          PIIDetector.customPatterns d = before ++ p :: after
          /\ name p = patternName
          /\ Forall (fun q => name q <> patternName) before
          /\ PIIDetector.customPatterns (snd r) = before ++ after
   else Forall (fun q => name q <> patternName) (PIIDetector.customPatterns d)
        /\ snd r = d)
  /\ PIIDetector.patterns (snd r) = PIIDetector.patterns d
  /\ PIIDetector.performanceMetrics (snd r) = PIIDetector.performanceMetrics d.
Proof.
unfold PIIDetector.removeCustomPattern. cbv zeta.
pose proof (findIndex_spec (fun p => String.eqb (name p) patternName)
                           (PIIDetector.customPatterns d)) as H.
destruct (JS.findIndex _ (PIIDetector.customPatterns d) =? -1) eqn:E; simpl.
- repeat split; auto.
  eapply List.Forall_impl; [|exact H]. simpl. intros q Hq.
  now apply String.eqb_neq.
- destruct H as (l1 & x & l2 & Hl & Hx & Hl1 & Hi).
  repeat split; auto.
  exists l1, x, l2. repeat split; auto.
  + now apply String.eqb_eq.
  + eapply List.Forall_impl; [|exact Hl1]. simpl. intros q Hq.
    now apply String.eqb_neq.
  + rewrite Hi, Hl. apply removeAt_middle.
Qed.

(** X4.  [addCustomPattern] accepts a pattern whose name is not empty and
    puts it after the custom patterns registered so far; when no custom
    pattern already had that name, a following [removeCustomPattern] of
    the name returns [true] and gives back the detector as it was. *)
Theorem addCustomPattern_then_remove (d : PIIDetector.t) (p : PIIPattern) :
  Forall (fun q => name q <> name p) (PIIDetector.customPatterns d) ->
  name p <> ""%string ->
  exists d',
    PIIDetector.addCustomPattern d p = Ok d'
    /\ PIIDetector.customPatterns d' = PIIDetector.customPatterns d ++ [p]
    /\ PIIDetector.removeCustomPattern d' (name p) = (true, d).
Proof.
intros Hfresh Hname. unfold PIIDetector.addCustomPattern.
apply String.eqb_neq in Hname. rewrite Hname.
eexists. split; [reflexivity|]. split; [reflexivity|].
unfold PIIDetector.removeCustomPattern. cbv zeta. simpl PIIDetector.customPatterns.
pose proof (findIndex_spec (fun q => String.eqb (name q) (name p))
                           (PIIDetector.customPatterns d ++ [p])) as H.
destruct (JS.findIndex _ (PIIDetector.customPatterns d ++ [p]) =? -1) eqn:E.
- exfalso. rewrite List.Forall_forall in H.
  assert (Hp : In p (PIIDetector.customPatterns d ++ [p])).
  { apply in_or_app. right. now left. }
  specialize (H p Hp). simpl in H. now rewrite String.eqb_refl in H.
- simpl. destruct H as (l1 & x & l2 & Hl & Hx & Hl1 & Hi).
  assert (Hlen : length l1 = length (PIIDetector.customPatterns d)).
  { destruct (Nat.lt_trichotomy (length l1)
                                (length (PIIDetector.customPatterns d)))
      as [Hlt|[Heq|Hgt]]; [exfalso|assumption|exfalso].
    - assert (Hin : In x (PIIDetector.customPatterns d)).
      { assert (Hnth : nth_error (PIIDetector.customPatterns d ++ [p])
                                 (length l1) = Some x).
        { rewrite Hl, nth_error_app2, Nat.sub_diag by lia. reflexivity. }
        rewrite nth_error_app1 in Hnth by assumption.
        eapply nth_error_In; eauto. }
      rewrite List.Forall_forall in Hfresh. apply (Hfresh x Hin).
      now apply String.eqb_eq.
    - apply (f_equal (@length _)) in Hl.
      rewrite !length_app in Hl. simpl in Hl. lia. }
  rewrite Hi, Hl, removeAt_middle.
  assert (Hsplit : l1 = PIIDetector.customPatterns d /\ x :: l2 = [p]).
  { symmetry in Hl. apply app_inj_1 in Hl; [|assumption]. exact Hl. }
  destruct Hsplit as [-> Hx2]. injection Hx2 as -> ->.
  rewrite app_nil_r. destruct d; reflexivity.
Qed.

Lemma addCustomPattern_then_remove_witness :
  exists d',
    PIIDetector.addCustomPattern Scenario.detector Scenario.handle = Ok d'
    /\ PIIDetector.customPatterns d'
       = PIIDetector.customPatterns Scenario.detector ++ [Scenario.handle]
    /\ PIIDetector.removeCustomPattern d' (name Scenario.handle)
       = (true, Scenario.detector).
Proof.
apply (addCustomPattern_then_remove Scenario.detector Scenario.handle).
- constructor.
- discriminate.
Defined.

(** ** Overlap resolution on detections that do not overlap *)

Lemma disjointSpans_sym a b : disjointSpans a b -> disjointSpans b a.
Proof. unfold disjointSpans. intros H O. apply H. now apply spansOverlap_sym. Qed.

Lemma pairs_app_inv {A} (R : A -> A -> Prop) l1 : forall l2 x,
  ForallOrdPairs R (l1 ++ x :: l2) ->
  Forall (fun a => R a x) l1 /\ ForallOrdPairs R (l1 ++ l2).
Proof.
induction l1 as [|y l1 IH]; intros l2 x H; simpl in *.
- inversion H; subst. split; [constructor|assumption].
- inversion H as [|? ? Hy Hrest]; subst.
  destruct (IH _ _ Hrest) as [H1 H2]. split.
  + constructor; [|assumption].
    rewrite List.Forall_forall in Hy. apply Hy. apply in_or_app. right. now left.
  + constructor; [|assumption].
    rewrite List.Forall_forall in *. intros z Hz. apply Hy.
    apply in_app_or in Hz. apply in_or_app. destruct Hz; [now left|right; now right].
Qed.

Lemma greedy_accepts_all l : forall filtered,
  ForallOrdPairs disjointSpans (filtered ++ l) ->
  fold_left PIIDetector.accept l filtered = filtered ++ l.
Proof.
induction l as [|x l IH]; intros filtered H; simpl.
- now rewrite app_nil_r.
- destruct (pairs_app_inv _ _ _ _ H) as [Hx _].
  assert (Hacc : PIIDetector.accept filtered x = filtered ++ [x]).
  { unfold PIIDetector.accept.
    destruct (JS.some (PIIDetector.overlaps x) filtered) eqn:E; [|reflexivity].
    exfalso. unfold JS.some in E. apply existsb_exists in E.
    destruct E as [e [He Ho]]. apply overlaps_spec in Ho.
    rewrite List.Forall_forall in Hx. apply (Hx e He).
    now apply spansOverlap_sym. }
  rewrite Hacc, IH; rewrite <- app_assoc; [reflexivity|exact H].
Qed.

(** X5.  [removeOverlappingDetections]: detections that are pairwise
    non-overlapping (touching spans included) are all kept; the result is
    the same detections ordered by start index. *)
Theorem removeOverlappingDetections_keeps_disjoint
  (detections : list PIIDetectionResult) :
  ForallOrdPairs disjointSpans detections ->
  Permutation (PIIDetector.removeOverlappingDetections detections) detections
  /\ StronglySorted startsBefore
       (PIIDetector.removeOverlappingDetections detections).
Proof.
intros Hd. split.
2:{ apply (removeOverlapping_correct detections). }
unfold PIIDetector.removeOverlappingDetections.
destruct (length detections <=? 1)%nat; [reflexivity|]. cbv zeta.
rewrite (greedy_accepts_all _ []).
- simpl app. etransitivity; apply sort_perm.
- simpl app. eapply pairs_perm; [apply disjointSpans_sym| |exact Hd].
  symmetry. apply sort_perm.
Qed.

Lemma removeOverlappingDetections_keeps_disjoint_witness :
  let a := {| type := email; value := "a@b.io"; startIndex := 10;
              endIndex := 16; confidence := 0.9; patternName := "email_standard";
              highConfidence := true |} in
  let b := {| type := ipAddress; value := "10.0.0.1"; startIndex := 2;
              endIndex := 10; confidence := 0.95; patternName := "ipv4";
              highConfidence := true |} in
  ForallOrdPairs disjointSpans [a; b]
  /\ Permutation (PIIDetector.removeOverlappingDetections [a; b]) [a; b]
  /\ StronglySorted startsBefore
       (PIIDetector.removeOverlappingDetections [a; b]).
Proof.
intros a b.
assert (H : ForallOrdPairs disjointSpans [a; b]).
{ repeat constructor. unfold disjointSpans, spansOverlap. simpl. lia. }
split; [exact H|].
apply (removeOverlappingDetections_keeps_disjoint [a; b] H).
Defined.

(** ** Performance counters *)

Lemma Qsum_app l1 l2 : Qsum (l1 ++ l2) == Qsum l1 + Qsum l2.
Proof.
unfold Qsum. induction l1 as [|x l1 IH]; simpl; [ring|]. rewrite IH. ring.
Qed.

Lemma scanTexts_snoc d scans scan :
  scanTexts d (scans ++ [scan])
  = snd (PIIDetector.scanText (scanTexts d scans) (fst (fst scan))
           (snd (fst scan)) (snd scan)).
Proof. unfold scanTexts. now rewrite fold_left_app. Qed.

Lemma scanTexts_totals scans : forall d,
  let d' := scanTexts d scans in
  PIIDetector.patterns d' = PIIDetector.patterns d
  /\ PIIDetector.customPatterns d' = PIIDetector.customPatterns d
  /\ PIIDetector.totalScans (PIIDetector.performanceMetrics d')
     = PIIDetector.totalScans (PIIDetector.performanceMetrics d)
       + Z.of_nat (length scans)
  /\ PIIDetector.totalScanTimeMs (PIIDetector.performanceMetrics d')
     == PIIDetector.totalScanTimeMs (PIIDetector.performanceMetrics d)
        + Qsum (map snd scans).
Proof.
induction scans as [|scan scans IH] using rev_ind; intros d; cbv zeta.
- simpl. repeat split; try lia. unfold Qsum. simpl. ring.
- rewrite scanTexts_snoc. destruct (IH d) as (Hp & Hc & Hn & Ht).
  unfold PIIDetector.scanText. simpl.
  rewrite Hn, Ht, length_app, map_app, Qsum_app. simpl.
  repeat split; try assumption; try lia. unfold Qsum. simpl. ring.
Qed.

(** X6.  The performance counters of the detector: after
    [resetPerformanceMetrics] and any number of scans, [totalScans] is
    the number of scans, [totalScanTimeMs] the sum of their durations,
    [averageScanTimeMs] their mean and [lastScanTimeMs] the duration of
    the last one; with no scan all four are 0.  Scanning changes neither
    the built-in nor the custom patterns. *)
Theorem performanceMetrics_after_scans
  (d : PIIDetector.t) (scans : list (string * option Q * Q)) :
  let d' := scanTexts (PIIDetector.resetPerformanceMetrics d) scans in
  let m := PIIDetector.getPerformanceMetrics d' in
  let times := map snd scans in
  PIIDetector.patterns d' = PIIDetector.patterns d
  /\ PIIDetector.customPatterns d' = PIIDetector.customPatterns d
  /\ PIIDetector.totalScans m = Z.of_nat (length scans)
  /\ PIIDetector.totalScanTimeMs m == Qsum times
  /\ PIIDetector.averageScanTimeMs m
     == (if (0 <? length scans)%nat
         then Qsum times / inject_Z (Z.of_nat (length scans)) else 0)
  /\ PIIDetector.lastScanTimeMs m = List.last times 0%Q.
Proof.
cbv zeta. unfold PIIDetector.getPerformanceMetrics.
destruct (scanTexts_totals scans (PIIDetector.resetPerformanceMetrics d))
  as (Hp & Hc & Hn & Ht).
simpl in Hp, Hc, Hn, Ht.
split; [exact Hp|]. split; [exact Hc|]. split; [exact Hn|].
split; [rewrite Ht; ring|].
destruct scans as [|scan scans _] using rev_ind.
- simpl. split; reflexivity.
- rewrite scanTexts_snoc.
  destruct (scanTexts_totals scans (PIIDetector.resetPerformanceMetrics d))
    as (_ & _ & Hn' & Ht').
  simpl in Hn', Ht'.
  rewrite map_app. simpl (map snd [scan]).
  rewrite List.last_last, length_app. simpl length.
  unfold PIIDetector.scanText. simpl.
  replace (0 <? length scans + 1)%nat with true
    by (symmetry; apply Nat.ltb_lt; lia).
  split; [|reflexivity].
  rewrite Hn', Ht', Qsum_app.
  replace (0 + Z.of_nat (length scans) + 1)
    with (Z.of_nat (length scans + 1)) by lia.
  unfold Qsum. simpl.
  apply Qdiv_comp; [ring|reflexivity].
Qed.

(** * Further properties of the sanitizer *)

(** ** Which replacements can throw *)

Lemma repeat_ok s n :
  0 <= n -> JS.repeat s n = Ok (JS.repeatNat s (Z.to_nat n)).
Proof.
intros H. unfold JS.repeat.
destruct (n <? 0) eqn:E; [apply Z.ltb_lt in E; lia|reflexivity].
Qed.

Lemma maskValue_ok s value ty :
  exists r, DataSanitizer.maskValue s value ty = Ok r.
Proof.
unfold DataSanitizer.maskValue. cbv zeta.
destruct (negb (DataSanitizer.preserveFormat (DataSanitizer.config s))).
- rewrite repeat_ok by apply len_nonneg. eauto.
- destruct ty; eauto.
  unfold DataSanitizer.firstTwo.
  set (local := default EmptyString (nth_error (JS.split "@" value) 0)).
  destruct (JS.len local >? 2) eqn:E.
  + rewrite repeat_ok by (rewrite Z.gtb_ltb in E; apply Z.ltb_lt in E; lia).
    simpl. eauto.
  + rewrite repeat_ok by apply len_nonneg. simpl. eauto.
Qed.

(** The part of [value] before its first ["@"]. *)
Lemma split_head sep value :
  exists local rest, JS.split sep value = local :: rest
    /\ (local = EmptyString <->
        match value with
        | EmptyString => True
        | String c _ => c = sep
        end).
Proof.
destruct value as [|c value]; simpl.
- exists EmptyString, []. tauto.
- destruct (Ascii.eqb c sep) eqn:E.
  + apply Ascii.eqb_eq in E. exists EmptyString, (JS.split sep value). tauto.
  + apply Ascii.eqb_neq in E.
    destruct (JS.split sep value) as [|h t].
    * exists (String c EmptyString), []. split; [reflexivity|].
      split; [discriminate|tauto].
    * exists (String c h), t. split; [reflexivity|].
      split; [discriminate|tauto].
Qed.

Lemma preserveLength_guard s value :
  let preserveLength :=
    Z.min (DataSanitizer.partialPreserveLength (DataSanitizer.config s))
          (JS.len value / 3) in
  (JS.len value <=? preserveLength * 2) = true
  <-> value = EmptyString
      /\ 0 <= DataSanitizer.partialPreserveLength (DataSanitizer.config s).
Proof.
cbv zeta. rewrite Z.leb_le.
pose proof (len_nonneg value) as Hn.
assert (Hdiv : JS.len value / 3 * 3 <= JS.len value).
{ pose proof (Z.mul_div_le (JS.len value) 3). lia. }
split.
- intros H.
  assert (Hz : JS.len value = 0) by lia.
  split.
  + destruct value; [reflexivity|]. unfold JS.len in Hz. simpl in Hz. lia.
  + rewrite Hz in H. change (0 / 3) with 0 in H. lia.
- intros [-> Hp]. change (JS.len "") with 0. change (0 / 3) with 0. lia.
Qed.

Lemma partialMaskValue_ok s value ty :
  ty <> email -> exists r, DataSanitizer.partialMaskValue s value ty = Ok r.
Proof.
intros Hty. unfold DataSanitizer.partialMaskValue. cbv zeta.
destruct (JS.len value <=? _) eqn:G; [apply maskValue_ok|].
apply Z.leb_gt in G.
destruct ty; try congruence;
  try (rewrite repeat_ok by lia; simpl; eauto; fail).
- destruct (JS.len (JS.digitsOf value) >=? 8) eqn:E; [|apply maskValue_ok].
  rewrite repeat_ok by (rewrite Z.geb_leb in E; apply Z.leb_le in E; lia).
  simpl. eauto.
- destruct (JS.len (JS.digitsOf value) >=? 7) eqn:E; [|apply maskValue_ok].
  rewrite repeat_ok by (rewrite Z.geb_leb in E; apply Z.leb_le in E; lia).
  simpl. eauto.
Qed.

(** X7.  [maskValue] returns a value for every input and every
    configuration, and [partialMaskValue] throws in exactly one case: an
    email value whose part before the first ["@"] is empty (for the empty
    value, only under a negative [partialPreserveLength]); the error is
    then the [RangeError] of [repeat(-1)]. *)
Theorem partialMaskValue_throws_iff
  (s : DataSanitizer.t) (value : string) (ty : PIIType) :
  let emptyLocalPart :=
    match value with
    | EmptyString =>
        DataSanitizer.partialPreserveLength (DataSanitizer.config s) < 0
    | String c _ => c = "@"%char
    end in
  (exists r, DataSanitizer.maskValue s value ty = Ok r)
  /\ (ty = email /\ emptyLocalPart ->
      DataSanitizer.partialMaskValue s value ty
      = Throw "Invalid count value: -1")
  /\ (~ (ty = email /\ emptyLocalPart) ->
      exists r, DataSanitizer.partialMaskValue s value ty = Ok r).
Proof.
cbv zeta. split; [apply maskValue_ok|].
assert (Hother : ty <> email ->
                 exists r, DataSanitizer.partialMaskValue s value ty = Ok r)
  by apply partialMaskValue_ok.
unfold DataSanitizer.partialMaskValue in *. cbv zeta in *.
pose proof (preserveLength_guard s value) as Hguard. cbv zeta in Hguard.
set (pl := Z.min (DataSanitizer.partialPreserveLength (DataSanitizer.config s))
                 (JS.len value / 3)) in *.
destruct (split_head "@" value) as (local & rest & Hsplit & Hlocal).
split.
- intros [-> Hempty]. clear Hother.
  destruct (JS.len value <=? pl * 2) eqn:G.
  + destruct (proj1 Hguard eq_refl) as [-> Hp]. lia.
  + unfold DataSanitizer.firstTwo. rewrite Hsplit. simpl.
    assert (Hl : local = EmptyString).
    { apply Hlocal. destruct value; [exact I|exact Hempty]. }
    subst local. reflexivity.
- intros Hnot.
  destruct ty; try (apply Hother; discriminate). clear Hother.
  destruct (JS.len value <=? pl * 2) eqn:G; [apply maskValue_ok|].
  unfold DataSanitizer.firstTwo. rewrite Hsplit. simpl.
  assert (Hne : local <> EmptyString).
  { intros Hl. apply Hnot. split; [reflexivity|].
    apply Hlocal in Hl. destruct value; [|exact Hl].
    destruct (Z.lt_ge_cases
                (DataSanitizer.partialPreserveLength (DataSanitizer.config s)) 0)
      as [Hneg|Hpos]; [exact Hneg|].
    exfalso. assert (Hg : false = true).
    { apply Hguard. split; [reflexivity|lia]. }
    discriminate. }
  assert (Hlen : 1 <= JS.len local).
  { destruct local; [congruence|]. unfold JS.len. simpl. lia. }
  destruct (JS.len local <=? 4) eqn:E.
  + rewrite repeat_ok by lia. simpl. eauto.
  + apply Z.leb_gt in E. rewrite repeat_ok by lia. simpl. eauto.
Qed.

(** ** What masking leaves of a number *)

Lemma chars_of_list l : list_ascii_of_string (string_of_list_ascii l) = l.
Proof. apply list_ascii_of_string_of_list_ascii. Qed.

Lemma replaceChars_constant p m value : forall i,
  list_ascii_of_string
    (JS.replaceCharsFrom p (fun _ _ => String m EmptyString) i value)
  = map (fun c => if p c then m else c) (list_ascii_of_string value).
Proof.
induction value as [|c value IH]; intros i; simpl; [reflexivity|].
rewrite chars_append, IH. destruct (p c); reflexivity.
Qed.

Lemma digitsOf_masked m value :
  JS.isDigit m = false -> JS.digitsOf (spec_maskDigits m value) = EmptyString.
Proof.
intros Hm. unfold spec_maskDigits.
induction (list_ascii_of_string value) as [|c l IH]; simpl; [reflexivity|].
destruct (JS.isDigit c) eqn:E; [rewrite Hm|rewrite E]; exact IH.
Qed.

(** X8.  [maskValue] on a card number, SSN or phone number, with the
    format preserved and a one-character mask: every digit is replaced by
    the mask character and every other character stays in place, so the
    length is unchanged and, when the mask character is not itself a
    digit, no digit is left. *)
Theorem maskValue_masks_every_digit
  (s : DataSanitizer.t) (value : string) (ty : PIIType) (m : ascii) :
  DataSanitizer.preserveFormat (DataSanitizer.config s) = true ->
  DataSanitizer.maskCharacter (DataSanitizer.config s) = String m EmptyString ->
  In ty [creditCard; ssn; phone] ->
  DataSanitizer.maskValue s value ty = Ok (spec_maskDigits m value)
  /\ JS.len (spec_maskDigits m value) = JS.len value
  /\ (JS.isDigit m = false ->
      JS.digitsOf (spec_maskDigits m value) = EmptyString).
Proof.
intros Hf Hm Hty. split; [|split].
- unfold DataSanitizer.maskValue. cbv zeta. rewrite Hf, Hm. simpl negb.
  assert (E : JS.replaceChars JS.isDigit (fun _ _ => String m EmptyString) value
              = spec_maskDigits m value).
  { apply chars_inj. unfold JS.replaceChars, spec_maskDigits.
    now rewrite replaceChars_constant, chars_of_list. }
  simpl in Hty. destruct Hty as [<-|[<-|[<-|[]]]]; simpl; now rewrite E.
- rewrite !len_chars. unfold spec_maskDigits.
  now rewrite chars_of_list, length_map.
- apply digitsOf_masked.
Qed.

Lemma maskValue_masks_every_digit_witness :
  let s := DataSanitizer.create "salt" in
  DataSanitizer.preserveFormat (DataSanitizer.config s) = true
  /\ DataSanitizer.maskCharacter (DataSanitizer.config s) = "*"%string
  /\ In ssn [creditCard; ssn; phone]
  /\ DataSanitizer.maskValue s "123-45-6789" ssn = Ok "***-**-****"%string
  /\ JS.len "***-**-****" = JS.len "123-45-6789".
Proof.
intros s.
assert (Hty : In ssn [creditCard; ssn; phone]) by (right; left; reflexivity).
destruct (maskValue_masks_every_digit s "123-45-6789" ssn "*"
            eq_refl eq_refl Hty) as (H1 & H2 & _).
split; [reflexivity|]. split; [reflexivity|]. split; [exact Hty|].
split; [exact H1|exact H2].
Defined.

Lemma get_chars s : forall n,
  String.get n s = nth_error (list_ascii_of_string s) n.
Proof. induction s as [|c s IH]; intros [|n]; simpl; auto. Qed.

Lemma chars_repeatNat m n :
  list_ascii_of_string (JS.repeatNat (String m EmptyString) n) = List.repeat m n.
Proof.
induction n as [|n IH]; simpl; [reflexivity|].
rewrite chars_append, IH. reflexivity.
Qed.

(** The digits of a number with only its ends shown, as
    [partialMaskValue] builds them. *)
Lemma endsShown_charAt digits m keep k :
  0 <= keep -> 2 * keep <= JS.len digits -> 0 <= k < JS.len digits ->
  JS.charAt
    (JS.substring digits 0 keep
       +:+ JS.repeatNat (String m EmptyString)
                        (Z.to_nat (JS.len digits - 2 * keep))
       +:+ JS.substringFrom digits (JS.len digits - keep)) k
  = if (k <? keep) || (JS.len digits - keep <=? k)
    then JS.charAt digits k else Some m.
Proof.
intros Hkeep Hn Hk. unfold JS.charAt, JS.substringFrom.
replace (k <? 0) with false by (symmetry; apply Z.ltb_ge; lia).
rewrite !get_chars, !chars_append, chars_repeatNat.
rewrite !chars_js_substring by lia.
rewrite len_chars in *.
set (ds := list_ascii_of_string digits) in *.
change (Z.to_nat 0) with 0%nat. rewrite skipn_O, Z.sub_0_r.
match goal with
| |- context [firstn ?a (skipn ?b ds)] =>
    rewrite (List.firstn_all2 (n := a) (skipn b ds))
      by (rewrite length_skipn; lia)
end.
destruct (k <? keep) eqn:E1; simpl orb.
- apply Z.ltb_lt in E1.
  rewrite nth_error_app1 by (rewrite length_firstn; lia).
  rewrite nth_error_firstn.
  replace (Z.to_nat k <? Z.to_nat keep)%nat with true
    by (symmetry; apply Nat.ltb_lt; lia).
  reflexivity.
- apply Z.ltb_ge in E1.
  rewrite nth_error_app2 by (rewrite length_firstn; lia).
  rewrite length_firstn.
  replace (Init.Nat.min (Z.to_nat keep) (length ds)) with (Z.to_nat keep) by lia.
  destruct (Z.of_nat (length ds) - keep <=? k) eqn:E2.
  + apply Z.leb_le in E2.
    rewrite nth_error_app2 by (rewrite repeat_length; lia).
    rewrite repeat_length, nth_error_skipn. f_equal. lia.
  + apply Z.leb_gt in E2.
    rewrite nth_error_app1 by (rewrite repeat_length; lia).
    apply nth_error_repeat. lia.
Qed.

Lemma digitsOf_snoc pre c :
  JS.digitsOf (pre +:+ String c EmptyString)
  = if JS.isDigit c then JS.digitsOf pre +:+ String c EmptyString
    else JS.digitsOf pre.
Proof.
rewrite digitsOf_append. simpl. destruct (JS.isDigit c); [reflexivity|].
apply chars_inj. rewrite chars_append. simpl. now rewrite app_nil_r.
Qed.

Lemma substring_prefix pre suf :
  JS.substring (pre +:+ suf) 0 (JS.len pre) = pre.
Proof.
apply chars_inj.
rewrite chars_js_substring.
- change (Z.to_nat 0) with 0%nat. rewrite skipn_O, Z.sub_0_r, chars_append.
  rewrite len_chars, Nat2Z.id.
  rewrite List.firstn_app, Nat.sub_diag, List.firstn_all. simpl.
  now rewrite app_nil_r.
- pose proof (len_nonneg pre). lia.
- rewrite len_append. pose proof (len_nonneg suf). lia.
Qed.

Lemma showEnds_replace value masked keep m suf : forall pre,
  value = pre +:+ suf ->
  (forall k, 0 <= k < JS.len (JS.digitsOf value) ->
     JS.charAt masked k
     = if (k <? keep) || (JS.len (JS.digitsOf value) - keep <=? k)
       then JS.charAt (JS.digitsOf value) k else Some m) ->
  list_ascii_of_string
    (JS.replaceCharsFrom JS.isDigit (DataSanitizer.digitReplacer value masked)
                         (JS.len pre) suf)
  = showEnds keep (JS.len (JS.digitsOf value)) m (JS.len (JS.digitsOf pre))
             (list_ascii_of_string suf).
Proof.
induction suf as [|c suf IH]; intros pre Hv Hmasked; simpl; [reflexivity|].
assert (Hv' : value = (pre +:+ String c EmptyString) +:+ suf).
{ rewrite Hv. apply chars_inj. rewrite !chars_append. simpl.
  now rewrite <- app_assoc. }
assert (Hlen' : JS.len (pre +:+ String c EmptyString) = JS.len pre + 1).
{ rewrite len_append. reflexivity. }
specialize (IH _ Hv' Hmasked). rewrite Hlen' in IH.
rewrite chars_append, IH, digitsOf_snoc.
destruct (JS.isDigit c) eqn:Hc; [|reflexivity].
rewrite len_append. change (JS.len (String c EmptyString)) with 1.
f_equal.
unfold DataSanitizer.digitReplacer.
assert (Hsub : JS.substring value 0 (JS.len pre + 1)
               = pre +:+ String c EmptyString).
{ rewrite <- Hlen'. rewrite Hv' at 1. apply substring_prefix. }
rewrite Hsub, digitsOf_snoc, Hc, len_append.
change (JS.len (String c EmptyString)) with 1.
replace (JS.len (JS.digitsOf pre) + 1 - 1) with (JS.len (JS.digitsOf pre)) by lia.
assert (Hdigits : JS.digitsOf value
                  = JS.digitsOf pre +:+ String c (JS.digitsOf suf)).
{ rewrite Hv, digitsOf_append. simpl. now rewrite Hc. }
assert (Hk : 0 <= JS.len (JS.digitsOf pre) < JS.len (JS.digitsOf value)).
{ rewrite Hdigits, len_append. pose proof (len_nonneg (JS.digitsOf pre)).
  assert (1 <= JS.len (String c (JS.digitsOf suf)))
    by (unfold JS.len; simpl String.length; lia).
  lia. }
assert (Hat : JS.charAt (JS.digitsOf value) (JS.len (JS.digitsOf pre)) = Some c).
{ unfold JS.charAt.
  replace (JS.len (JS.digitsOf pre) <? 0) with false
    by (symmetry; apply Z.ltb_ge; lia).
  rewrite get_chars, Hdigits, chars_append, len_chars, Nat2Z.id.
  rewrite nth_error_app2, Nat.sub_diag by lia. reflexivity. }
rewrite (Hmasked _ Hk), Hat.
destruct ((JS.len (JS.digitsOf pre) <? keep)
          || (JS.len (JS.digitsOf value) - keep <=? JS.len (JS.digitsOf pre)));
  reflexivity.
Qed.

Lemma showEnds_length keep n m chars : forall k,
  length (showEnds keep n m k chars) = length chars.
Proof.
induction chars as [|c chars IH]; intros k; simpl; [reflexivity|].
destruct (JS.isDigit c); simpl; now rewrite IH.
Qed.

Lemma replaceChars_showEnds value m keep :
  0 <= keep -> 2 * keep <= JS.len (JS.digitsOf value) ->
  JS.replaceChars JS.isDigit
    (DataSanitizer.digitReplacer value
       (JS.substring (JS.digitsOf value) 0 keep
          +:+ JS.repeatNat (String m EmptyString)
                (Z.to_nat (JS.len (JS.digitsOf value) - 2 * keep))
          +:+ JS.substringFrom (JS.digitsOf value)
                (JS.len (JS.digitsOf value) - keep)))
    value
  = spec_showEnds keep m value.
Proof.
intros Hkeep Hn. apply chars_inj. unfold JS.replaceChars, spec_showEnds.
rewrite chars_of_list.
apply (showEnds_replace value _ keep m value EmptyString); [reflexivity|].
intros k Hk. now apply endsShown_charAt.
Qed.

(** X9.  [partialMaskValue] on a card number with at least 8 digits (a
    phone number with at least 7), with a one-character mask: of the
    digits, exactly the first four and the last four (three and three)
    are left readable and every digit between them is replaced by the
    mask character; separators and all other characters stay in place
    and the length is unchanged. *)
Theorem partialMaskValue_shows_ends
  (s : DataSanitizer.t) (value : string) (ty : PIIType) (m : ascii) (keep : Z) :
  DataSanitizer.maskCharacter (DataSanitizer.config s) = String m EmptyString ->
  (ty = creditCard /\ keep = 4 /\ 8 <= JS.len (JS.digitsOf value))
  \/ (ty = phone /\ keep = 3 /\ 7 <= JS.len (JS.digitsOf value)) ->
  DataSanitizer.partialMaskValue s value ty = Ok (spec_showEnds keep m value)
  /\ JS.len (spec_showEnds keep m value) = JS.len value.
Proof.
intros Hm Hcase. split.
2:{ rewrite !len_chars. unfold spec_showEnds.
    now rewrite chars_of_list, showEnds_length. }
unfold DataSanitizer.partialMaskValue. cbv zeta.
pose proof (preserveLength_guard s value) as Hguard. cbv zeta in Hguard.
destruct (JS.len value <=? _) eqn:G.
{ destruct (proj1 Hguard eq_refl) as [-> _]. exfalso.
  change (JS.len (JS.digitsOf "")) with 0 in Hcase. lia. }
rewrite Hm.
destruct Hcase as [(-> & -> & Hn)|(-> & -> & Hn)].
- replace (JS.len (JS.digitsOf value) >=? 8) with true
    by (symmetry; rewrite Z.geb_leb; apply Z.leb_le; lia).
  rewrite repeat_ok by lia. simpl mbind. unfold mbind, DataSanitizer.Result_bind.
  simpl JS.bind. f_equal.
  apply (replaceChars_showEnds value m 4); lia.
- replace (JS.len (JS.digitsOf value) >=? 7) with true
    by (symmetry; rewrite Z.geb_leb; apply Z.leb_le; lia).
  rewrite repeat_ok by lia. unfold mbind, DataSanitizer.Result_bind.
  simpl JS.bind. f_equal.
  apply (replaceChars_showEnds value m 3); lia.
Qed.

Lemma partialMaskValue_shows_ends_witness :
  let s := DataSanitizer.create "salt" in
  DataSanitizer.maskCharacter (DataSanitizer.config s) = "*"%string
  /\ 8 <= JS.len (JS.digitsOf "4111-1111-1111-1234")
  /\ DataSanitizer.partialMaskValue s "4111-1111-1111-1234" creditCard
     = Ok "4111-****-****-1234"%string.
Proof.
intros s.
assert (Hn : 8 <= JS.len (JS.digitsOf "4111-1111-1111-1234")) by (vm_compute; discriminate).
split; [reflexivity|]. split; [exact Hn|].
exact (proj1 (partialMaskValue_shows_ends s "4111-1111-1111-1234" creditCard
                "*" 4 eq_refl (or_introl (conj eq_refl (conj eq_refl Hn))))).
Defined.

(** ** The hash cache *)

Lemma hashValue_hit s value h :
  DataSanitizer.hashCache s !! value = Some h ->
  DataSanitizer.hashValue s value = (h, s).
Proof. intros H. unfold DataSanitizer.hashValue. now rewrite H. Qed.

Lemma hashValue_grows s value :
  let r := DataSanitizer.hashValue s value in
  DataSanitizer.hashCache (snd r) !! value = Some (fst r)
  /\ (forall k c, DataSanitizer.hashCache s !! k = Some c ->
                  DataSanitizer.hashCache (snd r) !! k = Some c)
  /\ DataSanitizer.config (snd r) = DataSanitizer.config s
  /\ DataSanitizer.auditTrail (snd r) = DataSanitizer.auditTrail s.
Proof.
cbv zeta. unfold DataSanitizer.hashValue.
destruct (DataSanitizer.hashCache s !! value) as [c|] eqn:E; simpl.
- auto.
- rewrite lookup_insert_eq. repeat split; auto.
  intros k c Hk. rewrite lookup_insert_ne; [exact Hk|]. congruence.
Qed.

(** X10.  [hashValue]: the hash returned for a value is cached under the
    value itself and returned again by every later call for that value,
    also after [updateConfig] has changed the salt and after
    [clearAuditTrail]; the call changes neither the configuration nor
    the audit trail and never drops or changes a cached hash. *)
Theorem hashValue_is_stable
  (s : DataSanitizer.t) (value : string) (updates : DataSanitizer.ConfigUpdates) :
  let h := fst (DataSanitizer.hashValue s value) in
  let s1 := snd (DataSanitizer.hashValue s value) in
  DataSanitizer.hashCache s1 !! value = Some h
  /\ DataSanitizer.hashValue s1 value = (h, s1)
  /\ DataSanitizer.hashValue (DataSanitizer.updateConfig s1 updates) value
     = (h, DataSanitizer.updateConfig s1 updates)
  /\ DataSanitizer.hashValue (DataSanitizer.clearAuditTrail s1) value
     = (h, DataSanitizer.clearAuditTrail s1)
  /\ (forall k c, DataSanitizer.hashCache s !! k = Some c ->
                  DataSanitizer.hashCache s1 !! k = Some c)
  /\ DataSanitizer.config s1 = DataSanitizer.config s
  /\ DataSanitizer.auditTrail s1 = DataSanitizer.auditTrail s.
Proof.
cbv zeta.
destruct (hashValue_grows s value) as (Hc & Hk & Hcfg & Ha). cbv zeta in *.
split; [exact Hc|]. split; [now apply hashValue_hit|].
split; [now apply hashValue_hit|]. split; [now apply hashValue_hit|].
auto.
Qed.

(** ** What [sanitizeText] leaves in the sanitizer *)

Lemma cacheGrows_refl s : cacheGrows s s.
Proof. split; auto. Qed.

Lemma cacheGrows_trans s1 s2 s3 :
  cacheGrows s1 s2 -> cacheGrows s2 s3 -> cacheGrows s1 s3.
Proof. intros [C1 K1] [C2 K2]. split; [congruence|auto]. Qed.

Lemma hashValue_cacheGrows s value :
  cacheGrows s (snd (DataSanitizer.hashValue s value)).
Proof. destruct (hashValue_grows s value) as (_ & Hk & Hc & _). now split. Qed.

Lemma applySanitizationStrategy_state s value ty strategy :
  let s' := snd (DataSanitizer.applySanitizationStrategy s value ty strategy) in
  cacheGrows s s' /\ DataSanitizer.auditTrail s' = DataSanitizer.auditTrail s.
Proof.
cbv zeta. destruct strategy; simpl; try (split; [apply cacheGrows_refl|reflexivity]).
destruct (DataSanitizer.hashValue s value) as [h s1] eqn:E. simpl.
pose proof (hashValue_cacheGrows s value) as H1.
destruct (hashValue_grows s value) as (_ & _ & _ & H2).
rewrite E in H1, H2. simpl in H1, H2. now split.
Qed.

Lemma maskValue_config s s' value ty :
  DataSanitizer.config s' = DataSanitizer.config s ->
  DataSanitizer.maskValue s' value ty = DataSanitizer.maskValue s value ty.
Proof. intros H. unfold DataSanitizer.maskValue. now rewrite H. Qed.

Lemma partialMaskValue_config s s' value ty :
  DataSanitizer.config s' = DataSanitizer.config s ->
  DataSanitizer.partialMaskValue s' value ty
  = DataSanitizer.partialMaskValue s value ty.
Proof.
intros H. unfold DataSanitizer.partialMaskValue.
rewrite !(maskValue_config s s' _ _ H). now rewrite H.
Qed.

(** Only the strategy [partial] can throw. *)
Lemma applySanitizationStrategy_throws s value ty strategy message s' :
  DataSanitizer.applySanitizationStrategy s value ty strategy
  = (Throw message, s') ->
  strategy = partial
  /\ DataSanitizer.partialMaskValue s value ty = Throw message.
Proof.
destruct strategy; simpl.
- destruct (maskValue_ok s value ty) as [r ->]. discriminate.
- destruct (DataSanitizer.hashValue s value). discriminate.
- discriminate.
- intros [= -> _]. now split.
Qed.

Lemma sanitizeStep_audit now s text acts dets d :
  match DataSanitizer.sanitizeStep now s (text, acts, dets) d with
  | (Ok (_, acts', dets'), s') =>
      exists a,
        acts' = acts ++ [a]
        /\ DataSanitizer.auditTrail s' = DataSanitizer.auditTrail s ++ [a]
        /\ position a = span d /\ piiType a = type d
        /\ strategy a = DataSanitizer.getStrategyForPIIType s (type d)
        /\ length dets' = S (length dets)
        /\ cacheGrows s s'
        /\ is_Some (DataSanitizer.hashCache s' !! value d)
  | (Throw message, s') =>
      DataSanitizer.auditTrail s' = DataSanitizer.auditTrail s
      /\ cacheGrows s s'
      /\ DataSanitizer.getStrategyForPIIType s (type d) = partial
      /\ DataSanitizer.partialMaskValue s (value d) (type d) = Throw message
  end.
Proof.
unfold DataSanitizer.sanitizeStep.
pose proof (applySanitizationStrategy_state s (value d) (type d)
              (DataSanitizer.getStrategyForPIIType s (type d))) as Hs.
pose proof (applySanitizationStrategy_throws s (value d) (type d)
              (DataSanitizer.getStrategyForPIIType s (type d))) as Ht.
cbv zeta in Hs.
destruct (DataSanitizer.applySanitizationStrategy s (value d) (type d) _)
  as [[r|msg] s1]; simpl in Hs; destruct Hs as [Hg Ha].
2:{ destruct (Ht msg s1 eq_refl) as [Hp Hm].
    split; [exact Ha|]. split; [exact Hg|]. split; assumption. }
clear Ht.
pose proof (hashValue_cacheGrows s1 (value d)) as Hg2.
destruct (hashValue_grows s1 (value d)) as (Hin & _ & _ & Ha2).
destruct (DataSanitizer.hashValue s1 (value d)) as [h s2]. simpl in *.
eexists. split; [reflexivity|]. simpl.
repeat split.
- unfold DataSanitizer.pushAudit. simpl. now rewrite Ha2, Ha.
- rewrite length_app. simpl. lia.
- unfold DataSanitizer.pushAudit. simpl. destruct Hg, Hg2. congruence.
- intros k c Hk. unfold DataSanitizer.pushAudit. simpl. apply Hg2, Hg, Hk.
- unfold DataSanitizer.pushAudit. simpl. rewrite Hin. eauto.
Qed.

Lemma sanitizeLoop_audit now L : forall s text acts dets,
  match DataSanitizer.sanitizeLoop now s (text, acts, dets) L with
  | (Ok (_, acts', dets'), s') =>
      exists new,
        acts' = acts ++ new
        /\ DataSanitizer.auditTrail s' = DataSanitizer.auditTrail s ++ new
        /\ map position new = map span L
        /\ map piiType new = map type L
        /\ map strategy new
           = map (fun d => DataSanitizer.getStrategyForPIIType s (type d)) L
        /\ length dets' = (length dets + length L)%nat
        /\ cacheGrows s s'
        /\ Forall (fun d => is_Some (DataSanitizer.hashCache s' !! value d)) L
  | (Throw message, s') =>
      exists new done failing rest,
        L = done ++ failing :: rest
        /\ DataSanitizer.auditTrail s' = DataSanitizer.auditTrail s ++ new
        /\ map position new = map span done
        /\ map piiType new = map type done
        /\ map strategy new
           = map (fun d => DataSanitizer.getStrategyForPIIType s (type d)) done
        /\ DataSanitizer.getStrategyForPIIType s (type failing) = partial
        /\ DataSanitizer.partialMaskValue s (value failing) (type failing)
           = Throw message
        /\ cacheGrows s s'
  end.
Proof.
induction L as [|d L IH]; intros s text acts dets.
- simpl. exists []. rewrite !app_nil_r. repeat split; auto.
- rewrite sanitizeLoop_cons.
  pose proof (sanitizeStep_audit now s text acts dets d) as Hstep.
  destruct (DataSanitizer.sanitizeStep now s (text, acts, dets) d)
    as [[[[text1 acts1] dets1]|msg] s1].
  + destruct Hstep as (a & -> & Ha & Hpos & Hty & Hst & Hlen & Hg & Hin).
    assert (Hstrategy : forall x,
              DataSanitizer.getStrategyForPIIType s1 x
              = DataSanitizer.getStrategyForPIIType s x).
    { intros x. unfold DataSanitizer.getStrategyForPIIType.
      destruct Hg as [Hc _]. now rewrite Hc. }
    specialize (IH s1 text1 (acts ++ [a]) dets1).
    destruct (DataSanitizer.sanitizeLoop now s1 (text1, acts ++ [a], dets1) L)
      as [[[[text2 acts2] dets2]|msg] s2].
    * destruct IH as (new & -> & Ha2 & Hpos2 & Hty2 & Hst2 & Hlen2 & Hg2 & Hin2).
      exists (a :: new). rewrite <- !app_assoc. simpl.
      repeat split.
      -- rewrite Ha2, Ha, <- app_assoc. reflexivity.
      -- now rewrite Hpos, Hpos2.
      -- now rewrite Hty, Hty2.
      -- rewrite Hst, Hst2. f_equal. apply map_ext. intros x.
         apply Hstrategy.
      -- lia.
      -- destruct Hg, Hg2. congruence.
      -- intros k c Hk. apply Hg2, Hg, Hk.
      -- constructor; [|exact Hin2].
         destruct Hin as [c Hc]. exists c. apply Hg2, Hc.
    * destruct IH as (new & done & failing & rest & -> & Ha2 & Hpos2 & Hty2
                      & Hst2 & Hp & Hthrow & Hg2).
      exists (a :: new), (d :: done), failing, rest. simpl.
      split; [reflexivity|].
      split; [rewrite Ha2, Ha, <- app_assoc; reflexivity|].
      split; [now rewrite Hpos, Hpos2|].
      split; [now rewrite Hty, Hty2|].
      split; [rewrite Hst, Hst2; f_equal; apply map_ext; intros x;
              apply Hstrategy|].
      split; [now rewrite <- Hstrategy|].
      split; [rewrite <- Hthrow; symmetry; apply partialMaskValue_config;
              apply Hg|].
      eapply cacheGrows_trans; eassumption.
  + destruct Hstep as (Ha & Hg & Hp & Hthrow).
    exists [], [], d, L. simpl. rewrite app_nil_r.
    split; [reflexivity|]. split; [exact Ha|].
    do 3 (split; [reflexivity|]).
    split; [exact Hp|]. split; [exact Hthrow|exact Hg].
Qed.

(** X11.  [sanitizeText]: a successful call appends to the audit trail
    exactly the actions it returns, one for each detection in order of
    descending start index, each with the detection's original span, its
    type and the strategy configured for the type; it returns as many
    updated detections as it was given.  A call that throws has stopped
    at a detection whose type has the strategy [partial], with the error
    that [partialMaskValue] throws for its value, and has appended to
    the audit trail one action, of the same form, for each detection
    that comes before it in the order of descending start index, and
    none for the others.  In both cases the configuration is unchanged
    and no cached hash is dropped, and after a successful call the value
    of every detection is a key of the hash cache. *)
Theorem sanitizeText_audit_trail
  (now : Z) (s : DataSanitizer.t) (text : string)
  (detections : list PIIDetectionResult) :
  let r := DataSanitizer.sanitizeText now s text detections in
  let sorted := JS.sort DataSanitizer.byStartDescending detections in
  cacheGrows s (snd r)
  /\ match fst r with
     | Ok result =>
         DataSanitizer.getAuditTrail (snd r)
         = DataSanitizer.getAuditTrail s ++ actions result
         /\ map position (actions result) = map span sorted
         /\ map piiType (actions result) = map type sorted
         /\ map strategy (actions result)
            = map (fun d => DataSanitizer.getStrategyForPIIType s (type d)) sorted
         /\ length (sanitizedDetections result) = length detections
         /\ Forall (fun d => is_Some (DataSanitizer.hashCache (snd r) !! value d))
                   detections
     | Throw message =>
         exists new done failing rest,
           sorted = done ++ failing :: rest
           /\ DataSanitizer.getAuditTrail (snd r)
              = DataSanitizer.getAuditTrail s ++ new
           /\ map position new = map span done
           /\ map piiType new = map type done
           /\ map strategy new
              = map (fun d => DataSanitizer.getStrategyForPIIType s (type d))
                    done
           /\ DataSanitizer.getStrategyForPIIType s (type failing) = partial
           /\ DataSanitizer.partialMaskValue s (value failing) (type failing)
              = Throw message
     end.
Proof.
cbv zeta. unfold DataSanitizer.sanitizeText, DataSanitizer.getAuditTrail.
destruct detections as [|d0 ds].
- simpl. split; [apply cacheGrows_refl|]. rewrite app_nil_r. repeat split.
  constructor.
- set (detections := d0 :: ds).
  pose proof (sanitizeLoop_audit now
                (JS.sort DataSanitizer.byStartDescending detections)
                s text [] []) as H.
  assert (Hperm := sort_perm DataSanitizer.byStartDescending detections).
  destruct (DataSanitizer.sanitizeLoop now s (text, [], []) _)
    as [[[[text' acts'] dets']|msg] s'].
  + destruct H as (new & -> & Ha & Hpos & Hty & Hst & Hlen & Hg & Hin).
    simpl. split; [exact Hg|]. repeat split; auto.
    * apply Permutation_length in Hperm. subst detections. simpl in *. lia.
    * rewrite List.Forall_forall in *. intros d Hd. apply Hin.
      eapply Permutation_in; [symmetry; exact Hperm|exact Hd].
  + destruct H as (new & done & failing & rest & Hs & Ha & Hpos & Hty & Hst
                   & Hp & Hthrow & Hg).
    simpl. split; [exact Hg|].
    exists new, done, failing, rest.
    split; [exact Hs|]. split; [exact Ha|]. split; [exact Hpos|].
    split; [exact Hty|]. split; [exact Hst|]. split; assumption.
Qed.

(** ** Counters kept in tables *)

Section Counting.
Context {K : Type} (eqb : K -> K -> bool).
Hypothesis eqb_eq : forall a b, eqb a b = true <-> a = b.

Lemma sumValues_set k v (m : JS.jsmap K Z) :
  sumValues (JS.set eqb k v m)
  = sumValues m - default 0 (JS.get eqb k m) + v.
Proof.
unfold sumValues. induction m as [|[k1 v1] m IH]; simpl; [lia|].
destruct (eqb k k1); simpl; [lia|]. rewrite IH. lia.
Qed.

Lemma countUp_sum (m : JS.jsmap K Z) k :
  sumValues (DataSanitizer.countUp eqb m k) = sumValues m + 1.
Proof. unfold DataSanitizer.countUp. rewrite sumValues_set. lia. Qed.

Lemma countUp_get (m : JS.jsmap K Z) k k' :
  default 0 (JS.get eqb k' (DataSanitizer.countUp eqb m k))
  = default 0 (JS.get eqb k' m) + (if eqb k k' then 1 else 0).
Proof.
unfold DataSanitizer.countUp. rewrite (get_set eqb eqb_eq).
destruct (eqb k' k) eqn:E.
- apply eqb_eq in E. subst k'. rewrite (eqb_refl_true eqb eqb_eq). reflexivity.
- destruct (eqb k k') eqn:E'; [|simpl; lia].
  apply eqb_eq in E'. subst k'. rewrite (eqb_refl_true eqb eqb_eq) in E.
  discriminate.
Qed.

Lemma countUp_fold {A} (key : A -> K) l : forall m : JS.jsmap K Z,
  let m' := fold_left (fun counts a => DataSanitizer.countUp eqb counts (key a))
                      l m in
  sumValues m' = sumValues m + Z.of_nat (length l)
  /\ forall k, default 0 (JS.get eqb k m')
               = default 0 (JS.get eqb k m) + countIf (fun a => eqb (key a) k) l.
Proof.
induction l as [|a l IH]; intros m; cbv zeta; simpl.
- unfold countIf. simpl. split; [lia|]. intros k. lia.
- destruct (IH (DataSanitizer.countUp eqb m (key a))) as [Hs Hk].
  cbv zeta in Hs, Hk. rewrite Hs, countUp_sum. split; [lia|].
  intros k. rewrite Hk, countUp_get. unfold countIf. simpl.
  destruct (eqb (key a) k); simpl length; lia.
Qed.
End Counting.

Lemma SanitizationStrategy_eqb_eq a b :
  DataSanitizer.SanitizationStrategy_eqb a b = true <-> a = b.
Proof. destruct a, b; simpl; split; intros H; try reflexivity; discriminate. Qed.

Lemma nth_error_last {A} (l : list A) :
  nth_error l (length l - 1) = last l.
Proof.
induction l as [|x l IH]; [reflexivity|].
destruct l as [|y l]; [reflexivity|].
change (last (x :: y :: l)) with (last (y :: l)). rewrite <- IH.
simpl length. rewrite !Nat.sub_succ, !Nat.sub_0_r. reflexivity.
Qed.

(** X12.  [getStatistics]: [totalActions] is the length of the audit
    trail; the counter of each PII type and of each strategy is the
    number of logged actions with that type or strategy (0 for a missing
    key); the counters of either table add up to [totalActions];
    [lastActionTime] is the timestamp of the last action, or [null] when
    the trail is empty.  After [clearAuditTrail] the trail is empty while
    the configuration and the hash cache are as before. *)
Theorem getStatistics_counts (s : DataSanitizer.t) :
  let stats := DataSanitizer.getStatistics s in
  let trail := DataSanitizer.getAuditTrail s in
  DataSanitizer.totalActions stats = Z.of_nat (length trail)
  /\ (forall ty,
        default 0 (JS.get PIIType_eqb ty (DataSanitizer.actionsByType stats))
        = countIf (fun a => PIIType_eqb (piiType a) ty) trail)
  /\ (forall sg,
        default 0 (JS.get DataSanitizer.SanitizationStrategy_eqb sg
                          (DataSanitizer.actionsByStrategy stats))
        = countIf (fun a => DataSanitizer.SanitizationStrategy_eqb (strategy a) sg)
                  trail)
  /\ sumValues (DataSanitizer.actionsByType stats)
     = DataSanitizer.totalActions stats
  /\ sumValues (DataSanitizer.actionsByStrategy stats)
     = DataSanitizer.totalActions stats
  /\ DataSanitizer.lastActionTime stats = timestamp <$> last trail
  /\ DataSanitizer.getAuditTrail (DataSanitizer.clearAuditTrail s) = []
  /\ DataSanitizer.config (DataSanitizer.clearAuditTrail s)
     = DataSanitizer.config s
  /\ DataSanitizer.hashCache (DataSanitizer.clearAuditTrail s)
     = DataSanitizer.hashCache s.
Proof.
cbv zeta. unfold DataSanitizer.getStatistics, DataSanitizer.getAuditTrail. simpl.
destruct (countUp_fold PIIType_eqb PIIType_eqb_eq piiType
            (DataSanitizer.auditTrail s) []) as [Hs1 Hk1].
destruct (countUp_fold DataSanitizer.SanitizationStrategy_eqb
            SanitizationStrategy_eqb_eq strategy
            (DataSanitizer.auditTrail s) []) as [Hs2 Hk2].
cbv zeta in *.
split; [reflexivity|]. split; [intros ty; rewrite Hk1; simpl; lia|].
split; [intros sg; rewrite Hk2; simpl; lia|].
split; [rewrite Hs1; unfold sumValues; simpl; lia|].
split; [rewrite Hs2; unfold sumValues; simpl; lia|].
split; [|auto].
destruct (DataSanitizer.auditTrail s) as [|a l] eqn:E; [reflexivity|].
replace (0 <? length (a :: l))%nat with true by reflexivity.
now rewrite nth_error_last.
Qed.

(** ** Values under sensitive keys *)

(** X13.  [sanitizeKeyValue] throws in exactly one case: the value is not
    a string and [String(value)] throws; the error is then that of the
    conversion, and the sanitizer is as it was.  In every other case it
    returns, whatever the key and the configuration: the type it derives
    from the key is never [email], the only type for which a strategy
    can throw.  A value that is not a string becomes ["[REDACTED]"]; for
    a string, [wasModified] tells whether the replacement differs from
    it.  The call logs one action in its result, adds nothing to the
    sanitizer's audit trail, and leaves the original value (the text of
    a value that is not a string) as a key of the hash cache. *)
Theorem sanitizeKeyValue_throws_iff
  (now : Z) (s : DataSanitizer.t) (value : string + Result string)
  (key : string) :
  let returns (r : Result DataSanitizer.KeyValueResult * DataSanitizer.t)
              (original : string) (redacted : bool) :=
    exists result s',
      r = (Ok result, s')
      /\ cacheGrows s s'
      /\ DataSanitizer.auditTrail s' = DataSanitizer.auditTrail s
      /\ (exists a, DataSanitizer.keyActions result = [a]
                    /\ piiType a <> email
                    /\ position a = (0, JS.len original)
                    /\ sanitizedValue a
                       = DataSanitizer.keySanitizedValue result)
      /\ is_Some (DataSanitizer.hashCache s' !! original)
      /\ (if redacted
          then DataSanitizer.keySanitizedValue result = "[REDACTED]"%string
               /\ DataSanitizer.keyWasModified result = true
          else DataSanitizer.keyWasModified result
               = negb (String.eqb (DataSanitizer.keySanitizedValue result)
                                  original)) in
  match value with
  | inr (Throw message) =>
      DataSanitizer.sanitizeKeyValue now s value key = (Throw message, s)
  | inr (Ok text) =>
      returns (DataSanitizer.sanitizeKeyValue now s value key) text true
  | inl original =>
      returns (DataSanitizer.sanitizeKeyValue now s value key) original false
  end.
Proof.
cbv zeta. unfold DataSanitizer.sanitizeKeyValue.
destruct value as [original|[text|message]]; [| |reflexivity].
- match goal with
  | |- context [DataSanitizer.getStrategyForPIIType s ?t] => set (ty := t)
  end.
  assert (Hty : ty <> email).
  { subst ty.
    repeat match goal with
           | |- context [if ?c then _ else _] => destruct c
           end; discriminate. }
  clearbody ty.
  set (sg := DataSanitizer.getStrategyForPIIType s ty). clearbody sg.
  pose proof (applySanitizationStrategy_state s original ty sg) as Hstate.
  cbv zeta in Hstate.
  assert (Hok : exists r, fst (DataSanitizer.applySanitizationStrategy
                                 s original ty sg) = Ok r).
  { destruct sg; simpl.
    - apply maskValue_ok.
    - destruct (DataSanitizer.hashValue s original). simpl. eauto.
    - eauto.
    - now apply partialMaskValue_ok. }
  destruct (DataSanitizer.applySanitizationStrategy s original ty sg)
    as [res s1]. simpl in Hok, Hstate. destruct Hok as [r ->].
  destruct Hstate as [Hg Ha].
  pose proof (hashValue_cacheGrows s1 original) as Hg2.
  destruct (hashValue_grows s1 original) as (Hin & _ & _ & Ha2).
  destruct (DataSanitizer.hashValue s1 original) as [h s2]. simpl in *.
  eexists _, s2. split; [reflexivity|]. simpl.
  split; [eapply cacheGrows_trans; eauto|].
  split; [congruence|]. split; [eauto|].
  split; [rewrite Hin; eauto|reflexivity].
- pose proof (hashValue_cacheGrows s text) as Hg.
  destruct (hashValue_grows s text) as (Hin & _ & _ & Ha).
  destruct (DataSanitizer.hashValue s text) as [h s1]. simpl in *.
  eexists _, s1. split; [reflexivity|]. simpl.
  split; [exact Hg|]. split; [exact Ha|].
  split; [eexists; repeat split; discriminate|].
  split; [rewrite Hin; eauto|]. split; reflexivity.
Qed.

(** ** The text [sanitizeText] returns *)

Lemma growth_perm repl l l' :
  Permutation l l' -> growth repl l = growth repl l'.
Proof.
unfold growth. induction 1; simpl; lia.
Qed.

Lemma growth_app repl l l' :
  growth repl (l ++ l') = growth repl l + growth repl l'.
Proof. unfold growth. induction l; simpl; lia. Qed.

Lemma weave_length repl text L : forall bound,
  chain bound L -> 0 <= bound <= JS.len text ->
  JS.len (weave repl text 0 (rev L) bound) = bound + growth repl L.
Proof.
induction L as [|d L IH]; intros bound Hc Hb.
- simpl. unfold JS.len at 1. rewrite js_substring_length by lia.
  unfold growth. simpl. lia.
- destruct Hc as (Hd & He & Hc). simpl rev. rewrite weave_snoc.
  rewrite !len_append, IH by (assumption || lia).
  unfold JS.len at 2. rewrite js_substring_length by lia.
  unfold growth. simpl. fold (growth repl L). lia.
Qed.

(** X14.  [sanitizeText] on one or more detections that lie within the
    text, are not empty and do not overlap, when no replacement throws
    and every cached hash belongs to the current salt: the call succeeds
    with [wasModified] set; the sanitized text is the original text with
    the span of each detection, taken from left to right, replaced by
    what the strategy of its type gives for its value, and nothing else
    changed; its length is the length of the original plus, for each
    detection, the length of the replacement less the length of the
    span. *)
Theorem sanitizeText_replaces_spans
  (now : Z) (s : DataSanitizer.t) (text : string)
  (detections : list PIIDetectionResult) :
  coherent s -> detections <> [] ->
  Forall (validSpan text) detections ->
  ForallOrdPairs disjointSpans detections ->
  Forall (fun d => exists r, spec_replacement s d = Ok r) detections ->
  exists result s' leftToRight,
    DataSanitizer.sanitizeText now s text detections = (Ok result, s')
    /\ wasModified result = true
    /\ originalText result = text
    /\ Permutation leftToRight detections
    /\ StronglySorted startsBefore leftToRight
    /\ sanitizedText result
       = weave (replacementText s) text 0 leftToRight (JS.len text)
    /\ JS.len (sanitizedText result)
       = JS.len text + growth (replacementText s) detections.
Proof.
intros Hco Hne Hvalid Hdisj Hok.
destruct (sanitizeText_splices now s text detections Hco Hne Hvalid Hdisj Hok)
  as (result & s' & asc & Hrun & Hmod & Horig & Hperm & Hsorted & Htext).
exists result, s', asc. repeat split; try assumption.
rewrite Htext, <- (rev_involutive asc).
rewrite weave_length.
- f_equal. apply growth_perm. rewrite <- Hperm. symmetry. apply Permutation_rev.
- apply chain_of_sorted.
  + apply StronglySorted_rev. exact Hsorted.
  + eapply pairs_perm; [apply disjointSpans_sym| |exact Hdisj].
    rewrite <- Hperm. apply Permutation_rev.
  + rewrite List.Forall_forall in *. intros d Hd.
    apply in_rev in Hd. apply (Permutation_in _ Hperm) in Hd.
    specialize (Hvalid d Hd). unfold validSpan in Hvalid. lia.
- pose proof (len_nonneg text). lia.
Qed.

Lemma sanitizeText_replaces_spans_witness :
  let text := "Contact: john@example.com or call (555) 123-4567"%string in
  let mail := {| type := email; value := "john@example.com";
                 startIndex := 9; endIndex := 25; confidence := 0.95;
                 patternName := "email_standard"; highConfidence := true |} in
  let tel := {| type := phone; value := "(555) 123-4567";
                startIndex := 34; endIndex := 48; confidence := 0.85;
                patternName := "us_phone"; highConfidence := true |} in
  let s := DataSanitizer.create "salt" in
  coherent s
  /\ Forall (validSpan text) [mail; tel]
  /\ ForallOrdPairs disjointSpans [mail; tel]
  /\ Forall (fun d => exists r, spec_replacement s d = Ok r) [mail; tel]
  /\ exists result s' leftToRight,
       DataSanitizer.sanitizeText 0 s text [mail; tel] = (Ok result, s')
       /\ wasModified result = true
       /\ originalText result = text
       /\ Permutation leftToRight [mail; tel]
       /\ StronglySorted startsBefore leftToRight
       /\ sanitizedText result
          = weave (replacementText s) text 0 leftToRight (JS.len text)
       /\ JS.len (sanitizedText result)
          = JS.len text + growth (replacementText s) [mail; tel].
Proof.
intros text mail tel s.
assert (Hco : coherent s).
{ intros k v H. unfold s, DataSanitizer.create in H. simpl in H.
  rewrite lookup_empty in H. discriminate. }
assert (Hvalid : Forall (validSpan text) [mail; tel]).
{ constructor; [|constructor; [|constructor]];
    unfold validSpan, mail, tel, text, JS.len; simpl; lia. }
assert (Hdisj : ForallOrdPairs disjointSpans [mail; tel]).
{ constructor; [|constructor; [constructor|constructor]].
  constructor; [|constructor].
  unfold disjointSpans, spansOverlap, mail, tel. simpl. lia. }
assert (Hok : Forall (fun d => exists r, spec_replacement s d = Ok r) [mail; tel]).
{ constructor; [|constructor; [|constructor]]; eexists; reflexivity. }
split; [exact Hco|]. split; [exact Hvalid|]. split; [exact Hdisj|].
split; [exact Hok|].
apply (sanitizeText_replaces_spans 0 s text [mail; tel] Hco);
  [discriminate|exact Hvalid|exact Hdisj|exact Hok].
Defined.

(** * Further properties of the consent manager *)

(** ** The loops of [recordConsent] and [withdrawConsent], field by field *)

Lemma recordLoop_fields m env user status ip ua purposes : forall i p log,
  let p' := fst (ConsentManager.recordLoop m env user status ip ua i p log
                                           purposes) in
  ConsentPreferences.purposes p'
  = fold_left (fun ps q => ConsentManager.setPurpose q status ps) purposes
              (ConsentPreferences.purposes p)
  /\ ConsentPreferences.userId p' = ConsentPreferences.userId p
  /\ ConsentPreferences.dataRetentionHours p'
     = ConsentPreferences.dataRetentionHours p
  /\ ConsentPreferences.consentTimestamp p'
     = ConsentPreferences.consentTimestamp p.
Proof.
induction purposes as [|q rest IH]; intros i p log; cbv zeta; simpl.
- auto.
- match goal with
  | |- context [ConsentManager.recordLoop m env user status ip ua (S i) ?p1 ?l1 rest] =>
      destruct (IH (S i) p1 l1) as (H1 & H2 & H3 & H4)
  end.
  cbv zeta in *. simpl in *. auto.
Qed.

Lemma withdrawLoop_fields m env user ip ua purposes : forall i p log,
  let p' := fst (ConsentManager.withdrawLoop m env user ip ua i p log purposes) in
  ConsentPreferences.purposes p'
  = fold_left (fun ps q => ConsentManager.setPurpose q withdrawn ps) purposes
              (ConsentPreferences.purposes p)
  /\ ConsentPreferences.userId p' = ConsentPreferences.userId p
  /\ ConsentPreferences.dataRetentionHours p'
     = ConsentPreferences.dataRetentionHours p
  /\ ConsentPreferences.consentTimestamp p'
     = ConsentPreferences.consentTimestamp p.
Proof.
induction purposes as [|q rest IH]; intros i p log; cbv zeta; simpl.
- auto.
- match goal with
  | |- context [ConsentManager.withdrawLoop m env user ip ua (S i) ?p1 ?l1 rest] =>
      destruct (IH (S i) p1 l1) as (H1 & H2 & H3 & H4)
  end.
  cbv zeta in *. simpl in *. auto.
Qed.

Lemma listed_In q purposes : listed q purposes = true <-> In q purposes.
Proof.
unfold listed. rewrite existsb_exists. split.
- intros [x [Hx E]]. apply ProcessingPurpose_eqb_eq in E. now subst.
- intros H. exists q. split; [exact H|]. now apply ProcessingPurpose_eqb_eq.
Qed.

Lemma get_In_values {K V} (eqb : K -> K -> bool) k (v : V) m :
  JS.get eqb k m = Some v -> In v (JS.values m).
Proof.
induction m as [|[k1 v1] m IH]; simpl; [discriminate|].
destruct (eqb k k1); [intros [= ->]; now left|]. intros H. right. now apply IH.
Qed.

(** ** Withdrawal *)

(** X15.  [withdrawConsent] followed by [verifyConsent]: for every
    purpose that was listed in the withdrawal the consent is reported as
    not valid, whatever the time of the check and whatever was recorded
    before; for a user with a stored record the reported status is
    [withdrawn] and the record's global status becomes [withdrawn]; for
    a user without one the manager is unchanged. *)
Theorem withdrawConsent_then_verify
  (m : ConsentManager.t) (env : ConsentManager.Env) (user : string)
  (purposes : list ProcessingPurpose) (ip ua : string)
  (purpose : ProcessingPurpose) (time : Z) :
  In purpose purposes ->
  let m' := snd (ConsentManager.withdrawConsent m env user purposes ip ua) in
  let v := ConsentManager.verifyConsent m' time user purpose in
  isValid v = false
  /\ hasConsent v = false
  /\ match ConsentManager.preferences m !! user with
     | Some _ =>
         consentStatus v = withdrawn
         /\ requiresRenewal v = false
         /\ exists p', ConsentManager.getConsentPreferences m' user = Some p'
                       /\ ConsentPreferences.piiProcessing p' = withdrawn
     | None => m' = m /\ requiresRenewal v = true
     end.
Proof.
intros Hin. cbv zeta. unfold ConsentManager.withdrawConsent.
destruct (ConsentManager.preferences m !! user) as [p|] eqn:E.
- destruct (withdrawLoop_spec m env user ip ua purposes 0 p
              (ConsentManager.auditLog m)) as [_ Hget].
  cbv zeta in Hget.
  destruct (ConsentManager.withdrawLoop m env user ip ua 0 p
              (ConsentManager.auditLog m) purposes) as [p1 log1].
  simpl in Hget. simpl snd.
  unfold ConsentManager.verifyConsent, ConsentManager.getConsentPreferences.
  simpl ConsentManager.preferences. rewrite lookup_insert_eq. simpl.
  specialize (Hget purpose) as Hp.
  rewrite (proj2 (listed_In purpose purposes) Hin) in Hp. rewrite Hp. simpl.
  rewrite andb_false_r. repeat split.
  eexists. split; [reflexivity|]. simpl.
  unfold ConsentManager.calculateGlobalPIIConsent. cbv zeta.
  replace (JS.some (fun status => ConsentStatus_eqb status withdrawn)
                   (JS.values (ConsentPreferences.purposes p1))) with true;
    [reflexivity|].
  symmetry. apply some_status. eapply get_In_values. exact Hp.
- simpl. unfold ConsentManager.verifyConsent. rewrite E. simpl. auto.
Qed.

Lemma withdrawConsent_then_verify_witness :
  let env := {| ConsentManager.now := 1700000000000;
                ConsentManager.freshId := fun _ => "id"%string |} in
  let m := snd (ConsentManager.recordConsent (ConsentManager.create JS.utc GDPR None)
                  env "alice" [logging; analytics] true "10.0.0.1" "agent") in
  let m' := snd (ConsentManager.withdrawConsent m env "alice" [logging]
                   "10.0.0.1" "agent") in
  In logging [logging]
  /\ isValid (ConsentManager.verifyConsent m 1700000000001 "alice" logging) = true
  /\ isValid (ConsentManager.verifyConsent m' 1700000000001 "alice" logging)
     = false.
Proof.
intros env m m'.
assert (Hin : In logging [logging]) by (left; reflexivity).
split; [exact Hin|]. split; [reflexivity|].
exact (proj1 (withdrawConsent_then_verify m env "alice" [logging]
                "10.0.0.1" "agent" logging 1700000000001 Hin)).
Defined.

(** ** The period of validity *)

Lemma recordConsent_stored m env user purposes consentGiven ip ua :
  let r := ConsentManager.recordConsent m env user purposes consentGiven ip ua in
  ConsentManager.preferences (snd r) = <[user := fst r]> (ConsentManager.preferences m)
  /\ ConsentManager.consentExpiryDays (snd r) = ConsentManager.consentExpiryDays m
  /\ ConsentManager.dataSubjectRequests (snd r)
     = ConsentManager.dataSubjectRequests m
  /\ ConsentPreferences.purposes (fst r)
     = fold_left
         (fun ps q =>
            ConsentManager.setPurpose q (if consentGiven then granted else denied) ps)
         purposes
         (ConsentPreferences.purposes (startingPreferences m env user ip ua))
  /\ ConsentPreferences.userId (fst r)
     = ConsentPreferences.userId (startingPreferences m env user ip ua)
  /\ ConsentPreferences.dataRetentionHours (fst r)
     = ConsentPreferences.dataRetentionHours (startingPreferences m env user ip ua)
  /\ ConsentPreferences.consentTimestamp (fst r)
     = ConsentPreferences.consentTimestamp (startingPreferences m env user ip ua)
  /\ ConsentPreferences.piiProcessing (fst r)
     = ConsentManager.calculateGlobalPIIConsent (ConsentPreferences.purposes (fst r)).
Proof.
cbv zeta. unfold ConsentManager.recordConsent. cbv zeta.
fold (startingPreferences m env user ip ua).
destruct (recordLoop_fields m env user (if consentGiven then granted else denied)
            ip ua purposes 1 (startingPreferences m env user ip ua)
            (ConsentManager.auditLog m)) as (H1 & H2 & H3 & H4).
cbv zeta in *.
destruct (ConsentManager.recordLoop m env user _ ip ua 1 _ _ purposes)
  as [p1 log1].
simpl in *. auto 10.
Qed.

Lemma fold_setPurpose_get status purposes : forall ps q,
  ConsentManager.getPurpose q
    (fold_left (fun ps q => ConsentManager.setPurpose q status ps) purposes ps)
  = if listed q purposes then Some status else ConsentManager.getPurpose q ps.
Proof.
induction purposes as [|q0 rest IH]; intros ps q; simpl; [reflexivity|].
rewrite IH, getPurpose_setPurpose.
destruct (ProcessingPurpose_eqb q q0); simpl; [|reflexivity].
now destruct (listed q rest).
Qed.

Lemma recordConsent_timeZone m env user purposes consentGiven ip ua :
  ConsentManager.timeZone
    (snd (ConsentManager.recordConsent m env user purposes consentGiven ip ua))
  = ConsentManager.timeZone m.
Proof.
unfold ConsentManager.recordConsent. cbv zeta.
now destruct (ConsentManager.recordLoop _ _ _ _ _ _ _ _ _ _).
Qed.

(** X16.  [recordConsent] with consent given, followed by
    [verifyConsent] for a listed purpose: the consent is valid exactly
    until the expiry date, which is [consentExpiryDays] calendar days, in
    the time zone of the host, after the user's first recorded consent.
    For a user who already has a record the period is not renewed: it
    still runs from the stored [consentTimestamp], so consent that had
    expired stays invalid, and is reported as [pending] and in need of
    renewal, after it is given again.  With consent refused the purpose
    is never valid. *)
Theorem recordConsent_validity_period
  (m : ConsentManager.t) (env : ConsentManager.Env) (user : string)
  (purposes : list ProcessingPurpose) (ip ua : string)
  (purpose : ProcessingPurpose) (time : Z) :
  In purpose purposes ->
  let given := snd (ConsentManager.recordConsent m env user purposes true ip ua) in
  let refused :=
    snd (ConsentManager.recordConsent m env user purposes false ip ua) in
  let expiry :=
    JS.addDays (ConsentManager.timeZone m)
               (consentSince m user (ConsentManager.now env))
               (ConsentManager.consentExpiryDays m) in
  let v := ConsentManager.verifyConsent given time user purpose in
  hasConsent v = true
  /\ expiryDate v = Some expiry
  /\ isValid v = (time <=? expiry)
  /\ requiresRenewal v = negb (time <=? expiry)
  /\ consentStatus v = (if time <=? expiry then granted else pending)
  /\ isValid (ConsentManager.verifyConsent refused time user purpose) = false.
Proof.
intros Hin. cbv zeta.
apply listed_In in Hin.
assert (Hsince : ConsentPreferences.consentTimestamp
                   (startingPreferences m env user ip ua)
                 = consentSince m user (ConsentManager.now env)).
{ unfold startingPreferences, consentSince.
  now destruct (ConsentManager.preferences m !! user). }
set (expiry := JS.addDays (ConsentManager.timeZone m)
                 (consentSince m user (ConsentManager.now env))
                 (ConsentManager.consentExpiryDays m)).
assert (Hgt : (time >? expiry) = negb (time <=? expiry)).
{ rewrite Z.gtb_ltb, Z.leb_antisym. now rewrite negb_involutive. }
destruct (recordConsent_stored m env user purposes true ip ua)
  as (Hp & Hd & _ & Hps & _ & _ & Ht & _).
destruct (recordConsent_stored m env user purposes false ip ua)
  as (Hp' & Hd' & _ & Hps' & _ & _ & _ & _).
cbv zeta in *.
unfold ConsentManager.verifyConsent.
rewrite !recordConsent_timeZone.
rewrite Hp, Hp', !lookup_insert_eq, Hd, Hps, Hps', Ht, Hsince.
rewrite !fold_setPurpose_get, Hin. simpl. fold expiry. rewrite Hgt.
destruct (time <=? expiry); simpl; auto 10.
Qed.

(** Consent from 8 January 2025, noon in New York, with a period of 60
    days that spans the change to daylight-saving time of 9 March: given
    again on 9 March at 17:00 UTC it is invalid, the period having ended
    at 16:00 UTC, an hour short of 60 times 24 hours. *)
Lemma recordConsent_validity_period_witness :
  let newYork :=
    {| JS.offsetAt := fun t => if t <? 1741503600000 then -18000000
                               else -14400000;
       JS.offsetAtLocal := fun t => if t <? 1741489200000 then -18000000
                                    else -14400000 |} in
  let env0 := {| ConsentManager.now := 1736355600000;
                 ConsentManager.freshId := fun _ => "id"%string |} in
  let env1 := {| ConsentManager.now := 1741539600000;
                 ConsentManager.freshId := fun _ => "id"%string |} in
  let m := snd (ConsentManager.recordConsent
                  (ConsentManager.create newYork GDPR (Some 60))
                  env0 "alice" [logging] true "10.0.0.1" "agent") in
  let again := snd (ConsentManager.recordConsent m env1 "alice" [logging] true
                      "10.0.0.1" "agent") in
  let v := ConsentManager.verifyConsent again 1741539600000 "alice" logging in
  In logging [logging]
  /\ expiryDate v = Some (1736355600000 + 60 * 86400000 - 3600000)
  /\ hasConsent v = true
  /\ isValid v = false
  /\ requiresRenewal v = true
  /\ consentStatus v = pending.
Proof.
intros newYork env0 env1 m again v.
assert (Hin : In logging [logging]) by (left; reflexivity).
split; [exact Hin|].
destruct (recordConsent_validity_period m env1 "alice" [logging]
            "10.0.0.1" "agent" logging 1741539600000 Hin)
  as (H1 & H2 & H3 & H4 & H5 & _).
split; [exact H2|].
split; [exact H1|]. split; [exact H3|]. split; [exact H4|exact H5].
Defined.

(** ** What every stored record satisfies *)

Section JsMapKeys.
Context {K V : Type} (eqb : K -> K -> bool).
Hypothesis eqb_eq : forall a b, eqb a b = true <-> a = b.

Lemma keys_set_In k (v : V) m k' :
  In k' (JS.keys (JS.set eqb k v m)) <-> In k' (JS.keys m) \/ k' = k.
Proof.
unfold JS.keys. induction m as [|[k1 v1] m IH]; simpl.
- intuition.
- destruct (eqb k k1) eqn:E; simpl.
  + apply eqb_eq in E. subst k1. intuition.
  + rewrite IH. intuition.
Qed.

Lemma keys_set_NoDup k (v : V) m :
  List.NoDup (JS.keys m) -> List.NoDup (JS.keys (JS.set eqb k v m)).
Proof.
unfold JS.keys. induction m as [|[k1 v1] m IH]; simpl; intros H.
- constructor; [|constructor]. simpl. tauto.
- inversion H as [|? ? Hnotin Hrest]; subst.
  destruct (eqb k k1) eqn:E; simpl.
  + apply eqb_eq in E. subst k1. now constructor.
  + constructor; [|now apply IH].
    intros Hin. apply (keys_set_In k v m k1) in Hin.
    destruct Hin as [Hin| ->]; [now apply Hnotin|].
    rewrite (proj2 (eqb_eq k k) eq_refl) in E. discriminate.
Qed.

Lemma set_Forall (P : K * V -> Prop) k v m :
  Forall P m -> P (k, v) -> Forall P (JS.set eqb k v m).
Proof.
induction m as [|[k1 v1] m IH]; simpl; intros H Hkv.
- now constructor.
- inversion H; subst. destruct (eqb k k1); constructor; auto.
Qed.
End JsMapKeys.

Lemma fold_setPurpose_NoDup status purposes : forall ps,
  List.NoDup (JS.keys ps) ->
  List.NoDup (JS.keys
           (fold_left (fun ps q => ConsentManager.setPurpose q status ps)
                      purposes ps)).
Proof.
induction purposes as [|q rest IH]; intros ps H; simpl; [exact H|].
apply IH. now apply (keys_set_NoDup _ ProcessingPurpose_eqb_eq).
Qed.

Lemma string_eqb_eq a b : String.eqb a b = true <-> a = b.
Proof. apply String.eqb_eq. Qed.

Lemma startingPreferences_wellFormed m env user ip ua :
  wellFormed m ->
  let p := startingPreferences m env user ip ua in
  ConsentPreferences.userId p = user
  /\ ConsentPreferences.dataRetentionHours p
     <= 24 * ConsentManager.consentExpiryDays m
  /\ List.NoDup (JS.keys (ConsentPreferences.purposes p)).
Proof.
intros [Hprefs _]. cbv zeta. unfold startingPreferences.
destruct (ConsentManager.preferences m !! user) as [p|] eqn:E.
- destruct (Hprefs user p E) as (H1 & H2 & _ & H4). auto.
- simpl. repeat split; [lia|constructor].
Qed.

Lemma step_wellFormed m call :
  wellFormed m ->
  wellFormed (ConsentManager.step m call)
  /\ ConsentManager.consentExpiryDays (ConsentManager.step m call)
     = ConsentManager.consentExpiryDays m.
Proof.
intros Hwf. destruct call as [env op].
pose proof Hwf as (Hprefs & Hreq & Hkeys).
destruct op as [user purposes given ip ua|user purposes ip ua|user hours
               |user ty description|user]; simpl.
- destruct (recordConsent_stored m env user purposes given ip ua)
    as (Hp & Hd & Hr & Hps & Hu & Hret & _ & Hpii).
  destruct (startingPreferences_wellFormed m env user ip ua Hwf)
    as (Su & Sret & Snd).
  cbv zeta in *. split; [|exact Hd].
  split; [|rewrite Hr; auto].
  intros u p. rewrite Hp, Hd. intros Hlook.
  destruct (decide (u = user)) as [->|Hne].
  + rewrite lookup_insert_eq in Hlook. injection Hlook as <-.
    repeat split; try congruence; try lia.
    rewrite Hps. now apply fold_setPurpose_NoDup.
  + rewrite lookup_insert_ne in Hlook by congruence. now apply Hprefs.
- unfold ConsentManager.withdrawConsent.
  destruct (ConsentManager.preferences m !! user) as [p0|] eqn:E;
    [|simpl; auto].
  destruct (withdrawLoop_fields m env user ip ua purposes 0 p0
              (ConsentManager.auditLog m)) as (Hps & Hu & Hret & _).
  cbv zeta in *.
  destruct (ConsentManager.withdrawLoop m env user ip ua 0 p0
              (ConsentManager.auditLog m) purposes) as [p1 log1].
  simpl in *. split; [|reflexivity]. split; [|auto].
  destruct (Hprefs user p0 E) as (W1 & W2 & _ & W4).
  intros u p Hlook. simpl in Hlook.
  destruct (decide (u = user)) as [->|Hne].
  + rewrite lookup_insert_eq in Hlook. injection Hlook as <-.
    repeat split; simpl; try congruence; try lia.
    rewrite Hps. now apply fold_setPurpose_NoDup.
  + rewrite lookup_insert_ne in Hlook by congruence. now apply Hprefs.
- unfold ConsentManager.updateDataRetention.
  destruct (ConsentManager.preferences m !! user) as [p0|] eqn:E;
    [|simpl; auto].
  simpl. split; [|reflexivity]. split; [|auto].
  destruct (Hprefs user p0 E) as (W1 & W2 & W3 & W4).
  intros u p Hlook. simpl in Hlook.
  destruct (decide (u = user)) as [->|Hne].
  + rewrite lookup_insert_eq in Hlook. injection Hlook as <-.
    repeat split; simpl; try assumption. lia.
  + rewrite lookup_insert_ne in Hlook by congruence. now apply Hprefs.
- split; [|reflexivity]. split; [exact Hprefs|]. simpl. split.
  + apply set_Forall; [exact Hreq|reflexivity].
  + now apply (keys_set_NoDup _ string_eqb_eq).
- split; [|reflexivity]. split; [|split]; simpl.
  + intros u p Hlook. apply lookup_delete_Some in Hlook.
    destruct Hlook as [_ Hlook]. now apply Hprefs.
  + rewrite List.Forall_forall in *. intros kv Hin.
    apply in_map_iff in Hin. destruct Hin as [kv0 [<- Hin0]].
    specialize (Hreq kv0 Hin0). unfold ConsentManager.anonymize.
    destruct (String.eqb _ user); simpl; exact Hreq.
  + unfold JS.keys in *. rewrite map_map.
    erewrite map_ext; [exact Hkeys|].
    intros kv. unfold ConsentManager.anonymize.
    now destruct (String.eqb _ user).
Qed.

(** X17.  After any sequence of [recordConsent], [withdrawConsent],
    [updateDataRetention], [submitDataSubjectRequest] and
    [processDataDeletion] on a new manager: every stored consent record
    is filed under the user it names, its retention period is at most
    24 hours times [consentExpiryDays], its global PII status is the one
    [calculateGlobalPIIConsent] derives from its purposes, and it lists
    no purpose twice; every data subject request is filed under its own
    identifier, and no identifier is filed twice. *)
Theorem consent_records_well_formed
  (zone : JS.TimeZone) (j : Jurisdiction) (expiryDays : option Z)
  (calls : list (ConsentManager.Env * ConsentManager.Op)) :
  let m := ConsentManager.run (ConsentManager.create zone j expiryDays) calls in
  wellFormed m
  /\ ConsentManager.consentExpiryDays m = default 365 expiryDays.
Proof.
cbv zeta. unfold ConsentManager.run.
assert (H0 : wellFormed (ConsentManager.create zone j expiryDays)
             /\ ConsentManager.consentExpiryDays (ConsentManager.create zone j expiryDays)
                = default 365 expiryDays).
{ split; [|reflexivity]. split; [|split]; simpl.
  - intros u p H. rewrite lookup_empty in H. discriminate.
  - constructor.
  - constructor. }
revert H0. generalize (ConsentManager.create zone j expiryDays).
induction calls as [|call calls IH]; intros m [Hwf Hd]; simpl.
- auto.
- apply IH. destruct (step_wellFormed m call Hwf) as [Hwf' Hd'].
  split; [exact Hwf'|congruence].
Qed.

(** ** Erasure *)

Lemma addAuditLogEntry_skipn log entry :
  ConsentManager.addAuditLogEntry log entry
  = skipn (length log + 1 - Z.to_nat ConsentManager.maxAuditLog) log ++ [entry].
Proof.
unfold ConsentManager.addAuditLogEntry. cbv zeta.
rewrite length_app. simpl length. unfold ConsentManager.maxAuditLog.
destruct (Z.of_nat (length log + 1) >? 10000) eqn:E.
- rewrite Z.gtb_ltb in E. apply Z.ltb_lt in E.
  rewrite List.skipn_app.
  replace (Z.to_nat (Z.of_nat (length log + 1) - 10000))
    with (length log + 1 - Z.to_nat 10000)%nat by lia.
  replace (length log + 1 - Z.to_nat 10000 - length log)%nat
    with 0%nat by lia.
  reflexivity.
- rewrite Z.gtb_ltb in E. apply Z.ltb_ge in E.
  replace (length log + 1 - Z.to_nat 10000)%nat with 0%nat by lia.
  reflexivity.
Qed.

Lemma anonymize_userId user kv :
  user <> "[DELETED]"%string ->
  String.eqb (DataSubjectRequest.userId (snd (ConsentManager.anonymize user kv)))
             user = false.
Proof.
intros Hne. unfold ConsentManager.anonymize.
destruct (String.eqb (DataSubjectRequest.userId (snd kv)) user) eqn:E.
- change (String.eqb "[DELETED]" user = false). apply String.eqb_neq. congruence.
- exact E.
Qed.

Lemma anonymize_other user u kv :
  u <> user -> u <> "[DELETED]"%string ->
  String.eqb (DataSubjectRequest.userId (snd kv)) u = true ->
  ConsentManager.anonymize user kv = kv.
Proof.
intros Hu Hd E. apply String.eqb_eq in E. unfold ConsentManager.anonymize.
destruct (String.eqb (DataSubjectRequest.userId (snd kv)) user) eqn:E';
  [|reflexivity].
apply String.eqb_eq in E'. congruence.
Qed.

Lemma filter_anonymized_self user reqs :
  user <> "[DELETED]"%string ->
  List.filter
    (fun request => String.eqb (DataSubjectRequest.userId request) user)
    (JS.values (map (ConsentManager.anonymize user) reqs)) = [].
Proof.
intros Hne. unfold JS.values. induction reqs as [|kv reqs IH]; simpl; [reflexivity|].
now rewrite anonymize_userId.
Qed.

Lemma filter_anonymized_other user u reqs :
  u <> user -> u <> "[DELETED]"%string ->
  List.filter
    (fun request => String.eqb (DataSubjectRequest.userId request) u)
    (JS.values (map (ConsentManager.anonymize user) reqs))
  = List.filter
      (fun request => String.eqb (DataSubjectRequest.userId request) u)
      (JS.values reqs).
Proof.
intros Hu Hd. unfold JS.values. induction reqs as [|kv reqs IH]; simpl; [reflexivity|].
rewrite IH.
destruct (String.eqb (DataSubjectRequest.userId (snd kv)) u) eqn:E.
- rewrite (anonymize_other user u kv Hu Hd E), E. reflexivity.
- unfold ConsentManager.anonymize.
  destruct (String.eqb (DataSubjectRequest.userId (snd kv)) user) eqn:E'.
  + assert (Hd' : String.eqb "[DELETED]" u = false)
      by (apply String.eqb_neq; congruence).
    change (DataSubjectRequest.userId (snd (fst kv, _))) with "[DELETED]"%string.
    now rewrite Hd'.
  + now rewrite E.
Qed.

(** X18.  [processDataDeletion]: the call reports success; afterwards
    the user has no consent record, so [verifyConsent] reports consent
    as not valid for every purpose at every time, while the records of
    other users are untouched; the requests filed stay filed under the
    same identifiers, but none is attributed to the user any more, and
    the requests of other users are listed as before; the last entry of
    the audit log records the deletion under the user ["[DELETED]"],
    with the hash of the user's identifier and the number of requests
    that were anonymized. *)
Theorem processDataDeletion_erases
  (m : ConsentManager.t) (env : ConsentManager.Env) (user : string) :
  let r := ConsentManager.processDataDeletion m env user in
  let m' := snd r in
  fst r = true
  /\ ConsentManager.getConsentPreferences m' user = None
  /\ (forall time purpose,
        isValid (ConsentManager.verifyConsent m' time user purpose) = false)
  /\ (forall u, u <> user ->
        ConsentManager.getConsentPreferences m' u
        = ConsentManager.getConsentPreferences m u)
  /\ JS.keys (ConsentManager.dataSubjectRequests m')
     = JS.keys (ConsentManager.dataSubjectRequests m)
  /\ (user <> "[DELETED]"%string ->
      ConsentManager.getDataSubjectRequests m' user = []
      /\ forall u, u <> user -> u <> "[DELETED]"%string ->
           ConsentManager.getDataSubjectRequests m' u
           = ConsentManager.getDataSubjectRequests m u)
  /\ exists entry,
       last (ConsentManager.auditLog m') = Some entry
       /\ AuditLogEntry.eventType entry = data_deleted
       /\ AuditLogEntry.userId entry = "[DELETED]"%string
       /\ AuditLogEntry.details entry
          = DeletionDetails
              (ConsentManager.hashUserId user)
              (Z.of_nat (length (ConsentManager.getDataSubjectRequests m user))).
Proof.
cbv zeta. unfold ConsentManager.processDataDeletion. simpl.
unfold ConsentManager.getConsentPreferences, ConsentManager.verifyConsent. simpl.
rewrite lookup_delete_eq.
split; [reflexivity|]. split; [reflexivity|]. split; [reflexivity|].
split; [intros u Hu; now rewrite lookup_delete_ne by congruence|].
split.
{ unfold JS.keys. rewrite map_map. apply map_ext. intros kv.
  unfold ConsentManager.anonymize.
  now destruct (String.eqb (DataSubjectRequest.userId (snd kv)) user). }
split.
{ intros Hne. unfold ConsentManager.getDataSubjectRequests. simpl. split.
  - now rewrite filter_anonymized_self.
  - intros u Hu Hd. now rewrite filter_anonymized_other. }
eexists. rewrite addAuditLogEntry_skipn, last_snoc.
split; [reflexivity|]. simpl. auto.
Qed.

Lemma filter_app_one {A} (f : A -> bool) l x :
  f x = false -> List.filter f (l ++ [x]) = List.filter f l.
Proof.
intros H. rewrite List.filter_app. simpl. rewrite H. apply app_nil_r.
Qed.

Lemma getAuditLog_user m user :
  user <> ""%string ->
  ConsentManager.getAuditLog m (Some user) None None None
  = List.filter (fun entry => String.eqb (AuditLogEntry.userId entry) user)
                (ConsentManager.auditLog m).
Proof.
intros Hne. unfold ConsentManager.getAuditLog. apply List.filter_ext.
intros entry. apply String.eqb_neq in Hne. rewrite Hne.
cbn [negb andb].
now destruct (String.eqb (AuditLogEntry.userId entry) user).
Qed.

(** X19.  [processDataDeletion] removes nothing from the audit log: for
    a user whose identifier is neither empty nor ["[DELETED]"], and a
    log that is not full, [exportUserConsentData] after the deletion
    returns no preferences and no requests but the same audit trail as
    before, the entries recorded under the user's identifier, with
    their IP address and user agent. *)
Theorem processDataDeletion_keeps_audit_trail
  (m : ConsentManager.t) (env : ConsentManager.Env) (user : string) :
  user <> ""%string -> user <> "[DELETED]"%string ->
  Z.of_nat (length (ConsentManager.auditLog m)) < 10000 ->
  let m' := snd (ConsentManager.processDataDeletion m env user) in
  ConsentManager.exportUserConsentData m' user
  = {| ConsentManager.exportedPreferences := None;
       ConsentManager.exportedAuditTrail :=
         ConsentManager.exportedAuditTrail
           (ConsentManager.exportUserConsentData m user);
       ConsentManager.exportedRequests := [] |}.
Proof.
intros Hne Hdel Hlen. cbv zeta.
unfold ConsentManager.exportUserConsentData.
rewrite !getAuditLog_user by assumption.
unfold ConsentManager.processDataDeletion.
unfold ConsentManager.getConsentPreferences, ConsentManager.getDataSubjectRequests.
cbn [snd ConsentManager.preferences ConsentManager.auditLog
     ConsentManager.dataSubjectRequests].
rewrite lookup_delete_eq, filter_anonymized_self by assumption.
f_equal.
rewrite addAuditLogEntry_skipn.
replace (length (ConsentManager.auditLog m) + 1
         - Z.to_nat ConsentManager.maxAuditLog)%nat with 0%nat
  by (unfold ConsentManager.maxAuditLog; lia).
rewrite skipn_O. apply filter_app_one.
cbn [AuditLogEntry.userId]. apply String.eqb_neq. congruence.
Qed.

Lemma processDataDeletion_keeps_audit_trail_witness :
  let env := {| ConsentManager.now := 1700000000000;
                ConsentManager.freshId := fun _ => "id"%string |} in
  let m := snd (ConsentManager.recordConsent (ConsentManager.create JS.utc GDPR None)
                  env "alice" [logging] true "10.0.0.1" "agent") in
  let m' := snd (ConsentManager.processDataDeletion m env "alice") in
  Z.of_nat (length (ConsentManager.auditLog m)) < 10000
  /\ ConsentManager.exportedPreferences
       (ConsentManager.exportUserConsentData m' "alice") = None
  /\ map AuditLogEntry.ipAddress
         (ConsentManager.exportedAuditTrail
            (ConsentManager.exportUserConsentData m' "alice"))
     = ["10.0.0.1"%string].
Proof.
intros env m m'.
assert (Hlen : Z.of_nat (length (ConsentManager.auditLog m)) < 10000)
  by (vm_compute; reflexivity).
split; [exact Hlen|].
assert (Hne : "alice"%string <> ""%string) by discriminate.
assert (Hdel : "alice"%string <> "[DELETED]"%string) by discriminate.
pose proof (processDataDeletion_keeps_audit_trail m env "alice" Hne Hdel Hlen)
  as H.
cbv zeta in H. fold m' in H. rewrite H. split; reflexivity.
Defined.

(** ** Data subject requests *)

Lemma set_fresh {K V} (eqb : K -> K -> bool) k (v : V) m :
  JS.get eqb k m = None -> JS.set eqb k v m = m ++ [(k, v)].
Proof.
induction m as [|[k1 v1] m IH]; simpl; [reflexivity|].
destruct (eqb k k1); [discriminate|]. intros H. now rewrite IH.
Qed.

Lemma byRequestDateDescending_total a b :
  ConsentManager.byRequestDateDescending a b = Gt ->
  ConsentManager.byRequestDateDescending b a <> Gt.
Proof.
unfold ConsentManager.byRequestDateDescending. intros H H'.
apply Z.compare_gt_iff in H. apply Z.compare_gt_iff in H'. lia.
Qed.

Lemma byRequestDateDescending_spec a b :
  notAfter ConsentManager.byRequestDateDescending a b
  <-> DataSubjectRequest.requestDate b <= DataSubjectRequest.requestDate a.
Proof.
unfold notAfter, ConsentManager.byRequestDateDescending.
rewrite Z.compare_gt_iff. lia.
Qed.

(** X20.  [getDataSubjectRequests] lists requests of the given user
    only, newest first.  After [submitDataSubjectRequest] under an
    identifier not yet in use, the user's list is the former list with
    the new request, whose status is [pending], added; the lists of all
    other users and all consent records are unchanged. *)
Theorem submitDataSubjectRequest_is_listed
  (m : ConsentManager.t) (env : ConsentManager.Env) (user : string)
  (requestType : RequestType) (description : string) :
  JS.get String.eqb (ConsentManager.freshId env 0)
         (ConsentManager.dataSubjectRequests m) = None ->
  let r := ConsentManager.submitDataSubjectRequest m env user requestType
                                                   description in
  let request := fst r in
  let m' := snd r in
  Permutation (ConsentManager.getDataSubjectRequests m' user)
              (request :: ConsentManager.getDataSubjectRequests m user)
  /\ (forall u, u <> user ->
        ConsentManager.getDataSubjectRequests m' u
        = ConsentManager.getDataSubjectRequests m u)
  /\ (forall u,
        StronglySorted
          (fun a b => DataSubjectRequest.requestDate b
                      <= DataSubjectRequest.requestDate a)
          (ConsentManager.getDataSubjectRequests m' u)
        /\ Forall (fun a => DataSubjectRequest.userId a = u)
                  (ConsentManager.getDataSubjectRequests m' u))
  /\ DataSubjectRequest.status request = request_pending
  /\ DataSubjectRequest.userId request = user
  /\ ConsentManager.preferences m' = ConsentManager.preferences m.
Proof.
intros Hfresh. cbv zeta.
unfold ConsentManager.submitDataSubjectRequest, ConsentManager.getDataSubjectRequests.
cbn [fst snd ConsentManager.dataSubjectRequests ConsentManager.preferences
     DataSubjectRequest.id DataSubjectRequest.status DataSubjectRequest.userId].
rewrite (set_fresh _ _ _ _ Hfresh).
unfold JS.values. rewrite map_app. cbn [map snd].
split; [|split; [|split; [|auto]]].
- rewrite sort_perm, List.filter_app. cbn [List.filter DataSubjectRequest.userId].
  rewrite String.eqb_refl.
  rewrite <- Permutation_cons_append. constructor. symmetry. apply sort_perm.
- intros u Hu. rewrite List.filter_app. cbn [List.filter DataSubjectRequest.userId].
  replace (String.eqb user u) with false
    by (symmetry; apply String.eqb_neq; congruence).
  now rewrite app_nil_r.
- intros u. split.
  + eapply StronglySorted_impl; [apply byRequestDateDescending_spec|].
    apply sort_strongly_sorted; [apply byRequestDateDescending_total|].
    intros a b c H1 H2. apply byRequestDateDescending_spec.
    apply (proj1 (byRequestDateDescending_spec _ _)) in H1.
    apply (proj1 (byRequestDateDescending_spec _ _)) in H2. lia.
  + apply List.Forall_forall. intros a Ha. apply sort_In in Ha.
    apply List.filter_In in Ha. destruct Ha as [_ Ha].
    now apply String.eqb_eq in Ha.
Qed.

Lemma submitDataSubjectRequest_is_listed_witness :
  let env := {| ConsentManager.now := 1700000000000;
                ConsentManager.freshId := fun _ => "request_1"%string |} in
  let m := ConsentManager.create JS.utc GDPR None in
  let r := ConsentManager.submitDataSubjectRequest m env "alice" erasure
                                                   "forget me" in
  JS.get String.eqb "request_1" (ConsentManager.dataSubjectRequests m) = None
  /\ Permutation (ConsentManager.getDataSubjectRequests (snd r) "alice")
                 [fst r].
Proof.
intros env m r.
assert (Hfresh : JS.get String.eqb (ConsentManager.freshId env 0)
                        (ConsentManager.dataSubjectRequests m) = None)
  by reflexivity.
split; [exact Hfresh|].
exact (proj1 (submitDataSubjectRequest_is_listed m env "alice" erasure
                "forget me" Hfresh)).
Defined.

(** ** Statistics *)

Lemma countStatus_countIf statuses : forall c,
  let c' := fold_left ConsentManager.countStatus statuses c in
  ConsentManager.grantedCount c'
  = ConsentManager.grantedCount c
    + countIf (fun s => ConsentStatus_eqb s granted) statuses
  /\ ConsentManager.deniedCount c'
     = ConsentManager.deniedCount c
       + countIf (fun s => ConsentStatus_eqb s denied) statuses
  /\ ConsentManager.withdrawnCount c'
     = ConsentManager.withdrawnCount c
       + countIf (fun s => ConsentStatus_eqb s withdrawn) statuses
  /\ ConsentManager.pendingCount c'
     = ConsentManager.pendingCount c
       + countIf (fun s => ConsentStatus_eqb s pending) statuses.
Proof.
unfold countIf.
induction statuses as [|s statuses IH]; intros c; cbv zeta; simpl.
- lia.
- destruct (IH (ConsentManager.countStatus c s)) as (H1 & H2 & H3 & H4).
  cbv zeta in *. rewrite H1, H2, H3, H4.
  destruct s; simpl; lia.
Qed.

Lemma tallyUser_fold m now users : forall acc,
  let acc' := fold_left (ConsentManager.tallyUser m now) users acc in
  ConsentManager.byStatus acc'
  = fold_left ConsentManager.countStatus
              (map ConsentPreferences.piiProcessing users)
              (ConsentManager.byStatus acc)
  /\ ConsentManager.totalRetentionHours acc'
     = ConsentManager.totalRetentionHours acc
       + fold_right Z.add 0 (map ConsentPreferences.dataRetentionHours users)
  /\ ConsentManager.expiring acc'
     = ConsentManager.expiring acc
       + countIf
           (fun p =>
              JS.addDays (ConsentManager.timeZone m)
                         (ConsentPreferences.consentTimestamp p)
                         (ConsentManager.consentExpiryDays m)
              <=? JS.addDays (ConsentManager.timeZone m) now 30)
           users.
Proof.
unfold countIf.
induction users as [|p users IH]; intros acc; cbv zeta; simpl.
- repeat split; lia.
- destruct (IH (ConsentManager.tallyUser m now acc p)) as (H1 & H2 & H3).
  cbv zeta in *. rewrite H1, H2, H3. simpl.
  split; [reflexivity|]. split; [lia|].
  destruct (_ <=? _); simpl; lia.
Qed.

Lemma countIf_map {A B} (g : A -> B) (f : B -> bool) l :
  countIf f (map g l) = countIf (fun a => f (g a)) l.
Proof.
unfold countIf. induction l as [|a l IH]; simpl; [reflexivity|].
destruct (f (g a)); simpl; lia.
Qed.

Lemma countIf_statuses (users : list ConsentPreferences.t) :
  let having s :=
    countIf (fun p => ConsentStatus_eqb (ConsentPreferences.piiProcessing p) s)
            users in
  having granted + having denied + having withdrawn + having pending
  = Z.of_nat (length users).
Proof.
cbv zeta. unfold countIf. induction users as [|p l IH]; simpl; [reflexivity|].
destruct (ConsentPreferences.piiProcessing p); simpl; lia.
Qed.

(** X21.  [getConsentStatistics]: [totalUsers] is the number of stored
    records; each counter of [consentsByStatus] is the number of records
    with that global status, so the four add up to [totalUsers];
    [expiringSoon] is the number of records whose expiry date, the date
    [consentExpiryDays] calendar days after the consent, is no later than
    the date 30 calendar days after the reading (records that have
    expired already are among them), at most [totalUsers];
    [averageRetentionHours] is the sum of the retention periods divided
    by the number of records, and 0 when there is none. *)
Theorem getConsentStatistics_totals (m : ConsentManager.t) (now : Z) :
  let stats := ConsentManager.getConsentStatistics m now in
  let users := (map_to_list (ConsentManager.preferences m)).*2 in
  let byStatus := ConsentManager.consentsByStatus stats in
  let having s :=
    countIf (fun p => ConsentStatus_eqb (ConsentPreferences.piiProcessing p) s)
            users in
  let expiryDate p :=
    JS.addDays (ConsentManager.timeZone m)
               (ConsentPreferences.consentTimestamp p)
               (ConsentManager.consentExpiryDays m) in
  let thirtyDaysFromNow := JS.addDays (ConsentManager.timeZone m) now 30 in
  ConsentManager.totalUsers stats = Z.of_nat (length users)
  /\ ConsentManager.grantedCount byStatus = having granted
  /\ ConsentManager.deniedCount byStatus = having denied
  /\ ConsentManager.withdrawnCount byStatus = having withdrawn
  /\ ConsentManager.pendingCount byStatus = having pending
  /\ ConsentManager.grantedCount byStatus + ConsentManager.deniedCount byStatus
     + ConsentManager.withdrawnCount byStatus
     + ConsentManager.pendingCount byStatus
     = ConsentManager.totalUsers stats
  /\ ConsentManager.expiringSoon stats
     = countIf (fun p => expiryDate p <=? thirtyDaysFromNow) users
  /\ 0 <= ConsentManager.expiringSoon stats <= ConsentManager.totalUsers stats
  /\ ConsentManager.averageRetentionHours stats
     == inject_Z (fold_right Z.add 0
                    (map ConsentPreferences.dataRetentionHours users))
        / inject_Z (Z.max 1 (Z.of_nat (length users))).
Proof.
cbv zeta. unfold ConsentManager.getConsentStatistics. cbv zeta.
cbn [ConsentManager.totalUsers ConsentManager.consentsByStatus
     ConsentManager.expiringSoon ConsentManager.averageRetentionHours].
set (users := (map_to_list (ConsentManager.preferences m)).*2).
assert (Hsize : size (ConsentManager.preferences m) = length users).
{ unfold users. now rewrite length_fmap, length_map_to_list. }
rewrite Hsize.
destruct (tallyUser_fold m now users
            {| ConsentManager.byPurpose := fun _ => ConsentManager.noCounts;
               ConsentManager.byStatus := ConsentManager.noCounts;
               ConsentManager.totalRetentionHours := 0;
               ConsentManager.expiring := 0 |}) as (H1 & H2 & H3).
cbv zeta in *. cbn [ConsentManager.byStatus ConsentManager.totalRetentionHours
                    ConsentManager.expiring] in *.
rewrite H1, H2, H3.
destruct (countStatus_countIf (map ConsentPreferences.piiProcessing users)
            ConsentManager.noCounts) as (C1 & C2 & C3 & C4).
cbv zeta in *. rewrite C1, C2, C3, C4. simpl.
rewrite !(countIf_map ConsentPreferences.piiProcessing).
split; [reflexivity|]. split; [reflexivity|]. split; [reflexivity|].
split; [reflexivity|]. split; [reflexivity|]. split.
- apply countIf_statuses.
- split; [reflexivity|]. split; [|reflexivity]. unfold countIf. split; [lia|].
  match goal with
  | |- context [List.filter ?f users] =>
      pose proof (List.filter_length_le f users)
  end.
  lia.
Qed.

(** * Further properties of the engine *)

(** ** The risk score *)

Lemma riskFold_nonneg l : forall r, (0 <= r)%Q -> (0 <= fold_left riskFold l r)%Q.
Proof.
induction l as [|d l IH]; intros r Hr; simpl; [exact Hr|].
apply IH. unfold riskFold. eapply Qle_trans; [exact Hr|apply Q.le_max_l].
Qed.

Lemma calculateRiskScore_unfold detections logLevel :
  detections <> [] ->
  SecurityEngine.calculateRiskScore detections logLevel
  = (let base := fold_left riskFold detections 0 in
     let leveled := base * SecurityEngine.logLevelMultiplier logLevel in
     Qmin 1.0
       (if (1 <? length detections)%nat
        then Qmin 1.0
               (leveled
                * (1 + (inject_Z (Z.of_nat (length detections)) - 1) * 0.1))
        else leveled))%Q.
Proof. destruct detections; [congruence|reflexivity]. Qed.

Lemma countFactor_pos (n : nat) :
  (0 <= 1 + (inject_Z (Z.of_nat n) - 1) * 0.1)%Q.
Proof.
assert (H : (0 <= inject_Z (Z.of_nat n))%Q).
{ unfold Qle. simpl. lia. }
lra.
Qed.

Lemma riskScore_monotone detections l l' :
  (SecurityEngine.logLevelMultiplier l <= SecurityEngine.logLevelMultiplier l')%Q ->
  (SecurityEngine.calculateRiskScore detections l
   <= SecurityEngine.calculateRiskScore detections l')%Q.
Proof.
intros Hl. destruct detections as [|d ds]; [simpl; lra|].
rewrite !calculateRiskScore_unfold by discriminate. cbv zeta.
set (base := fold_left riskFold (d :: ds) 0%Q).
assert (Hb : (0 <= base)%Q) by (apply riskFold_nonneg; lra).
pose proof (countFactor_pos (length (d :: ds))) as Hc.
set (k := (1 + (inject_Z (Z.of_nat (length (d :: ds))) - 1) * 0.1)%Q) in *.
assert (Hlev : (base * SecurityEngine.logLevelMultiplier l
                <= base * SecurityEngine.logLevelMultiplier l')%Q).
{ rewrite !(Qmult_comm base). now apply Qmult_le_compat_r. }
apply Q.min_le_compat_l.
destruct (1 <? length (d :: ds))%nat; [|exact Hlev].
apply Q.min_le_compat_l. now apply Qmult_le_compat_r.
Qed.

Lemma calculateRiskScore_range detections logLevel :
  (0 <= SecurityEngine.calculateRiskScore detections logLevel <= 1)%Q.
Proof.
destruct detections as [|d ds]; [simpl; lra|].
rewrite calculateRiskScore_unfold by discriminate. cbv zeta.
set (base := fold_left riskFold (d :: ds) 0%Q).
assert (Hb : (0 <= base)%Q) by (apply riskFold_nonneg; lra).
pose proof (countFactor_pos (length (d :: ds))) as Hc.
assert (Hm : (1 <= SecurityEngine.logLevelMultiplier logLevel)%Q)
  by (destruct logLevel; simpl; lra).
assert (Hlev : (0 <= base * SecurityEngine.logLevelMultiplier logLevel)%Q)
  by (apply Qmult_le_0_compat; lra).
split.
- apply Q.min_glb; [lra|].
  destruct (1 <? length (d :: ds))%nat; [|exact Hlev].
  apply Q.min_glb; [lra|]. now apply Qmult_le_0_compat.
- eapply Qle_trans; [apply Q.le_min_l|lra].
Qed.

(** X22.  [calculateRiskScore]: the score lies between 0 and 1 whatever
    the detections and their confidences; for the same detections it
    does not decrease from level [log] to [warn] to [error], and the
    levels [info] and [debug] score as [log].  With the score so
    computed, [classifyData] gives the level [public] exactly when there
    is no detection. *)
Theorem calculateRiskScore_range_and_order
  (detections : list PIIDetectionResult) :
  (forall logLevel,
     (0 <= SecurityEngine.calculateRiskScore detections logLevel <= 1)%Q)
  /\ (SecurityEngine.calculateRiskScore detections log
      <= SecurityEngine.calculateRiskScore detections warn)%Q
  /\ (SecurityEngine.calculateRiskScore detections warn
      <= SecurityEngine.calculateRiskScore detections error)%Q
  /\ SecurityEngine.calculateRiskScore detections info
     = SecurityEngine.calculateRiskScore detections log
  /\ SecurityEngine.calculateRiskScore detections debug
     = SecurityEngine.calculateRiskScore detections log
  /\ (forall now logLevel,
        sensitivityLevel
          (SecurityEngine.classifyData now detections
             (SecurityEngine.calculateRiskScore detections logLevel)) = public
        <-> detections = []).
Proof.
split; [|split; [|split; [|split; [|split]]]].
- intros logLevel. apply calculateRiskScore_range.
- apply riskScore_monotone. simpl. lra.
- apply riskScore_monotone. simpl. lra.
- destruct detections; reflexivity.
- destruct detections; reflexivity.
- intros now logLevel. split.
  + unfold SecurityEngine.classifyData. cbv zeta. simpl sensitivityLevel.
    destruct (_ || _); [discriminate|].
    destruct (_ || _); [discriminate|].
    destruct (Qle_bool 0.3 _); simpl; [discriminate|].
    destruct detections; [reflexivity|discriminate].
  + intros ->. reflexivity.
Qed.

(** ** What every scan result satisfies *)



Lemma Qltb_false a b : JS.Qltb a b = false <-> (b <= a)%Q.
Proof.
unfold JS.Qltb. rewrite negb_false_iff. apply Qle_bool_iff.
Qed.



Lemma gate_policy env e o :
  match SecurityEngine.consentGate env e o with
  | SecurityEngine.Blocked e' | SecurityEngine.Passed _ e' =>
      SecurityEngine.securityPolicy e' = SecurityEngine.securityPolicy e
      /\ SecurityEngine.piiDetector e' = SecurityEngine.piiDetector e
      /\ SecurityEngine.dataSanitizer e' = SecurityEngine.dataSanitizer e
      /\ SecurityEngine.consentManager e' = SecurityEngine.consentManager e
      /\ SecurityEngine.alerts e' = SecurityEngine.alerts e
      /\ SecurityEngine.scanHistory e' = SecurityEngine.scanHistory e
  end.
Proof.
unfold SecurityEngine.consentGate.
destruct (SecurityEngine.truthy (userId o)); [|simpl; auto 10].
destruct (default false (skipConsentCheck o)); [simpl; auto 10|].
destruct (negb _); [|simpl; auto 10].
cbn [SecurityEngine.withStatistics SecurityEngine.securityPolicy].
destruct (requireExplicitConsent _); simpl; auto 10.
Qed.


(** ** Policy updates *)




(** ** Alerts *)

Lemma firstn_In {A} k (l : list A) x : In x (firstn k l) -> In x l.
Proof.
intros H. rewrite <- (firstn_skipn k l). apply in_or_app. now left.
Qed.

Lemma sliceTo_In {A} n (l : list A) x : In x (JS.sliceTo n l) -> In x l.
Proof.
unfold JS.sliceTo. intros H. destruct (n <? 0); eapply firstn_In; exact H.
Qed.

Lemma getSecurityAlerts_In e sev res limit a :
  In a (SecurityEngine.getSecurityAlerts e sev res limit) ->
  In a (JS.values (SecurityEngine.alerts e))
  /\ (forall wanted, sev = Some wanted -> severity a = wanted)
  /\ (forall wanted, res = Some wanted -> resolved a = wanted).
Proof.
unfold SecurityEngine.getSecurityAlerts. intros H.
apply sliceTo_In, sort_In, List.filter_In in H. destruct H as [Hin Hkeep].
split; [exact Hin|]. split.
- intros wanted ->.
  destruct (SecurityEngine.Severity_eqb (severity a) wanted) eqn:E;
    [|discriminate].
  destruct (severity a), wanted; simpl in E; congruence.
- intros wanted ->.
  destruct (match sev with Some _ => _ | None => false end); [discriminate|].
  destruct (Bool.eqb (resolved a) wanted) eqn:E; [|discriminate].
  now apply Bool.eqb_prop.
Qed.

Lemma set_values_In {V} k (v : V) m x :
  List.NoDup (JS.keys m) ->
  In x (JS.set String.eqb k v m) ->
  x = (k, v) \/ (In x m /\ fst x <> k).
Proof.
unfold JS.keys. induction m as [|[k1 v1] m IH]; simpl; intros Hnd Hin.
- destruct Hin as [<-|[]]. now left.
- inversion Hnd as [|? ? Hnot Hrest]; subst.
  destruct (String.eqb k k1) eqn:E.
  + apply String.eqb_eq in E. subst k1.
    destruct Hin as [<-|Hin]; [now left|].
    right. split; [now right|]. intros Hk. apply Hnot.
    apply in_map_iff. exists x. split; [exact Hk|exact Hin].
  + apply String.eqb_neq in E.
    destruct Hin as [<-|Hin].
    * right. split; [now left|]. simpl. congruence.
    * destruct (IH Hrest Hin) as [->|[Hin' Hne]]; [now left|].
      right. split; [now right|exact Hne].
Qed.

Lemma set_keeps_others {V} k (v : V) m x :
  In x m -> fst x <> k -> In x (JS.set String.eqb k v m).
Proof.
induction m as [|[k1 v1] m IH]; simpl; [tauto|]. intros Hin Hne.
destruct (String.eqb k k1) eqn:E.
- apply String.eqb_eq in E. subst k1.
  destruct Hin as [<-|Hin]; [simpl in Hne; congruence|now right].
- destruct Hin as [<-|Hin]; [now left|right; now apply IH].
Qed.

Lemma set_existing_keys {V} k (v v0 : V) m :
  JS.get String.eqb k m = Some v0 ->
  JS.keys (JS.set String.eqb k v m) = JS.keys m.
Proof.
unfold JS.keys. induction m as [|[k1 v1] m IH]; simpl; [discriminate|].
destruct (String.eqb k k1) eqn:E; simpl.
- apply String.eqb_eq in E. now subst.
- intros H. now rewrite IH.
Qed.

Lemma get_In {V} k (v : V) m :
  JS.get String.eqb k m = Some v -> In (k, v) m.
Proof.
induction m as [|[k1 v1] m IH]; simpl; [discriminate|].
destruct (String.eqb k k1) eqn:E.
- apply String.eqb_eq in E. subst k1. intros [= ->]. now left.
- intros H. right. now apply IH.
Qed.

(** X25.  [resolveSecurityAlert] and [getSecurityAlerts], on an engine
    whose alerts are filed under their own identifiers: the call returns
    [true] exactly when an alert has the given identifier; afterwards no
    alert with that identifier is among the unresolved alerts that
    [getSecurityAlerts] lists, for any severity and limit; the alert is
    still stored under its identifier, with [resolved] set and every
    other field as it was; all other alerts are unchanged, and none is
    added or removed.  Whatever the filters, every alert that
    [getSecurityAlerts] lists is stored, has the severity asked for and
    is resolved or not as asked for. *)
Theorem resolveSecurityAlert_then_unlisted
  (e : SecurityEngine.t) (id : string) :
  alertsKeyed (SecurityEngine.alerts e) ->
  let r := SecurityEngine.resolveSecurityAlert e id in
  let e' := snd r in
  fst r = JS.has String.eqb id (SecurityEngine.alerts e)
  /\ JS.keys (SecurityEngine.alerts e') = JS.keys (SecurityEngine.alerts e)
  /\ (forall sev limit,
        Forall (fun a => alertId a <> id /\ resolved a = false
                         /\ In a (JS.values (SecurityEngine.alerts e)))
               (SecurityEngine.getSecurityAlerts e' sev (Some false) limit))
  /\ (forall sev res limit a,
        In a (SecurityEngine.getSecurityAlerts e' sev res limit) ->
        In a (JS.values (SecurityEngine.alerts e'))
        /\ (forall wanted, sev = Some wanted -> severity a = wanted)
        /\ (forall wanted, res = Some wanted -> resolved a = wanted))
  /\ (forall a, In a (JS.values (SecurityEngine.alerts e)) -> alertId a <> id ->
                In a (JS.values (SecurityEngine.alerts e')))
  /\ (forall a, JS.get String.eqb id (SecurityEngine.alerts e) = Some a ->
        JS.get String.eqb id (SecurityEngine.alerts e')
        = Some {| alertId := alertId a;
                  severity := severity a;
                  alertMessage := alertMessage a;
                  alertScanId := alertScanId a;
                  alertDetectedTypes := alertDetectedTypes a;
                  alertSubject := alertSubject a;
                  alertUserId := alertUserId a;
                  alertTimestamp := alertTimestamp a;
                  resolved := true |})
  /\ alertsKeyed (SecurityEngine.alerts e').
Proof.
intros [Hkeyed Hnd]. cbv zeta.
split; [|split; [|split; [|split; [intros sev res limit a;
                                    apply getSecurityAlerts_In|]]]].
all: unfold SecurityEngine.resolveSecurityAlert, JS.has.
all: destruct (JS.get String.eqb id (SecurityEngine.alerts e)) as [a0|] eqn:E.
all: cbn [fst snd SecurityEngine.alerts]; unfold SecurityEngine.setAlert.
all: try reflexivity.
- now apply (set_existing_keys _ _ a0).
- intros sev limit. apply List.Forall_forall. intros a Ha.
  apply getSecurityAlerts_In in Ha. destruct Ha as (Hin & _ & Hres).
  specialize (Hres false eq_refl).
  cbn [SecurityEngine.alerts] in Hin. unfold SecurityEngine.setAlert in Hin.
  unfold JS.values in Hin. apply in_map_iff in Hin.
  destruct Hin as [[k v] [Hv Hin]]. simpl in Hv. subst v.
  apply set_values_In in Hin; [|exact Hnd].
  destruct Hin as [[= -> ->]|[Hin Hne]].
  + simpl in Hres. discriminate.
  + simpl in Hne. rewrite List.Forall_forall in Hkeyed.
    specialize (Hkeyed _ Hin). simpl in Hkeyed.
    split; [congruence|]. split; [exact Hres|].
    unfold JS.values. apply in_map_iff. exists (k, a). auto.
- intros sev limit. apply List.Forall_forall. intros a Ha.
  apply getSecurityAlerts_In in Ha. destruct Ha as (Hin & _ & Hres).
  split; [|split; [now apply Hres|exact Hin]].
  intros Hid. unfold JS.values in Hin. apply in_map_iff in Hin.
  destruct Hin as [[k v] [Hv Hin]]. simpl in Hv. subst v.
  rewrite List.Forall_forall in Hkeyed. specialize (Hkeyed _ Hin). simpl in Hkeyed.
  assert (Hsome : JS.get String.eqb id (SecurityEngine.alerts e) <> None).
  { clear -Hin Hkeyed Hid. subst k. rewrite Hid in Hin. clear Hid.
    induction (SecurityEngine.alerts e) as [|[k1 v1] m IH]; simpl; [tauto|].
    destruct (String.eqb id k1) eqn:E; [discriminate|].
    destruct Hin as [[= -> ->]|Hin]; [|now apply IH].
    rewrite String.eqb_refl in E. discriminate. }
  congruence.
- assert (Hid0 : alertId a0 = id).
  { apply get_In in E. rewrite List.Forall_forall in Hkeyed.
    exact (Hkeyed _ E). }
  split; [|split].
  + intros a Hin Hne. unfold JS.values in *. apply in_map_iff in Hin.
    destruct Hin as [[k v] [Hv Hin]]. simpl in Hv. subst v.
    apply in_map_iff. exists (k, a). split; [reflexivity|].
    apply set_keeps_others; [exact Hin|].
    rewrite List.Forall_forall in Hkeyed. specialize (Hkeyed _ Hin).
    simpl in *. congruence.
  + intros a [= <-].
    now rewrite (get_set String.eqb string_eqb_eq), String.eqb_refl.
  + split.
    * apply set_Forall; [exact Hkeyed|]. simpl. exact Hid0.
    * rewrite (set_existing_keys _ _ a0 _ E). exact Hnd.
- split; [auto|]. split; [discriminate|now split].
Qed.

Lemma resolveSecurityAlert_then_unlisted_witness :
  let e := snd (SecurityEngine.scanLogEntry Scenario.env
                  (Scenario.engine false Scenario.detector)
                  (Scenario.entry "password=hunter2 @x.io")
                  (Scenario.options None)) in
  let r := SecurityEngine.resolveSecurityAlert e "alert_1" in
  alertsKeyed (SecurityEngine.alerts e)
  /\ JS.keys (SecurityEngine.alerts e) = ["alert_1"%string]
  /\ fst r = true
  /\ Forall (fun a => alertId a <> "alert_1"%string /\ resolved a = false
                      /\ In a (JS.values (SecurityEngine.alerts e)))
            (SecurityEngine.getSecurityAlerts (snd r) None (Some false) None).
Proof.
intros e r.
assert (Hkeyed : alertsKeyed (SecurityEngine.alerts e)).
{ split.
  - vm_compute. repeat constructor.
  - vm_compute. constructor; [intros []|constructor]. }
split; [exact Hkeyed|]. split; [reflexivity|].
destruct (resolveSecurityAlert_then_unlisted e "alert_1" Hkeyed)
  as (H1 & _ & H3 & _).
split; [exact H1|exact (H3 None None)].
Defined.

(** ** The scan history *)

Lemma set_length_existing {V} k (v v0 : V) m :
  JS.get String.eqb k m = Some v0 ->
  length (JS.set String.eqb k v m) = length m.
Proof.
induction m as [|[k1 v1] m IH]; simpl; [discriminate|].
destruct (String.eqb k k1); simpl; [reflexivity|]. intros H. now rewrite IH.
Qed.

Lemma get_app_fresh {V} k (v : V) m :
  JS.get String.eqb k m = None ->
  JS.get String.eqb k (m ++ [(k, v)]) = Some v.
Proof.
induction m as [|[k1 v1] m IH]; simpl.
- now rewrite String.eqb_refl.
- destruct (String.eqb k k1); [discriminate|]. exact IH.
Qed.

Lemma set_last {V} k (v v0 : V) m :
  JS.get String.eqb k m = None ->
  JS.set String.eqb k v (m ++ [(k, v0)]) = m ++ [(k, v)].
Proof.
induction m as [|[k1 v1] m IH]; simpl.
- now rewrite String.eqb_refl.
- destruct (String.eqb k k1); [discriminate|]. intros H. now rewrite IH.
Qed.

Lemma get_None_keys {V} k (m : JS.jsmap string V) :
  JS.get String.eqb k m = None <-> ~ In k (JS.keys m).
Proof.
unfold JS.keys. induction m as [|[k1 v1] m IH]; simpl; [tauto|].
destruct (String.eqb k k1) eqn:E.
- apply String.eqb_eq in E. subst. split; [discriminate|tauto].
- apply String.eqb_neq in E. rewrite IH. split; [|tauto].
  intros H [H1|H1]; [congruence|tauto].
Qed.

Lemma keys_app {K V} (m m' : JS.jsmap K V) :
  JS.keys (m ++ m') = JS.keys m ++ JS.keys m'.
Proof. unfold JS.keys. apply map_app. Qed.

Lemma NoDup_snoc {A} (l : list A) x :
  List.NoDup l -> ~ In x l -> List.NoDup (l ++ [x]).
Proof.
induction l as [|a l IH]; simpl; intros Hl Hx.
- constructor; [simpl; tauto|constructor].
- inversion Hl as [|? ? Ha Hrest]; subst. constructor.
  + intros H. apply in_app_or in H. destruct H as [H|[<-|[]]]; tauto.
  + apply IH; tauto.
Qed.

(** What [storeScanResult] does to a history of at most 1000 scan
    identifiers. *)
Lemma storeScanResult_spec history id result :
  Z.of_nat (length history) <= 1000 -> List.NoDup (JS.keys history) ->
  let history' := SecurityEngine.storeScanResult history id result in
  Z.of_nat (length history') <= 1000
  /\ List.NoDup (JS.keys history')
  /\ JS.get String.eqb id history'
     = Some (default [] (JS.get String.eqb id history) ++ [result])
  /\ forall kv, In kv history' ->
       kv = (id, default [] (JS.get String.eqb id history) ++ [result])
       \/ In kv history.
Proof.
intros Hlen Hnd. cbv zeta. unfold SecurityEngine.storeScanResult, JS.has.
unfold SecurityEngine.maxHistorySize.
destruct (JS.get String.eqb id history) as [old|] eqn:E;
  cbn [negb from_option Datatypes.id].
- rewrite E. cbn [from_option Datatypes.id].
  rewrite !(set_length_existing _ _ old _ E).
  replace (Z.of_nat (length history) >? 1000) with false
    by (symmetry; rewrite Z.gtb_ltb; apply Z.ltb_ge; lia).
  rewrite !(set_length_existing _ _ old _ E).
  split; [lia|]. split; [now rewrite (set_existing_keys _ _ old _ E)|].
  split.
  + now rewrite (get_set String.eqb string_eqb_eq), String.eqb_refl.
  + intros kv Hin. apply set_values_In in Hin; [|exact Hnd]. tauto.
- rewrite (set_fresh _ _ _ _ E), (get_app_fresh _ _ _ E). cbn [from_option Datatypes.id app].
  rewrite (set_last _ _ _ _ E), length_app. simpl length.
  assert (Hfresh : ~ In id (JS.keys history)) by now apply get_None_keys.
  destruct (Z.of_nat (length history + 1) >? 1000) eqn:G.
  + rewrite Z.gtb_ltb in G. apply Z.ltb_lt in G.
    destruct history as [|[k0 v0] rest]; [simpl in G; lia|].
    cbn [JS.keys map fst app JS.delete]. rewrite String.eqb_refl.
    simpl in Hlen. inversion Hnd as [|? ? Hk0 Hrest]; subst.
    assert (Hid : JS.get String.eqb id rest = None).
    { apply get_None_keys. intros H. apply Hfresh. now right. }
    split; [rewrite length_app; simpl; lia|].
    split.
    { unfold JS.keys. rewrite map_app. apply NoDup_snoc; [exact Hrest|].
      intros H. apply Hfresh. now right. }
    split; [now apply get_app_fresh|].
    intros kv Hin. apply in_app_or in Hin.
    destruct Hin as [Hin|[<-|[]]]; [right; now right|now left].
  + rewrite Z.gtb_ltb in G. apply Z.ltb_ge in G.
    split; [rewrite length_app; simpl; lia|].
    split; [rewrite keys_app; now apply NoDup_snoc|].
    split; [now apply get_app_fresh|].
    intros kv Hin. apply in_app_or in Hin.
    destruct Hin as [Hin|[<-|[]]]; [now right|now left].
Qed.

(** ** What holds of an engine however it has been used *)

Lemma storeScanResult_invariant history result :
  historyInvariant history -> scanSuccessful result = true ->
  historyInvariant
    (SecurityEngine.storeScanResult history (scanId result) result).
Proof.
intros (Hlen & Hnd & Hall) Hok.
destruct (storeScanResult_spec history (scanId result) result Hlen Hnd)
  as (Hlen' & Hnd' & _ & Hin).
cbv zeta in *. split; [exact Hlen'|]. split; [exact Hnd'|].
rewrite List.Forall_forall in *. intros kv Hkv.
destruct (Hin kv Hkv) as [->|Hold]; [|now apply Hall].
simpl. apply Forall_app. split; [|repeat constructor; assumption].
destruct (JS.get String.eqb (scanId result) history) as [old|] eqn:E;
  [|constructor].
apply get_In in E. exact (Hall _ E).
Qed.

Lemma setAlert_invariant alerts id alert :
  alertsInvariant alerts -> alertId alert = id ->
  severity alert = high \/ severity alert = medium ->
  alertsInvariant (SecurityEngine.setAlert id alert alerts).
Proof.
intros [[Hkeyed Hnd] Hsev] Hid Hs. unfold SecurityEngine.setAlert.
split; [split|].
- apply set_Forall; assumption.
- now apply (keys_set_NoDup _ string_eqb_eq).
- apply set_Forall; assumption.
Qed.

Lemma generateSecurityAlerts_invariant env alerts detections classification user :
  alertsInvariant alerts ->
  alertsInvariant
    (SecurityEngine.generateSecurityAlerts env alerts detections classification
                                           user).
Proof.
intros H. unfold SecurityEngine.generateSecurityAlerts. cbv zeta.
assert (H1 : alertsInvariant
               match sensitivityLevel classification with
               | restricted =>
                   SecurityEngine.setAlert (SecurityEngine.highAlertId env)
                     {| alertId := SecurityEngine.highAlertId env;
                        severity := high;
                        alertMessage :=
                          "High-risk PII detected in scan "
                            +:+ SecurityEngine.newScanId env;
                        alertScanId := SecurityEngine.newScanId env;
                        alertDetectedTypes := detectedTypes classification;
                        alertSubject := inl (sensitivityLevel classification);
                        alertUserId := ConsentManager.orUnknown user;
                        alertTimestamp := SecurityEngine.now env;
                        resolved := false |}
                     alerts
               | _ => alerts
               end).
{ destruct (sensitivityLevel classification); try exact H.
  apply setAlert_invariant; [exact H|reflexivity|now left]. }
destruct (3 <=? length detections)%nat; [|exact H1].
apply setAlert_invariant; [exact H1|reflexivity|now right].
Qed.

Lemma sumValues_zero {K} (keys : list K) :
  sumValues (map (fun k => (k, 0)) keys) = 0.
Proof.
unfold sumValues, JS.values. induction keys as [|k keys IH]; simpl; [reflexivity|].
exact IH.
Qed.

Lemma updateConsentComplianceStats_invariant stats compliant :
  statisticsInvariant stats ->
  statisticsInvariant
    (SecurityEngine.updateConsentComplianceStats stats compliant).
Proof.
unfold statisticsInvariant. cbv zeta.
intros (H1 & H2 & H3 & H4 & H5 & H6 & H7 & H8 & H9 & H10).
unfold SecurityEngine.updateConsentComplianceStats. cbv zeta.
destruct compliant; simpl; repeat split; try assumption; lia.
Qed.

Lemma updateStatistics_invariant stats result detections :
  statisticsInvariant stats ->
  statisticsInvariant
    (SecurityEngine.updateStatistics stats result detections).
Proof.
unfold statisticsInvariant. cbv zeta.
intros (H1 & H2 & H3 & H4 & H5 & H6 & H7 & H8 & H9 & H10).
unfold SecurityEngine.updateStatistics. cbv zeta. simpl.
destruct (countUp_fold PIIType_eqb PIIType_eqb_eq type detections
            (SecurityEngine.detectionStats stats)) as [Hsum _].
cbv zeta in Hsum.
change (fold_left SecurityEngine.countDetection detections
                  (SecurityEngine.detectionStats stats))
  with (fold_left (fun counts a => DataSanitizer.countUp PIIType_eqb counts (type a))
                  detections (SecurityEngine.detectionStats stats)).
rewrite Hsum.
destruct (sensitivityLevel (classification result)); simpl;
  repeat split; try assumption; lia.
Qed.

Lemma gate_invariant env e o :
  engineInvariant e ->
  match SecurityEngine.consentGate env e o with
  | SecurityEngine.Blocked e' | SecurityEngine.Passed _ e' => engineInvariant e'
  end.
Proof.
intros Hinv. pose proof Hinv as (Hh & Ha & Hs).
unfold SecurityEngine.consentGate.
destruct (SecurityEngine.truthy (userId o)); [|exact Hinv].
destruct (default false (skipConsentCheck o)); [exact Hinv|].
assert (Htally : forall compliant,
          engineInvariant
            (SecurityEngine.withStatistics e
               (SecurityEngine.updateConsentComplianceStats
                  (SecurityEngine.statistics e) compliant))).
{ intros compliant. split; [exact Hh|]. split; [exact Ha|].
  now apply updateConsentComplianceStats_invariant. }
destruct (negb _); [|apply Htally].
cbn [SecurityEngine.withStatistics SecurityEngine.securityPolicy].
destruct (requireExplicitConsent _); apply Htally.
Qed.

Lemma scanLogEntry_invariant env e entry o :
  engineInvariant e ->
  engineInvariant (snd (SecurityEngine.scanLogEntry env e entry o)).
Proof.
intros Hinv. unfold SecurityEngine.scanLogEntry. cbv zeta.
pose proof (gate_invariant env e o Hinv) as Hgate.
destruct (SecurityEngine.consentGate env e o) as [e1|consentValid e1];
  [exact Hgate|].
destruct Hgate as (Hh & Ha & Hs).
destruct (PIIDetector.scanText (SecurityEngine.piiDetector e1) _ _ _)
  as [found detector].
destruct (if SecurityEngine.sanitizationDue _ _ _ _ then _ else _)
  as [[sanitization|msg] sanitizer]; cbn [snd].
- split; [|split]; cbn [SecurityEngine.scanHistory SecurityEngine.alerts
                        SecurityEngine.statistics].
  + match goal with
    | |- historyInvariant (SecurityEngine.storeScanResult _ _ ?r) =>
        apply (storeScanResult_invariant _ r Hh eq_refl)
    end.
  + now apply generateSecurityAlerts_invariant.
  + now apply updateStatistics_invariant.
- split; [|split]; cbn [SecurityEngine.scanHistory SecurityEngine.alerts
                        SecurityEngine.statistics]; try assumption.
  now apply generateSecurityAlerts_invariant.
Qed.

Lemma resolveSecurityAlert_invariant e id :
  engineInvariant e ->
  engineInvariant (snd (SecurityEngine.resolveSecurityAlert e id)).
Proof.
intros Hinv. pose proof Hinv as (Hh & Ha & Hs).
unfold SecurityEngine.resolveSecurityAlert.
destruct (JS.get String.eqb id (SecurityEngine.alerts e)) as [a0|] eqn:E;
  [|exact Hinv].
cbn [snd]. split; [exact Hh|]. split; [|exact Hs].
cbn [SecurityEngine.alerts].
destruct Ha as [[Hkeyed Hnd] Hsev].
apply get_In in E. rewrite List.Forall_forall in Hkeyed, Hsev.
apply setAlert_invariant.
- split; [split|]; try assumption; now apply List.Forall_forall.
- simpl. exact (Hkeyed _ E).
- simpl. exact (Hsev _ E).
Qed.

Lemma engineRun_invariant policy cm detector sanitizer ops :
  engineInvariant
    (engineRun (SecurityEngine.create policy cm detector sanitizer) ops).
Proof.
unfold engineRun.
assert (H0 : engineInvariant (SecurityEngine.create policy cm detector sanitizer)).
{ split; [|split].
  - split; [simpl; lia|]. split; constructor.
  - split; [split|]; constructor.
  - unfold statisticsInvariant. simpl. rewrite sumValues_zero.
    repeat split; lia. }
revert H0. generalize (SecurityEngine.create policy cm detector sanitizer).
induction ops as [|op ops IH]; intros e He; simpl; [exact He|].
apply IH. destruct op as [env entry o|updates|id]; simpl.
- now apply scanLogEntry_invariant.
- exact He.
- now apply resolveSecurityAlert_invariant.
Qed.

Lemma sliceTo_length {A} n (l : list A) :
  0 <= n -> Z.of_nat (length (JS.sliceTo n l)) <= n.
Proof.
intros Hn. unfold JS.sliceTo.
replace (n <? 0) with false by (symmetry; apply Z.ltb_ge; lia).
rewrite length_firstn. lia.
Qed.

(** X26.  The scan history of an engine, after any sequence of scans,
    policy updates and alert resolutions on a new engine: it never holds
    more than 1000 scan identifiers, all its results are successful
    scans filed under their own identifier, and listing it with a limit
    returns at most that many results.  A further scan that succeeds is
    added as the last result under its identifier, where
    [getScanHistory] finds it; a scan that fails leaves the history as it
    was. *)
Theorem scanHistory_bounded
  (policy : SecurityPolicy) (cm : ConsentManager.t) (detector : PIIDetector.t)
  (sanitizer : DataSanitizer.t) (ops : list EngineOp) :
  let e := engineRun (SecurityEngine.create policy cm detector sanitizer) ops in
  Z.of_nat (length (SecurityEngine.scanHistory e)) <= 1000
  /\ (forall id,
        Forall (fun r => scanSuccessful r = true /\ (id <> ""%string -> scanId r = id))
               (SecurityEngine.getScanHistory e (Some id) None))
  /\ (forall limit, 0 <= limit ->
        Z.of_nat (length (SecurityEngine.getScanHistory e None (Some limit)))
        <= limit)
  /\ forall env entry o,
       let r := SecurityEngine.scanLogEntry env e entry o in
       if scanSuccessful (fst (fst r))
       then SecurityEngine.newScanId env <> ""%string ->
            SecurityEngine.getScanHistory (snd r)
              (Some (SecurityEngine.newScanId env)) None
            = SecurityEngine.getScanHistory e
                (Some (SecurityEngine.newScanId env)) None
              ++ [fst (fst r)]
       else SecurityEngine.scanHistory (snd r) = SecurityEngine.scanHistory e.
Proof.
cbv zeta.
pose proof (engineRun_invariant policy cm detector sanitizer ops)
  as ((Hlen & Hnd & Hall) & _ & _).
set (e := engineRun _ ops) in *.
split; [exact Hlen|]. split; [|split].
- intros id. unfold SecurityEngine.getScanHistory.
  assert (Hsucc : Forall (fun r => scanSuccessful r = true)
                         (concat (JS.values (SecurityEngine.scanHistory e)))).
  { apply List.Forall_forall. intros r Hr. apply in_concat in Hr.
    destruct Hr as [l [Hl Hr]]. unfold JS.values in Hl.
    apply in_map_iff in Hl. destruct Hl as [kv [<- Hkv]].
    rewrite List.Forall_forall in Hall. specialize (Hall kv Hkv).
    rewrite List.Forall_forall in Hall. now apply Hall. }
  destruct (SecurityEngine.truthy (Some id)) as [id'|] eqn:T.
  + assert (id' = id /\ id <> ""%string) as [-> Hne].
    { simpl in T. destruct (String.eqb id "") eqn:E; [discriminate|].
      apply String.eqb_neq in E. now injection T as <-. }
    destruct (JS.get String.eqb id (SecurityEngine.scanHistory e)) as [l|] eqn:G;
      [|constructor].
    apply get_In in G. rewrite List.Forall_forall in Hall.
    specialize (Hall _ G). simpl in *.
    eapply List.Forall_impl; [|exact Hall]. simpl. tauto.
  + assert (id = ""%string) as ->.
    { simpl in T. destruct (String.eqb id "") eqn:E; [|discriminate].
      now apply String.eqb_eq. }
    apply List.Forall_forall. intros r Hr. apply sliceTo_In, sort_In in Hr.
    rewrite List.Forall_forall in Hsucc. split; [now apply Hsucc|congruence].
- intros limit Hl. unfold SecurityEngine.getScanHistory. simpl.
  now apply sliceTo_length.
- intros env entry o. unfold SecurityEngine.scanLogEntry. cbv zeta.
  pose proof (gate_policy env e o) as Hgate.
  destruct (SecurityEngine.consentGate env e o) as [e1|consentValid e1];
    destruct Hgate as (_ & _ & _ & _ & _ & Hhist); [exact Hhist|].
  destruct (PIIDetector.scanText (SecurityEngine.piiDetector e1) _ _ _)
    as [found detector'].
  destruct (if SecurityEngine.sanitizationDue _ _ _ _ then _ else _)
    as [[sanitization|msg] sanitizer']; cbn [fst snd scanSuccessful];
    [|exact Hhist].
  intros Hne. unfold SecurityEngine.getScanHistory.
  assert (T : SecurityEngine.truthy (Some (SecurityEngine.newScanId env))
              = Some (SecurityEngine.newScanId env)).
  { simpl. apply String.eqb_neq in Hne. now rewrite Hne. }
  rewrite T. cbn [SecurityEngine.scanHistory]. rewrite Hhist.
  match goal with
  | |- context [SecurityEngine.storeScanResult _ _ ?r] =>
      destruct (storeScanResult_spec (SecurityEngine.scanHistory e)
                  (SecurityEngine.newScanId env) r Hlen Hnd)
        as (_ & _ & Hget & _)
  end.
  cbv zeta in Hget. rewrite Hget. reflexivity.
Qed.

Lemma scanLogEntry_counters env e entry o :
  let r := SecurityEngine.scanLogEntry env e entry o in
  let result := fst (fst r) in
  SecurityEngine.totalScans (SecurityEngine.statistics (snd r))
  = SecurityEngine.totalScans (SecurityEngine.statistics e)
    + (if scanSuccessful result then 1 else 0)
  /\ SecurityEngine.totalPIIDetected (SecurityEngine.statistics (snd r))
     = SecurityEngine.totalPIIDetected (SecurityEngine.statistics e)
       + Z.of_nat (length (detections result)).
Proof.
cbv zeta. unfold SecurityEngine.scanLogEntry. cbv zeta.
assert (Hgate :
  match SecurityEngine.consentGate env e o with
  | SecurityEngine.Blocked e' | SecurityEngine.Passed _ e' =>
      SecurityEngine.totalScans (SecurityEngine.statistics e')
      = SecurityEngine.totalScans (SecurityEngine.statistics e)
      /\ SecurityEngine.totalPIIDetected (SecurityEngine.statistics e')
         = SecurityEngine.totalPIIDetected (SecurityEngine.statistics e)
  end).
{ unfold SecurityEngine.consentGate.
  destruct (SecurityEngine.truthy (userId o)); [|simpl; auto].
  destruct (default false (skipConsentCheck o)); [simpl; auto|].
  destruct (negb _); [|simpl; auto].
  cbn [SecurityEngine.withStatistics SecurityEngine.securityPolicy].
  destruct (requireExplicitConsent _); simpl; auto. }
destruct (SecurityEngine.consentGate env e o) as [e1|consentValid e1];
  destruct Hgate as [H1 H2].
- simpl. lia.
- destruct (PIIDetector.scanText (SecurityEngine.piiDetector e1) _ _ _)
    as [found detector'].
  destruct (if SecurityEngine.sanitizationDue _ _ _ _ then _ else _)
    as [[sanitization|msg] sanitizer']; simpl; lia.
Qed.

(** X27.  The statistics of an engine, after any sequence of scans,
    policy updates and alert resolutions on a new engine: [totalScans]
    is the number of scans that succeeded (failed scans, among them
    those refused for lack of consent, are not counted) and is the sum
    of the four counters of [riskLevelDistribution]; [totalPIIDetected]
    is the number of detections those scans reported and is the sum of
    the per-type counters of [detectionStats]; [totalSanitizations] and
    [consentCompliance.totalUsers] are always 0, whatever was sanitized
    and whoever was scanned. *)
Theorem statistics_add_up
  (policy : SecurityPolicy) (cm : ConsentManager.t) (detector : PIIDetector.t)
  (sanitizer : DataSanitizer.t) (ops : list EngineOp) :
  let e0 := SecurityEngine.create policy cm detector sanitizer in
  let stats := SecurityEngine.getStatistics (engineRun e0 ops) in
  statisticsInvariant stats
  /\ SecurityEngine.totalScans stats = successfulScans e0 ops
  /\ SecurityEngine.totalPIIDetected stats = reportedDetections e0 ops.
Proof.
cbv zeta. unfold SecurityEngine.getStatistics.
split; [apply (engineRun_invariant policy cm detector sanitizer ops)|].
assert (H : forall e,
          SecurityEngine.totalScans (SecurityEngine.statistics (engineRun e ops))
          = SecurityEngine.totalScans (SecurityEngine.statistics e)
            + successfulScans e ops
          /\ SecurityEngine.totalPIIDetected
               (SecurityEngine.statistics (engineRun e ops))
             = SecurityEngine.totalPIIDetected (SecurityEngine.statistics e)
               + reportedDetections e ops).
{ unfold engineRun. induction ops as [|op ops IH]; intros e; simpl; [lia|].
  destruct (IH (engineStep e op)) as [I1 I2]. rewrite I1, I2.
  destruct op as [env entry o|updates|id]; simpl.
  - destruct (scanLogEntry_counters env e entry o) as [C1 C2].
    cbv zeta in C1, C2. rewrite C1, C2. lia.
  - lia.
  - unfold SecurityEngine.resolveSecurityAlert.
    destruct (JS.get String.eqb id (SecurityEngine.alerts e)); simpl; lia. }
destruct (H (SecurityEngine.create policy cm detector sanitizer)) as [H1 H2].
rewrite H1, H2. simpl. lia.
Qed.

(** ** Health check and audit report *)

Lemma filter_none {A} (f : A -> bool) l :
  Forall (fun x => f x = false) l -> List.filter f l = [].
Proof.
induction 1 as [|x l Hx Hl IH]; simpl; [reflexivity|]. now rewrite Hx.
Qed.

Lemma filter_all {A} (f : A -> bool) l :
  Forall (fun x => f x = true) l -> List.filter f l = l.
Proof.
induction 1 as [|x l Hx Hl IH]; simpl; [reflexivity|]. now rewrite Hx, IH.
Qed.

Lemma stored_scans_successful e :
  historyInvariant (SecurityEngine.scanHistory e) ->
  Forall (fun r => scanSuccessful r = true) (SecurityEngine.allScans e).
Proof.
intros (_ & _ & Hall). unfold SecurityEngine.allScans.
apply List.Forall_forall. intros r Hr. apply in_concat in Hr.
destruct Hr as [l [Hl Hr]]. unfold JS.values in Hl.
apply in_map_iff in Hl. destruct Hl as [kv [<- Hkv]].
rewrite List.Forall_forall in Hall. specialize (Hall kv Hkv).
rewrite List.Forall_forall in Hall. now apply Hall.
Qed.

Lemma listed_scans_successful e limit :
  historyInvariant (SecurityEngine.scanHistory e) ->
  Forall (fun r => scanSuccessful r = true)
         (SecurityEngine.getScanHistory e None limit).
Proof.
intros H. apply stored_scans_successful in H.
rewrite List.Forall_forall in *. intros r Hr.
unfold SecurityEngine.getScanHistory in Hr. simpl in Hr.
apply sliceTo_In, sort_In in Hr. now apply H.
Qed.

Lemma recentErrorRate_zero e :
  historyInvariant (SecurityEngine.scanHistory e) ->
  SecurityEngine.recentErrorRate e == 0.
Proof.
intros H. unfold SecurityEngine.recentErrorRate. cbv zeta.
rewrite (filter_none (fun scan => negb (scanSuccessful scan))).
- destruct (0 <? length _)%nat; [|reflexivity]. simpl length.
  unfold Qdiv. change (inject_Z (Z.of_nat 0)) with 0%Q. ring.
- eapply List.Forall_impl; [|apply (listed_scans_successful e _ H)].
  simpl. intros r ->. reflexivity.
Qed.

Lemma Qltb_zero a q : (0 < a)%Q -> q == 0 -> JS.Qltb a q = false.
Proof.
intros Ha Hq. apply Qltb_false. rewrite Hq. now apply Qlt_le_weak.
Qed.

(** X28.  [healthCheck] and [exportSecurityAuditReport] on an engine
    after any sequence of scans, policy updates and alert resolutions:
    since only successful scans are stored and only alerts of severity
    [high] and [medium] are raised, the recent error rate is 0, no
    critical alert is counted, and the compliance rate of the report is
    1 whatever scans failed or were refused; the sanitizer and the
    consent manager are always reported healthy; so the engine is
    reported [unhealthy] exactly when the detector's average scan time
    is not below 10 ms, and otherwise [degraded] exactly when a
    [high] alert is unresolved or the engine's average scan time
    exceeds 5 ms. *)
Theorem healthCheck_of_used_engine
  (policy : SecurityPolicy) (cm : ConsentManager.t) (detector : PIIDetector.t)
  (sanitizer : DataSanitizer.t) (ops : list EngineOp) (now : Z)
  (user : option string) (fromDate toDate : option Z) :
  let e := engineRun (SecurityEngine.create policy cm detector sanitizer) ops in
  let report := SecurityEngine.healthCheck e now in
  let audit := SecurityEngine.exportSecurityAuditReport e user fromDate toDate in
  SecurityEngine.reportedRecentErrorRate report == 0
  /\ SecurityEngine.criticalAlerts report = 0
  /\ SecurityEngine.dataSanitizerHealth report = SecurityEngine.healthy
  /\ SecurityEngine.consentManagerHealth report = SecurityEngine.healthy
  /\ SecurityEngine.overall report
     = (if JS.Qltb (PIIDetector.averageScanTimeMs
                      (PIIDetector.getPerformanceMetrics
                         (SecurityEngine.piiDetector e))) 10
        then if (SecurityEngine.highAlerts report >? 0)
                || JS.Qltb 5 (SecurityEngine.averageTimeMs
                                (SecurityEngine.scanPerformance
                                   (SecurityEngine.getStatistics e)))
             then SecurityEngine.degraded
             else SecurityEngine.healthy
        else SecurityEngine.unhealthy)
  /\ SecurityEngine.complianceRate (SecurityEngine.policyCompliance audit) == 1
  /\ SecurityEngine.reportCompliantScans (SecurityEngine.policyCompliance audit)
     = SecurityEngine.reportTotalScans (SecurityEngine.policyCompliance audit).
Proof.
cbv zeta.
pose proof (engineRun_invariant policy cm detector sanitizer ops)
  as (Hh & ((Hkeyed & Hnd) & Hsev) & _).
set (e := engineRun _ ops) in *.
pose proof (recentErrorRate_zero e Hh) as Hrate.
assert (Hcrit : List.filter
                  (fun a => SecurityEngine.Severity_eqb (severity a) critical
                            && negb (resolved a))
                  (JS.values (SecurityEngine.alerts e)) = []).
{ apply filter_none. apply List.Forall_forall. intros a Ha.
  unfold JS.values in Ha. apply in_map_iff in Ha.
  destruct Ha as [kv [<- Hkv]]. rewrite List.Forall_forall in Hsev.
  destruct (Hsev kv Hkv) as [-> | ->]; reflexivity. }
assert (Hsan : (DataSanitizer.totalActions
                  (DataSanitizer.getStatistics (SecurityEngine.dataSanitizer e))
                >=? 0) = true).
{ rewrite Z.geb_leb. apply Z.leb_le. simpl. lia. }
assert (Hcm : (ConsentManager.totalUsers
                 (ConsentManager.getConsentStatistics
                    (SecurityEngine.consentManager e) now) >=? 0) = true).
{ rewrite Z.geb_leb. apply Z.leb_le. simpl. lia. }
unfold SecurityEngine.healthCheck. cbv zeta.
cbn [SecurityEngine.reportedRecentErrorRate SecurityEngine.criticalAlerts
     SecurityEngine.dataSanitizerHealth SecurityEngine.consentManagerHealth
     SecurityEngine.overall SecurityEngine.highAlerts].
rewrite Hcrit, Hsan, Hcm.
rewrite (Qltb_zero 0.1 _ ltac:(reflexivity) Hrate).
rewrite (Qltb_zero 0.05 _ ltac:(reflexivity) Hrate).
split; [exact Hrate|]. split; [reflexivity|]. split; [reflexivity|].
split; [reflexivity|]. split.
{ unfold SecurityEngine.getStatistics, PIIDetector.getPerformanceMetrics.
  rewrite !orb_false_r.
  destruct (JS.Qltb (PIIDetector.averageScanTimeMs _) 10); reflexivity. }
unfold SecurityEngine.exportSecurityAuditReport. cbv zeta.
cbn [SecurityEngine.policyCompliance SecurityEngine.complianceRate
     SecurityEngine.reportCompliantScans SecurityEngine.reportTotalScans].
set (listed := match fromDate, toDate with
               | None, None => SecurityEngine.getScanHistory e None (Some 10000)
               | _, _ => _
               end).
assert (Hlisted : Forall (fun r => scanSuccessful r = true) listed).
{ pose proof (listed_scans_successful e (Some 10000) Hh) as H.
  subst listed. destruct fromDate, toDate; try exact H;
    (apply List.Forall_forall; intros r Hr; apply List.filter_In in Hr;
     rewrite List.Forall_forall in H; now apply H). }
rewrite (filter_all (fun scan => scanSuccessful scan) listed Hlisted).
split; [|reflexivity].
destruct (Z.of_nat (length listed) >? 0) eqn:G; [|reflexivity].
rewrite Z.gtb_ltb in G. apply Z.ltb_lt in G.
apply Qmult_inv_r. intros H. unfold Qeq in H. simpl in H. lia.
Qed.

(** ** Batch scanning *)

Lemma scanLogEntry_split env e entry o :
  SecurityEngine.scanLogEntry env e entry o
  = SecurityEngine.finishScan env (snd (SecurityEngine.startScan env e entry o))
      entry o (fst (SecurityEngine.startScan env e entry o)).
Proof.
unfold SecurityEngine.scanLogEntry, SecurityEngine.startScan,
  SecurityEngine.finishScan. cbv zeta.
destruct (SecurityEngine.consentGate env e o) as [e1|consentValid e1];
  [reflexivity|].
destruct (PIIDetector.scanText (SecurityEngine.piiDetector e1) _ _ _)
  as [found detector].
reflexivity.
Qed.

(** The consent tally and the scan tally are different fields of the
    statistics. *)
Lemma statistics_updates_commute stats result found valid :
  SecurityEngine.updateConsentComplianceStats
    (SecurityEngine.updateStatistics stats result found) valid
  = SecurityEngine.updateStatistics
      (SecurityEngine.updateConsentComplianceStats stats valid) result found.
Proof. reflexivity. Qed.

Ltac engine_fields :=
  cbn [fst snd SecurityEngine.piiDetector SecurityEngine.dataSanitizer
       SecurityEngine.consentManager SecurityEngine.securityPolicy
       SecurityEngine.statistics SecurityEngine.alerts
       SecurityEngine.scanHistory].

(** Resuming one scan and starting another touch different parts of the
    engine, so they can be swapped. *)
Lemma start_finish_commute env1 entry1 st1 env2 entry2 o e :
  let f := SecurityEngine.finishScan env1 e entry1 o st1 in
  let s := SecurityEngine.startScan env2 e entry2 o in
  SecurityEngine.startScan env2 (snd f) entry2 o
  = (fst s, snd (SecurityEngine.finishScan env1 (snd s) entry1 o st1))
  /\ fst (SecurityEngine.finishScan env1 (snd s) entry1 o st1) = fst f.
Proof.
cbv zeta. destruct e as [det san cm pol stats al hist].
unfold SecurityEngine.finishScan, SecurityEngine.startScan,
  SecurityEngine.consentGate, SecurityEngine.withStatistics. cbv zeta.
engine_fields.
destruct st1 as [r1|cv1 dets1 risk1 class1].
- destruct (SecurityEngine.truthy (userId o)); engine_fields;
  [destruct (default false (skipConsentCheck o)); engine_fields;
   [|destruct (negb _); engine_fields;
     [destruct (requireExplicitConsent pol); engine_fields|]]|];
  try (split; reflexivity);
  destruct (PIIDetector.scanText det _ _ _) as [found detector];
  split; reflexivity.
- assert (Hsan : exists outcome,
    (if SecurityEngine.sanitizationDue pol o cv1 dets1
     then
       let (r0, sanitizer) :=
         DataSanitizer.sanitizeText (SecurityEngine.now env1) san
           (LogEntry.message entry1) dets1 in
       match r0 with
       | Ok r => (Ok (Some r), sanitizer)
       | Throw m => (Throw m, sanitizer)
       end
     else (Ok None, san)) = outcome) by (eexists; reflexivity).
  destruct Hsan as [[[r|m] sanitizer] Hsan].
  all: rewrite ?Hsan; engine_fields.
  all: destruct (SecurityEngine.truthy (userId o)); engine_fields;
  [destruct (default false (skipConsentCheck o)); engine_fields;
   [|destruct (negb _); engine_fields;
     [destruct (requireExplicitConsent pol); engine_fields|]]|].
  all: rewrite ?Hsan; engine_fields.
  all: try (split; reflexivity).
  all: destruct (PIIDetector.scanText det _ _ _) as [found detector];
    engine_fields; rewrite ?Hsan; engine_fields.
  all: try (split; reflexivity).
Qed.

(** Resuming a scan after the rest of its batch has started leaves what
    resuming it before would have left. *)
Lemma startBatch_finish_commute env1 entry1 st1 o rest : forall e,
  let f := SecurityEngine.finishScan env1 e entry1 o st1 in
  let s := SecurityEngine.startBatch e rest o in
  SecurityEngine.startBatch (snd f) rest o
  = (fst s, snd (SecurityEngine.finishScan env1 (snd s) entry1 o st1))
  /\ fst (SecurityEngine.finishScan env1 (snd s) entry1 o st1) = fst f.
Proof.
induction rest as [|[env2 entry2] rest IH]; intros e; cbv zeta.
- split; reflexivity.
- cbn [SecurityEngine.startBatch].
  destruct (start_finish_commute env1 entry1 st1 env2 entry2 o e) as [Hs Hf].
  cbv zeta in Hs, Hf. rewrite Hs.
  destruct (SecurityEngine.startScan env2 e entry2 o) as [st2 e2].
  cbn [fst snd] in *.
  destruct (IH e2) as [Hs' Hf']. cbv zeta in Hs', Hf'. rewrite Hs'.
  destruct (SecurityEngine.startBatch e2 rest o) as [others e3].
  cbn [fst snd] in *. split; [reflexivity|congruence].
Qed.

(** A batch started together and then resumed in order comes out as if
    its entries had been scanned one after another. *)
Lemma batch_sequential o batch : forall e,
  SecurityEngine.finishBatch (snd (SecurityEngine.startBatch e batch o))
    (fst (SecurityEngine.startBatch e batch o)) o
  = scanEach e batch o.
Proof.
induction batch as [|[env entry] rest IH]; intros e; [reflexivity|].
cbn [SecurityEngine.startBatch scanEach].
rewrite (scanLogEntry_split env e entry o).
destruct (SecurityEngine.startScan env e entry o) as [st e1].
cbn [fst snd].
destruct (startBatch_finish_commute env entry st o rest e1) as [Hs Hf].
cbv zeta in Hs, Hf. specialize (IH (snd (SecurityEngine.finishScan env e1 entry o st))).
rewrite Hs in IH. cbn [fst snd] in IH.
destruct (SecurityEngine.startBatch e1 rest o) as [others e2].
cbn [fst snd SecurityEngine.finishBatch] in *.
destruct (SecurityEngine.finishScan env e2 entry o st) as [[r entry'] e3].
destruct (SecurityEngine.finishScan env e1 entry o st) as [[r0 entry0] e0].
cbn [fst snd] in *. injection Hf as -> ->.
rewrite IH. reflexivity.
Qed.

Lemma scanEach_app o l1 : forall e l2,
  scanEach e (l1 ++ l2) o
  = (fst (scanEach e l1 o) ++ fst (scanEach (snd (scanEach e l1 o)) l2 o),
     snd (scanEach (snd (scanEach e l1 o)) l2 o)).
Proof.
induction l1 as [|[env entry] l1 IH]; intros e l2.
- simpl. apply surjective_pairing.
- cbn [scanEach app].
  destruct (SecurityEngine.scanLogEntry env e entry o) as [[r entry'] e1].
  rewrite IH.
  destruct (scanEach e1 l1 o) as [rs e2]. reflexivity.
Qed.

Lemma scanBatches_sequential o turns : forall e logEntries,
  (length logEntries <= turns)%nat ->
  SecurityEngine.scanBatches turns e logEntries o = scanEach e logEntries o.
Proof.
induction turns as [|turns IH]; intros e logEntries Hlen.
- destruct logEntries; [reflexivity|simpl in Hlen; lia].
- destruct logEntries as [|entry rest]; [reflexivity|].
  set (l := entry :: rest) in *.
  change (SecurityEngine.scanBatches (S turns) e l o)
    with (let batch := firstn SecurityEngine.batchSize l in
          let '(started, e) := SecurityEngine.startBatch e batch o in
          let '(batchResults, e) := SecurityEngine.finishBatch e started o in
          let '(others, e) :=
            SecurityEngine.scanBatches turns e
              (skipn SecurityEngine.batchSize l) o in
          (batchResults ++ others, e)).
  cbv zeta.
  pose proof (batch_sequential o (firstn SecurityEngine.batchSize l) e) as Hb.
  destruct (SecurityEngine.startBatch e (firstn SecurityEngine.batchSize l) o)
    as [started e1].
  cbn [fst snd] in Hb. rewrite Hb.
  replace (scanEach e l o)
    with (scanEach e (firstn SecurityEngine.batchSize l
                      ++ skipn SecurityEngine.batchSize l) o)
    by now rewrite firstn_skipn.
  rewrite scanEach_app.
  destruct (scanEach e (firstn SecurityEngine.batchSize l) o) as [rs e2].
  cbn [fst snd].
  rewrite IH.
  + destruct (scanEach e2 (skipn SecurityEngine.batchSize l) o). reflexivity.
  + rewrite length_skipn. unfold SecurityEngine.batchSize.
    subst l. simpl length in *. lia.
Qed.

(** X29. Scanning a list of log entries in batches of ten, the scans of
    a batch started together and resumed in the order in which they
    were suspended, gives the results, the entries and the engine that
    scanning the entries one after another gives, when each scan reads
    the same clock values and identifiers in both runs. *)
Theorem scanLogEntries_sequential e logEntries options :
  SecurityEngine.scanLogEntries e logEntries options
  = scanEach e logEntries options.
Proof.
unfold SecurityEngine.scanLogEntries.
apply scanBatches_sequential. reflexivity.
Qed.
